(** * SM2349: a shallow embedding of the GM/T reference implementations

    The C sources of the repository (ZUC.c, SM4.c, KDF.h, SM2_sv.c and
    SM2_ENC.c) are embedded as Rocq functions over [Z] and lists:

    - an [unsigned int] is a [Z] in [[0, 2^32)], an [unsigned char] a [Z] in
      [[0, 256)]; every C operation that can leave the range is followed by
      its wrap-around ([u32], [u16], [u8]);
    - a C array is a [list Z], read with stdpp's total lookup [!!!] and
      written with [<[i := v]>]; reads whose bounds are the subject of a
      property use the partial lookup [!!];
    - caller-owned output buffers are passed in and returned, so that what a
      function leaves in a buffer on every exit path is visible.

    Tables and macros of headers that are not part of the sources at hand
    (ZUC.h, SM4.h) are section variables. *)

From Stdlib Require Import ZArith Lia Bool List Znumtheory.
From stdpp Require Import base list.

Local Open Scope Z_scope.

(** ** Machine integers *)

Definition u32 (x : Z) : Z := x mod 2 ^ 32.
Definition u16 (x : Z) : Z := x mod 2 ^ 16.
Definition u8 (x : Z) : Z := x mod 2 ^ 8.

(** [is_u32 x]: [x] is the value of an [unsigned int]. *)
Definition is_u32 (x : Z) : Prop := 0 <= x < 2 ^ 32.
Definition is_u8 (x : Z) : Prop := 0 <= x < 2 ^ 8.

(** 32-bit left rotation, the [ZUC_rotl32] and [SM4_Rotl32] macros. *)
Definition rotl32 (x k : Z) : Z :=
  Z.lor (u32 (Z.shiftl x k)) (Z.shiftr x (32 - k)).

(** ** Facts on 32-bit values *)

Lemma u32_of_bits (x : Z) :
  0 <= x -> (forall c, 32 <= c -> Z.testbit x c = false) -> is_u32 x.
Proof.
  intros Hx Hhi. unfold is_u32.
  assert (E : x = x mod 2 ^ 32).
  { apply Z.bits_inj'. intros c Hc. destruct (Z.ltb_spec c 32).
    - rewrite Z.mod_pow2_bits_low by lia. reflexivity.
    - rewrite Z.mod_pow2_bits_high by lia. apply Hhi. lia. }
  rewrite E. apply Z.mod_pos_bound. lia.
Qed.

Lemma u32_high_bits (x c : Z) : is_u32 x -> 32 <= c -> Z.testbit x c = false.
Proof.
  unfold is_u32. intros Hx Hc.
  destruct (Z.eq_dec x 0) as [-> | Hne]; [apply Z.bits_0|].
  apply Z.bits_above_log2; [lia|]. apply Z.lt_le_trans with 32; [|lia].
  apply Z.log2_lt_pow2; lia.
Qed.

Lemma lxor_u32 (a b : Z) : is_u32 a -> is_u32 b -> is_u32 (Z.lxor a b).
Proof.
  intros Ha Hb. apply u32_of_bits.
  - apply Z.lxor_nonneg. unfold is_u32 in *. lia.
  - intros c Hc. rewrite Z.lxor_spec, !u32_high_bits by assumption. reflexivity.
Qed.

Lemma lor_u32 (a b : Z) : is_u32 a -> is_u32 b -> is_u32 (Z.lor a b).
Proof.
  intros Ha Hb. apply u32_of_bits.
  - apply Z.lor_nonneg. unfold is_u32 in *. lia.
  - intros c Hc. rewrite Z.lor_spec, !u32_high_bits by assumption. reflexivity.
Qed.

Lemma u32_is_u32 (x : Z) : is_u32 (u32 x).
Proof. unfold is_u32, u32. apply Z.mod_pos_bound. lia. Qed.

Lemma shiftr_land_u32 (s m n : Z) :
  is_u32 m -> 0 <= n -> is_u32 (Z.shiftr (Z.land s m) n).
Proof.
  intros Hm Hn. apply u32_of_bits.
  - apply Z.shiftr_nonneg, Z.land_nonneg. unfold is_u32 in Hm. lia.
  - intros c Hc. rewrite Z.shiftr_spec, Z.land_spec by lia.
    rewrite (u32_high_bits m) by (assumption || lia). apply andb_false_r.
Qed.

Lemma rotl32_u32 (x k : Z) : is_u32 x -> 0 <= k <= 32 -> is_u32 (rotl32 x k).
Proof.
  intros Hx Hk. unfold rotl32. apply lor_u32; [apply u32_is_u32|].
  apply u32_of_bits.
  - apply Z.shiftr_nonneg. unfold is_u32 in Hx. lia.
  - intros c Hc. rewrite Z.shiftr_spec by lia. apply u32_high_bits; [exact Hx | lia].
Qed.

Lemma land_ff (x : Z) : Z.land x 0xFF = x mod 2 ^ 8.
Proof. change 0xFF with (Z.ones 8). apply Z.land_ones. lia. Qed.

(** * ZUC.c *)

Module ZUC.

(** calculate a+b mod 2^31-1 *)
Definition AddMod (a b : Z) : Z :=
  let c := u32 (a + b) in
  if Z.shiftr c 31 =? 0 then c else u32 (Z.land c 0x7fffffff + 1).

(** calculate x*2^k mod 2^31-1 *)
Definition PowMod (x k : Z) : Z :=
  Z.land (Z.lor (u32 (Z.shiftl x k)) (Z.shiftr x (31 - k))) 0x7fffffff.

Definition L1 (X : Z) : Z :=
  Z.lxor (Z.lxor (Z.lxor (Z.lxor X (rotl32 X 2)) (rotl32 X 10)) (rotl32 X 18))
         (rotl32 X 24).

Definition L2 (X : Z) : Z :=
  Z.lxor (Z.lxor (Z.lxor (Z.lxor X (rotl32 X 8)) (rotl32 X 14)) (rotl32 X 22))
         (rotl32 X 30).

(** test if the value of M at the position i equals 0 *)
Definition BitValue (M : list Z) (i : Z) : Z :=
  let j := Z.shiftr i 5 in
  let k := Z.land i 0x1f in
  if Z.land (M !!! Z.to_nat j) (Z.shiftl 1 (31 - k)) =? 0 then 0 else 1.

(** get a 32bit word ki from the bit string k[i],k[i+1],...; the reads of
    [k] are bounds-checked: [None] is a read outside the array. *)
Definition GetWord (k : list Z) (i : Z) : option Z :=
  let j := Z.shiftr i 5 in
  let m := Z.land i 0x1f in
  if m =? 0 then k !! Z.to_nat j
  else
    kj ← k !! Z.to_nat j;
    kj1 ← k !! Z.to_nat (j + 1);
    Some (Z.lor (u32 (Z.shiftl kj m)) (Z.shiftr kj1 (32 - m))).

(** The five [AddMod] lines that open both LFSR modes. *)
Definition LFSR_v (LFSR_S : list Z) : Z :=
  let v := LFSR_S !!! 0%nat in
  let v := AddMod v (PowMod (LFSR_S !!! 15%nat) 15) in
  let v := AddMod v (PowMod (LFSR_S !!! 13%nat) 17) in
  let v := AddMod v (PowMod (LFSR_S !!! 10%nat) 21) in
  let v := AddMod v (PowMod (LFSR_S !!! 4%nat) 20) in
  AddMod v (PowMod (LFSR_S !!! 0%nat) 8).

(** for (i = 0; i < 15; i++) LFSR_S[i] = LFSR_S[i + 1]; *)
Definition LFSR_shift (LFSR_S : list Z) : list Z :=
  foldl (fun S i => <[i := S !!! (i + 1)%nat]> S) LFSR_S (seq 0 15).

Definition LFSR_fix15 (LFSR_S : list Z) : list Z :=
  if LFSR_S !!! 15%nat =? 0 then <[15%nat := 0x7fffffff]> LFSR_S else LFSR_S.

(** Initialisation mode, refresh the current state of LFSR *)
Definition LFSRWithInitMode (LFSR_S : list Z) (u : Z) : list Z :=
  let v := LFSR_v LFSR_S in
  let S := LFSR_shift LFSR_S in
  let S := <[15%nat := AddMod v u]> S in
  LFSR_fix15 S.

(** working mode, refresh the current state of LFSR *)
Definition LFSRWithWorkMode (LFSR_S : list Z) : list Z :=
  let v := LFSR_v LFSR_S in
  let S := LFSR_shift LFSR_S in
  let S := <[15%nat := v]> S in
  LFSR_fix15 S.

(** Bit Reconstruction *)
Definition BR (LFSR_S : list Z) : list Z :=
  let s i := LFSR_S !!! i in
  [ Z.lor (u32 (Z.shiftl (Z.land (s 15%nat) 0x7fff8000) 1))
          (Z.land (s 14%nat) 0x0000ffff);
    Z.lor (u32 (Z.shiftl (Z.land (s 11%nat) 0x0000ffff) 16))
          (Z.shiftr (Z.land (s 9%nat) 0x7fff8000) 15);
    Z.lor (u32 (Z.shiftl (Z.land (s 7%nat) 0x0000ffff) 16))
          (Z.shiftr (Z.land (s 5%nat) 0x7fff8000) 15);
    Z.lor (u32 (Z.shiftl (Z.land (s 2%nat) 0x0000ffff) 16))
          (Z.shiftr (Z.land (s 0%nat) 0x7fff8000) 15) ].

Section Tables.

(** The tables of ZUC.h: the two S-boxes ([unsigned char [256]]) and the
    constants d ([unsigned int [16]]). *)
Variables ZUC_S0 ZUC_S1 ZUC_d : list Z.

(** Modelled from the spec: the macro [ZUC_LinkToS] of ZUC.h, which forms a
    cell as (k_i || d_i || iv_i), 8 + 15 + 8 bits. *)
Definition ZUC_LinkToS (a b c : Z) : Z :=
  Z.lor (Z.lor (u32 (Z.shiftl a 23)) (u32 (Z.shiftl b 8))) c.

(** The S-box layer of [F]: S0, S1, S0, S1 on the four bytes, high to low. *)
Definition Sbox32 (x : Z) : Z :=
  let b n := Z.to_nat (Z.land (Z.shiftr x n) 0xFF) in
  u32 (Z.lor (Z.lor (Z.lor (Z.shiftl (ZUC_S0 !!! b 24) 24)
                           (Z.shiftl (ZUC_S1 !!! b 16) 16))
                    (Z.shiftl (ZUC_S0 !!! b 8) 8))
             (ZUC_S1 !!! b 0)).

(** nonlinear function: returns W and the new F_R *)
Definition F (BR_X F_R : list Z) : Z * list Z :=
  let W := u32 (Z.lxor (BR_X !!! 0%nat) (F_R !!! 0%nat) + F_R !!! 1%nat) in
  let W1 := u32 (F_R !!! 0%nat + BR_X !!! 1%nat) in
  let W2 := Z.lxor (F_R !!! 1%nat) (BR_X !!! 2%nat) in
  let R1 := L1 (Z.lor (u32 (Z.shiftl W1 16)) (Z.shiftr W2 16)) in
  let R1 := Sbox32 R1 in
  let R2 := L2 (Z.lor (u32 (Z.shiftl W2 16)) (Z.shiftr W1 16)) in
  let R2 := Sbox32 R2 in
  (W, [R1; R2]).

(** One pass of the [while (count)] loop of [ZUC_Init]. *)
Definition ZUC_Init_round (st : list Z * list Z * list Z)
  : list Z * list Z * list Z :=
  let '(LFSR_S, _, F_R) := st in
  let BR_X := BR LFSR_S in
  let '(W, F_R) := F BR_X F_R in
  (LFSRWithInitMode LFSR_S (Z.shiftr W 1), BR_X, F_R).

(** Initialisation process of ZUC: the state (LFSR_S, BR_X, F_R) after it.
    [BR_X0] is what the caller's BR_X array holds on entry. *)
Definition ZUC_Init (k iv BR_X0 : list Z) : list Z * list Z * list Z :=
  let LFSR_S :=
    map (fun i => ZUC_LinkToS (k !!! i) (ZUC_d !!! i) (iv !!! i)) (seq 0 16) in
  Nat.iter 32 ZUC_Init_round (LFSR_S, BR_X0, [0; 0]).

(** The [while (i < KeyStreamLen)] loop of [ZUC_Work]; the words emitted. *)
Fixpoint ZUC_Work_loop (n : nat) (LFSR_S F_R : list Z) : list Z :=
  match n with
  | O => []
  | S n' =>
      let BR_X := BR LFSR_S in
      let '(W, F_R) := F BR_X F_R in
      Z.lxor W (BR_X !!! 3%nat)
        :: ZUC_Work_loop n' (LFSRWithWorkMode LFSR_S) F_R
  end.

(** working stage of ZUC: the [KeyStreamLen] words written to pKeyStream *)
Definition ZUC_Work (LFSR_S F_R : list Z) (KeyStreamLen : Z) : list Z :=
  let BR_X := BR LFSR_S in
  let '(_, F_R) := F BR_X F_R in
  let LFSR_S := LFSRWithWorkMode LFSR_S in
  ZUC_Work_loop (Z.to_nat KeyStreamLen) LFSR_S F_R.

(** generate key stream *)
Definition ZUC_GenKeyStream (k iv : list Z) (KeyStreamLen : Z) : list Z :=
  let '(LFSR_S, _, F_R) := ZUC_Init k iv [0; 0; 0; 0] in
  ZUC_Work LFSR_S F_R KeyStreamLen.

(** for (i = 0; i < L; i++) OBS[i] = IBS[i] ^ k[i]; *)
Definition xor_words (IBS k : list Z) (L : Z) (OBS : list Z) : list Z :=
  foldl (fun OBS i => <[i := Z.lxor (IBS !!! i) (k !!! i)]> OBS) OBS
        (seq 0 (Z.to_nat L)).

(** generate vector iv1,iv2,...iv15: the opening block of
    [ZUC_Confidentiality]. *)
Definition Confidentiality_iv (COUNT BEARER DIRECTION : Z) : list Z :=
  let iv0 := u8 (Z.shiftr COUNT 24) in
  let iv1 := u8 (Z.land (Z.shiftr COUNT 16) 0xff) in
  let iv2 := u8 (Z.land (Z.shiftr COUNT 8) 0xff) in
  let iv3 := u8 (Z.land COUNT 0xff) in
  let iv4 := u8 (Z.land (Z.lor (Z.shiftl BEARER 3) (Z.shiftl DIRECTION 2)) 0xfc) in
  [iv0; iv1; iv2; iv3; iv4; 0; 0; 0; iv0; iv1; iv2; iv3; iv4; 0; 0; 0].

(** the ZUC-based confidentiality algorithm; [OBS] is the caller's output
    array on entry, the result is that array on return. *)
Definition ZUC_Confidentiality (CK : list Z) (COUNT BEARER DIRECTION : Z)
    (IBS : list Z) (LENGTH : Z) (OBS : list Z) : list Z :=
  let iv := Confidentiality_iv COUNT BEARER DIRECTION in
  let L := Z.quot (LENGTH + 31) 32 in
  let k := ZUC_GenKeyStream CK iv L in
  let OBS := xor_words IBS k L OBS in
  let t := Z.rem LENGTH 32 in
  if t =? 0 then OBS
  else
    let last := Z.to_nat (L - 1) in
    <[last := u32 (Z.shiftl (Z.shiftr (OBS !!! last) (32 - t)) (32 - t))]> OBS.

(** The [for (i = 0; i < LENGTH; i++)] loop of [ZUC_Integrity], from bit
    position [i] on for [n] positions, accumulating into [T]. *)
Fixpoint Integrity_loop (M k : list Z) (n : nat) (i : Z) (T : Z) : option Z :=
  match n with
  | O => Some T
  | S n' =>
      if BitValue M i =? 0 then Integrity_loop M k n' (i + 1) T
      else
        ki ← GetWord k i;
        Integrity_loop M k n' (i + 1) (Z.lxor T ki)
  end.

(** generate vector iv1,iv2,...iv15: the opening block of [ZUC_Integrity]. *)
Definition Integrity_iv (COUNT BEARER DIRECTION : Z) : list Z :=
  let iv0 := u8 (Z.shiftr COUNT 24) in
  let iv1 := u8 (Z.land (Z.shiftr COUNT 16) 0xff) in
  let iv2 := u8 (Z.land (Z.shiftr COUNT 8) 0xff) in
  let iv3 := u8 (Z.land COUNT 0xff) in
  let iv4 := u8 (Z.shiftl BEARER 3) in
  let iv8 := u8 (Z.lxor iv0 (Z.shiftl DIRECTION 7)) in
  let iv14 := u8 (Z.lxor 0 (Z.shiftl DIRECTION 7)) in
  [iv0; iv1; iv2; iv3; iv4; 0; 0; 0; iv8; iv1; iv2; iv3; iv4; 0; iv14; 0].

(** the ZUC-based integrity algorithm; [None] is a read outside the
    keystream array [k] of [L] words. *)
Definition ZUC_Integrity (IK : list Z) (COUNT BEARER DIRECTION : Z)
    (M : list Z) (LENGTH : Z) : option Z :=
  let iv := Integrity_iv COUNT BEARER DIRECTION in
  let L := Z.quot (LENGTH + 31) 32 + 2 in
  let k := ZUC_GenKeyStream IK iv L in
  T ← Integrity_loop M k (Z.to_nat LENGTH) 0 0;
  ki ← GetWord k LENGTH;
  let T := Z.lxor T ki in
  ki ← GetWord k (32 * (L - 1));
  Some (Z.lxor T ki).

End Tables.

End ZUC.

(** ** The tables of ZUC.h *)

Module ZUC_h.

(** Modelled from the spec: the S-box [ZUC_S0] of ZUC.h, a header that is not
    among the sources; the spec refers to the tables of the ZUC standard,
    whose values these are (a permutation of the bytes, see [S0_perm]). *)
Definition ZUC_S0 : list Z :=
  [
   0x3e; 0x72; 0x5b; 0x47; 0xca; 0xe0; 0x00; 0x33; 0x04; 0xd1; 0x54; 0x98; 0x09; 0xb9; 0x6d; 0xcb;
   0x7b; 0x1b; 0xf9; 0x32; 0xaf; 0x9d; 0x6a; 0xa5; 0xb8; 0x2d; 0xfc; 0x1d; 0x08; 0x53; 0x03; 0x90;
   0x4d; 0x4e; 0x84; 0x99; 0xe4; 0xce; 0xd9; 0x91; 0xdd; 0xb6; 0x85; 0x48; 0x8b; 0x29; 0x6e; 0xac;
   0xcd; 0xc1; 0xf8; 0x1e; 0x73; 0x43; 0x69; 0xc6; 0xb5; 0xbd; 0xfd; 0x39; 0x63; 0x20; 0xd4; 0x38;
   0x76; 0x7d; 0xb2; 0xa7; 0xcf; 0xed; 0x57; 0xc5; 0xf3; 0x2c; 0xbb; 0x14; 0x21; 0x06; 0x55; 0x9b;
   0xe3; 0xef; 0x5e; 0x31; 0x4f; 0x7f; 0x5a; 0xa4; 0x0d; 0x82; 0x51; 0x49; 0x5f; 0xba; 0x58; 0x1c;
   0x4a; 0x16; 0xd5; 0x17; 0xa8; 0x92; 0x24; 0x1f; 0x8c; 0xff; 0xd8; 0xae; 0x2e; 0x01; 0xd3; 0xad;
   0x3b; 0x4b; 0xda; 0x46; 0xeb; 0xc9; 0xde; 0x9a; 0x8f; 0x87; 0xd7; 0x3a; 0x80; 0x6f; 0x2f; 0xc8;
   0xb1; 0xb4; 0x37; 0xf7; 0x0a; 0x22; 0x13; 0x28; 0x7c; 0xcc; 0x3c; 0x89; 0xc7; 0xc3; 0x96; 0x56;
   0x07; 0xbf; 0x7e; 0xf0; 0x0b; 0x2b; 0x97; 0x52; 0x35; 0x41; 0x79; 0x61; 0xa6; 0x4c; 0x10; 0xfe;
   0xbc; 0x26; 0x95; 0x88; 0x8a; 0xb0; 0xa3; 0xfb; 0xc0; 0x18; 0x94; 0xf2; 0xe1; 0xe5; 0xe9; 0x5d;
   0xd0; 0xdc; 0x11; 0x66; 0x64; 0x5c; 0xec; 0x59; 0x42; 0x75; 0x12; 0xf5; 0x74; 0x9c; 0xaa; 0x23;
   0x0e; 0x86; 0xab; 0xbe; 0x2a; 0x02; 0xe7; 0x67; 0xe6; 0x44; 0xa2; 0x6c; 0xc2; 0x93; 0x9f; 0xf1;
   0xf6; 0xfa; 0x36; 0xd2; 0x50; 0x68; 0x9e; 0x62; 0x71; 0x15; 0x3d; 0xd6; 0x40; 0xc4; 0xe2; 0x0f;
   0x8e; 0x83; 0x77; 0x6b; 0x25; 0x05; 0x3f; 0x0c; 0x30; 0xea; 0x70; 0xb7; 0xa1; 0xe8; 0xa9; 0x65;
   0x8d; 0x27; 0x1a; 0xdb; 0x81; 0xb3; 0xa0; 0xf4; 0x45; 0x7a; 0x19; 0xdf; 0xee; 0x78; 0x34; 0x60 ].

(** Modelled from the spec: the S-box [ZUC_S1] of ZUC.h, as [ZUC_S0]. *)
Definition ZUC_S1 : list Z :=
  [
   0x55; 0xc2; 0x63; 0x71; 0x3b; 0xc8; 0x47; 0x86; 0x9f; 0x3c; 0xda; 0x5b; 0x29; 0xaa; 0xfd; 0x77;
   0x8c; 0xc5; 0x94; 0x0c; 0xa6; 0x1a; 0x13; 0x00; 0xe3; 0xa8; 0x16; 0x72; 0x40; 0xf9; 0xf8; 0x42;
   0x44; 0x26; 0x68; 0x96; 0x81; 0xd9; 0x45; 0x3e; 0x10; 0x76; 0xc6; 0xa7; 0x8b; 0x39; 0x43; 0xe1;
   0x3a; 0xb5; 0x56; 0x2a; 0xc0; 0x6d; 0xb3; 0x05; 0x22; 0x66; 0xbf; 0xdc; 0x0b; 0xfa; 0x62; 0x48;
   0xdd; 0x20; 0x11; 0x06; 0x36; 0xc9; 0xc1; 0xcf; 0xf6; 0x27; 0x52; 0xbb; 0x69; 0xf5; 0xd4; 0x87;
   0x7f; 0x84; 0x4c; 0xd2; 0x9c; 0x57; 0xa4; 0xbc; 0x4f; 0x9a; 0xdf; 0xfe; 0xd6; 0x8d; 0x7a; 0xeb;
   0x2b; 0x53; 0xd8; 0x5c; 0xa1; 0x14; 0x17; 0xfb; 0x23; 0xd5; 0x7d; 0x30; 0x67; 0x73; 0x08; 0x09;
   0xee; 0xb7; 0x70; 0x3f; 0x61; 0xb2; 0x19; 0x8e; 0x4e; 0xe5; 0x4b; 0x93; 0x8f; 0x5d; 0xdb; 0xa9;
   0xad; 0xf1; 0xae; 0x2e; 0xcb; 0x0d; 0xfc; 0xf4; 0x2d; 0x46; 0x6e; 0x1d; 0x97; 0xe8; 0xd1; 0xe9;
   0x4d; 0x37; 0xa5; 0x75; 0x5e; 0x83; 0x9e; 0xab; 0x82; 0x9d; 0xb9; 0x1c; 0xe0; 0xcd; 0x49; 0x89;
   0x01; 0xb6; 0xbd; 0x58; 0x24; 0xa2; 0x5f; 0x38; 0x78; 0x99; 0x15; 0x90; 0x50; 0xb8; 0x95; 0xe4;
   0xd0; 0x91; 0xc7; 0xce; 0xed; 0x0f; 0xb4; 0x6f; 0xa0; 0xcc; 0xf0; 0x02; 0x4a; 0x79; 0xc3; 0xde;
   0xa3; 0xef; 0xea; 0x51; 0xe6; 0x6b; 0x18; 0xec; 0x1b; 0x2c; 0x80; 0xf7; 0x74; 0xe7; 0xff; 0x21;
   0x5a; 0x6a; 0x54; 0x1e; 0x41; 0x31; 0x92; 0x35; 0xc4; 0x33; 0x07; 0x0a; 0xba; 0x7e; 0x0e; 0x34;
   0x88; 0xb1; 0x98; 0x7c; 0xf3; 0x3d; 0x60; 0x6c; 0x7b; 0xca; 0xd3; 0x1f; 0x32; 0x65; 0x04; 0x28;
   0x64; 0xbe; 0x85; 0x9b; 0x2f; 0x59; 0x8a; 0xd7; 0xb0; 0x25; 0xac; 0xaf; 0x12; 0x03; 0xe2; 0xf2 ].

(** Modelled from the spec: the sixteen 15-bit constants d_i of ZUC.h. *)
Definition ZUC_d : list Z :=
  [
   0x44d7; 0x26bc; 0x626b; 0x135e; 0x5789; 0x35e2; 0x7135; 0x09af;
   0x4d78; 0x2f13; 0x6bc4; 0x1af1; 0x5e26; 0x3c4d; 0x789a; 0x47ac ].

Example S0_perm :
  forallb (fun b => existsb (Z.eqb b) ZUC_S0) (map Z.of_nat (seq 0 256)) = true.
Proof. vm_compute. reflexivity. Qed.

Example S1_perm :
  forallb (fun b => existsb (Z.eqb b) ZUC_S1) (map Z.of_nat (seq 0 256)) = true.
Proof. vm_compute. reflexivity. Qed.

End ZUC_h.

(** ** The vectors of [ZUC_SelfCheck] *)

Module ZUC_SelfCheck.
Import ZUC ZUC_h.

Example keystream_all_0 :
  ZUC_GenKeyStream ZUC_S0 ZUC_S1 ZUC_d (replicate 16 0) (replicate 16 0) 2
    = [0x27bede74; 0x018082da].
Proof. vm_compute. reflexivity. Qed.

Example keystream_all_1 :
  ZUC_GenKeyStream ZUC_S0 ZUC_S1 ZUC_d (replicate 16 0xff) (replicate 16 0xff) 2
    = [0x0657cfa0; 0x7096398b].
Proof. vm_compute. reflexivity. Qed.

Definition key : list Z :=
  [0x17; 0x3d; 0x14; 0xba; 0x50; 0x03; 0x73; 0x1d;
   0x7a; 0x60; 0x04; 0x94; 0x70; 0xf0; 0x0a; 0x29].
Definition plain : list Z :=
  [0x6cf65340; 0x735552ab; 0x0c9752fa; 0x6f9025fe; 0x0bd675d9; 0x005875b2;
   0x00000000].
Definition Std_cipher : list Z :=
  [0xa6c85fc6; 0x6afb8533; 0xaafc2518; 0xdfe78494; 0x0ee1e4b0; 0x30238cc8;
   0x00000000].

Example confidentiality_vector :
  ZUC_Confidentiality ZUC_S0 ZUC_S1 ZUC_d key 0x66035492 0x0f 0x00 plain 0xc1
    (replicate 7 0) = Std_cipher.
Proof. vm_compute. reflexivity. Qed.

Example integrity_vector :
  ZUC_Integrity ZUC_S0 ZUC_S1 ZUC_d (replicate 16 0) 0 0 0 [0] 1
    = Some 0xc8a9595e.
Proof. vm_compute. reflexivity. Qed.

End ZUC_SelfCheck.

(** ** Properties of the LFSR *)

Module ZUC_LFSR.
Import ZUC.

(** The cells of an LFSR state: sixteen values in [[1, 2^31 - 1]]. *)
Definition cell_ok (s : Z) : Prop := 1 <= s <= 2 ^ 31 - 1.
Definition LFSR_inv (LFSR_S : list Z) : Prop :=
  length LFSR_S = 16%nat /\ Forall cell_ok LFSR_S.

Lemma land_7fffffff (c : Z) : Z.land c 0x7fffffff = c mod 2 ^ 31.
Proof. change 0x7fffffff with (Z.ones 31). apply Z.land_ones. lia. Qed.

Lemma AddMod_cases (a b : Z) :
  0 <= a < 2 ^ 31 -> 0 <= b < 2 ^ 31 ->
  AddMod a b = if a + b <? 2 ^ 31 then a + b else a + b - (2 ^ 31 - 1).
Proof.
  intros Ha Hb. unfold AddMod, u32.
  rewrite (Z.mod_small (a + b)) by lia.
  rewrite Z.shiftr_div_pow2 by lia. rewrite land_7fffffff.
  destruct (Z.ltb_spec (a + b) (2 ^ 31)) as [Hlt | Hge].
  - rewrite Z.div_small by lia. reflexivity.
  - assert (Hq : (a + b) / 2 ^ 31 = 1).
    { symmetry. apply (Z.div_unique (a + b) (2 ^ 31) 1 (a + b - 2 ^ 31)); lia. }
    rewrite Hq. simpl (1 =? 0).
    assert (Hr : (a + b) mod 2 ^ 31 = a + b - 2 ^ 31).
    { symmetry. apply (Z.mod_unique (a + b) (2 ^ 31) 1); lia. }
    rewrite Hr. rewrite Z.mod_small by lia. lia.
Qed.

Lemma AddMod_range (a b : Z) :
  0 <= a < 2 ^ 31 -> 0 <= b < 2 ^ 31 -> 0 <= AddMod a b < 2 ^ 31.
Proof.
  intros Ha Hb. rewrite AddMod_cases by assumption.
  destruct (Z.ltb_spec (a + b) (2 ^ 31)); lia.
Qed.

Lemma AddMod_pos (a b : Z) :
  1 <= a < 2 ^ 31 -> 0 <= b < 2 ^ 31 -> 1 <= AddMod a b.
Proof.
  intros Ha Hb. rewrite AddMod_cases by lia.
  destruct (Z.ltb_spec (a + b) (2 ^ 31)); lia.
Qed.

(** [AddMod] is addition modulo 2^31 - 1. *)
Lemma AddMod_mod (a b : Z) :
  0 <= a < 2 ^ 31 -> 0 <= b < 2 ^ 31 ->
  AddMod a b mod (2 ^ 31 - 1) = (a + b) mod (2 ^ 31 - 1).
Proof.
  intros Ha Hb. rewrite AddMod_cases by assumption.
  destruct (Z.ltb_spec (a + b) (2 ^ 31)); [reflexivity|].
  replace (a + b - (2 ^ 31 - 1)) with (a + b + (-1) * (2 ^ 31 - 1)) by lia.
  apply Z.mod_add. lia.
Qed.

Lemma PowMod_range (x k : Z) : 0 <= PowMod x k < 2 ^ 31.
Proof.
  unfold PowMod. rewrite land_7fffffff. apply Z.mod_pos_bound. lia.
Qed.

(** [PowMod x k] is the 31-bit rotation of [x], that is x * 2^k modulo
    2^31 - 1. *)
Lemma PowMod_mod (x k : Z) :
  0 <= x < 2 ^ 31 -> 0 < k < 31 ->
  PowMod x k mod (2 ^ 31 - 1) = (x * 2 ^ k) mod (2 ^ 31 - 1).
Proof.
  intros Hx Hk. unfold PowMod, u32.
  rewrite land_7fffffff, Z.shiftl_mul_pow2, Z.shiftr_div_pow2 by lia.
  set (hi := x / 2 ^ (31 - k)). set (lo := x mod 2 ^ (31 - k)).
  assert (Hp : 0 < 2 ^ (31 - k)) by (apply Z.pow_pos_nonneg; lia).
  assert (Hpk : 0 < 2 ^ k) by (apply Z.pow_pos_nonneg; lia).
  assert (Hsplit : 2 ^ 31 = 2 ^ (31 - k) * 2 ^ k).
  { rewrite <- Z.pow_add_r by lia. f_equal. lia. }
  assert (Hx' : x = 2 ^ (31 - k) * hi + lo) by apply Z.div_mod, Z.neq_sym, Z.lt_neq, Hp.
  assert (Hlo : 0 <= lo < 2 ^ (31 - k)) by (apply Z.mod_pos_bound; exact Hp).
  assert (Hhi : 0 <= hi < 2 ^ k).
  { split; [apply Z.div_pos; lia|]. apply Z.div_lt_upper_bound; lia. }
  assert (Hland : Z.land ((x * 2 ^ k) mod 2 ^ 32) hi = 0).
  { apply Z.bits_inj'. intros i Hi. rewrite Z.land_spec, Z.bits_0.
    destruct (Z.ltb_spec i k).
    - rewrite Z.mod_pow2_bits_low by lia.
      rewrite Z.mul_pow2_bits_low by lia. reflexivity.
    - rewrite (Z.bits_above_log2 hi i); [apply andb_false_r | lia |].
      destruct (Z.eq_dec hi 0) as [-> | Hne]; [simpl; lia|].
      apply Z.lt_le_trans with k; [|lia]. apply Z.log2_lt_pow2; lia. }
  assert (Hlor : Z.lor ((x * 2 ^ k) mod 2 ^ 32) hi = (x * 2 ^ k) mod 2 ^ 32 + hi).
  { rewrite <- Z.lxor_lor by exact Hland. symmetry.
    apply Z.add_nocarry_lxor, Hland. }
  rewrite Hlor.
  assert (Hmul : x * 2 ^ k = hi * 2 ^ 31 + lo * 2 ^ k) by (rewrite Hsplit; nia).
  assert (Hlk : 0 <= lo * 2 ^ k < 2 ^ 31) by (rewrite Hsplit; nia).
  assert (Hm32 : (x * 2 ^ k) mod 2 ^ 32 mod 2 ^ 31 = lo * 2 ^ k).
  { rewrite Z.mod_mod_divide by (exists 2; reflexivity).
    rewrite Hmul, Z.add_comm, Z.mod_add by lia. apply Z.mod_small; lia. }
  assert (Hres : ((x * 2 ^ k) mod 2 ^ 32 + hi) mod 2 ^ 31 = lo * 2 ^ k + hi).
  { rewrite <- Z.add_mod_idemp_l by lia. rewrite Hm32.
    apply Z.mod_small. split; [lia|].
    assert (lo * 2 ^ k <= (2 ^ (31 - k) - 1) * 2 ^ k) by nia.
    rewrite Hsplit. nia. }
  rewrite Hres, Hmul.
  replace (hi * 2 ^ 31 + lo * 2 ^ k)
    with (lo * 2 ^ k + hi + hi * (2 ^ 31 - 1)) by lia.
  symmetry. apply Z.mod_add. lia.
Qed.

Lemma AddMod_PowMod_mod (acc x k : Z) :
  0 <= acc < 2 ^ 31 -> 0 <= x < 2 ^ 31 -> 0 < k < 31 ->
  AddMod acc (PowMod x k) mod (2 ^ 31 - 1) = (acc + x * 2 ^ k) mod (2 ^ 31 - 1).
Proof.
  intros Ha Hx Hk. rewrite AddMod_mod by (try apply PowMod_range; lia).
  rewrite <- Z.add_mod_idemp_r by lia. rewrite PowMod_mod by lia.
  apply Z.add_mod_idemp_r. lia.
Qed.

Lemma mod_step (a a' c : Z) :
  a mod (2 ^ 31 - 1) = a' mod (2 ^ 31 - 1) ->
  (a + c) mod (2 ^ 31 - 1) = (a' + c) mod (2 ^ 31 - 1).
Proof.
  intros H. rewrite <- (Z.add_mod_idemp_l a) by lia. rewrite H.
  apply Z.add_mod_idemp_l. lia.
Qed.

(** The shift loop followed by the store to cell 15, on a sixteen-cell state. *)
Lemma shift_then_store (LFSR_S : list Z) (x : Z) :
  length LFSR_S = 16%nat ->
  <[15%nat := x]> (LFSR_shift LFSR_S) = drop 1 LFSR_S ++ [x].
Proof.
  intros Hlen.
  do 17 (destruct LFSR_S as [|? LFSR_S]; try discriminate Hlen).
  reflexivity.
Qed.

Lemma fix15_snoc (l : list Z) (x : Z) :
  length l = 15%nat ->
  LFSR_fix15 (l ++ [x]) = l ++ [if x =? 0 then 0x7fffffff else x].
Proof.
  intros Hlen. unfold LFSR_fix15.
  do 16 (destruct l as [|? l]; try discriminate Hlen).
  cbn. destruct (x =? 0); reflexivity.
Qed.

(** The feedback value, over the integers modulo 2^31 - 1. *)
Lemma LFSR_v_mod (LFSR_S : list Z) :
  length LFSR_S = 16%nat -> Forall cell_ok LFSR_S ->
  let s i := LFSR_S !!! i in
  0 < LFSR_v LFSR_S < 2 ^ 31 /\
  LFSR_v LFSR_S mod (2 ^ 31 - 1) =
    (s 0%nat + s 15%nat * 2 ^ 15 + s 13%nat * 2 ^ 17 + s 10%nat * 2 ^ 21
     + s 4%nat * 2 ^ 20 + s 0%nat * 2 ^ 8) mod (2 ^ 31 - 1).
Proof.
  intros Hlen Hall s.
  assert (Hs : forall i, (i < 16)%nat -> 1 <= s i < 2 ^ 31).
  { intros i Hi. unfold s.
    assert (Hin : cell_ok (LFSR_S !!! i)).
    { eapply Forall_lookup_1; [exact Hall|].
      apply list_lookup_lookup_total_lt. lia. }
    unfold cell_ok in Hin. lia. }
  unfold LFSR_v. fold (s 0%nat) (s 15%nat) (s 13%nat) (s 10%nat) (s 4%nat).
  pose proof (Hs 0%nat ltac:(lia)) as H0. pose proof (Hs 15%nat ltac:(lia)) as H15.
  pose proof (Hs 13%nat ltac:(lia)) as H13. pose proof (Hs 10%nat ltac:(lia)) as H10.
  pose proof (Hs 4%nat ltac:(lia)) as H4.
  set (v1 := AddMod (s 0%nat) (PowMod (s 15%nat) 15)).
  set (v2 := AddMod v1 (PowMod (s 13%nat) 17)).
  set (v3 := AddMod v2 (PowMod (s 10%nat) 21)).
  set (v4 := AddMod v3 (PowMod (s 4%nat) 20)).
  assert (R1 : 1 <= v1 < 2 ^ 31).
  { split; [apply AddMod_pos | apply AddMod_range]; try apply PowMod_range; lia. }
  assert (R2 : 1 <= v2 < 2 ^ 31).
  { split; [apply AddMod_pos | apply AddMod_range]; try apply PowMod_range; lia. }
  assert (R3 : 1 <= v3 < 2 ^ 31).
  { split; [apply AddMod_pos | apply AddMod_range]; try apply PowMod_range; lia. }
  assert (R4 : 1 <= v4 < 2 ^ 31).
  { split; [apply AddMod_pos | apply AddMod_range]; try apply PowMod_range; lia. }
  split.
  - split; [apply Z.lt_le_trans with 1; [lia|apply AddMod_pos] | apply AddMod_range];
      try apply PowMod_range; lia.
  - rewrite AddMod_PowMod_mod by lia. apply mod_step.
    unfold v4. rewrite AddMod_PowMod_mod by lia. apply mod_step.
    unfold v3. rewrite AddMod_PowMod_mod by lia. apply mod_step.
    unfold v2. rewrite AddMod_PowMod_mod by lia. apply mod_step.
    unfold v1. rewrite AddMod_PowMod_mod by lia. reflexivity.
Qed.

(** C7. Every LFSR step keeps the sixteen cells in [[1, 2^31 - 1]], in the
    initialisation mode (with the 31-bit injection word u = W >> 1 that the
    header of [LFSRWithInitMode] and its caller [ZUC_Init] give it) and in
    the working mode: the cells move down by one, the feedback value v is the
    sum s0 + 2^15 s15 + 2^17 s13 + 2^21 s10 + 2^20 s4 + 2^8 s0 taken modulo
    2^31 - 1, the new cell 15 is v + u (resp. v) modulo 2^31 - 1, and a new
    cell 15 that is zero is stored as 2^31 - 1. *)
Theorem LFSR_step_keeps_cells_in_range (LFSR_S : list Z) (u : Z) :
  length LFSR_S = 16%nat -> 0 <= u < 2 ^ 31 ->
  let v := LFSR_v LFSR_S in
  let s i := LFSR_S !!! i in
  LFSRWithInitMode LFSR_S u
    = drop 1 LFSR_S ++ [if AddMod v u =? 0 then 2 ^ 31 - 1 else AddMod v u] /\
  LFSRWithWorkMode LFSR_S
    = drop 1 LFSR_S ++ [if v =? 0 then 2 ^ 31 - 1 else v] /\
  (Forall cell_ok LFSR_S ->
     v mod (2 ^ 31 - 1) =
       (s 0%nat + s 15%nat * 2 ^ 15 + s 13%nat * 2 ^ 17 + s 10%nat * 2 ^ 21
        + s 4%nat * 2 ^ 20 + s 0%nat * 2 ^ 8) mod (2 ^ 31 - 1) /\
     AddMod v u mod (2 ^ 31 - 1) = (v + u) mod (2 ^ 31 - 1) /\
     LFSR_inv (LFSRWithInitMode LFSR_S u) /\
     LFSR_inv (LFSRWithWorkMode LFSR_S)).
Proof.
  intros Hlen Hu v s.
  assert (Hdrop : length (drop 1 LFSR_S) = 15%nat) by (rewrite length_drop; lia).
  assert (Hinit : LFSRWithInitMode LFSR_S u
    = drop 1 LFSR_S ++ [if AddMod v u =? 0 then 2 ^ 31 - 1 else AddMod v u]).
  { unfold LFSRWithInitMode. fold v. rewrite shift_then_store by exact Hlen.
    apply fix15_snoc, Hdrop. }
  assert (Hwork : LFSRWithWorkMode LFSR_S
    = drop 1 LFSR_S ++ [if v =? 0 then 2 ^ 31 - 1 else v]).
  { unfold LFSRWithWorkMode. fold v. rewrite shift_then_store by exact Hlen.
    apply fix15_snoc, Hdrop. }
  split; [exact Hinit|]. split; [exact Hwork|].
  intros Hall. destruct (LFSR_v_mod LFSR_S Hlen Hall) as [Hv Hvmod]. fold v in Hv.
  split; [exact Hvmod|].
  assert (Hau : 1 <= AddMod v u < 2 ^ 31).
  { split; [apply AddMod_pos | apply AddMod_range]; lia. }
  split; [apply AddMod_mod; lia|].
  assert (Htail : Forall cell_ok (drop 1 LFSR_S)) by (apply Forall_drop, Hall).
  split.
  - rewrite Hinit. split; [rewrite length_app, Hdrop; reflexivity|].
    apply Forall_app. split; [exact Htail|]. constructor; [|constructor].
    destruct (Z.eqb_spec (AddMod v u) 0); unfold cell_ok; lia.
  - rewrite Hwork. split; [rewrite length_app, Hdrop; reflexivity|].
    apply Forall_app. split; [exact Htail|]. constructor; [|constructor].
    destruct (Z.eqb_spec v 0); unfold cell_ok; lia.
Qed.

(** The theorem at the all-ones state with u = 5. *)
Lemma LFSR_step_keeps_cells_in_range_witness :
  LFSR_inv (LFSRWithInitMode (replicate 16 1) 5) /\
  LFSR_inv (LFSRWithWorkMode (replicate 16 1)).
Proof.
  pose proof (LFSR_step_keeps_cells_in_range (replicate 16 1) 5
                eq_refl ltac:(lia)) as H.
  cbv zeta in H. destruct H as (_ & _ & H).
  assert (Hall : Forall cell_ok (replicate 16 1)).
  { apply Forall_replicate. unfold cell_ok. lia. }
  destruct (H Hall) as (_ & _ & Hi & Hw). exact (conj Hi Hw).
Defined.

(** In [ZUC_Init] the injection word is W >> 1 for a 32-bit W. *)
Lemma init_injection_word_range (W : Z) :
  is_u32 W -> 0 <= Z.shiftr W 1 < 2 ^ 31.
Proof.
  unfold is_u32. intros HW. rewrite Z.shiftr_div_pow2 by lia. split.
  - apply Z.div_pos; lia.
  - apply Z.div_lt_upper_bound; lia.
Qed.

End ZUC_LFSR.

(** ** 128-EEA3: [ZUC_Confidentiality] *)

Module ZUC_EEA3.
Import ZUC.

(** What the last statement of [ZUC_Confidentiality] does to the final
    partial word: the low [32 - t] bits are cleared. *)
Definition mask_low (t x : Z) : Z :=
  u32 (Z.shiftl (Z.shiftr x (32 - t)) (32 - t)).

Lemma BitValue_testbit (M : list Z) (i : Z) :
  0 <= i ->
  BitValue M i = Z.b2z (Z.testbit (M !!! Z.to_nat (i / 32)) (31 - i mod 32)).
Proof.
  intros Hi. unfold BitValue.
  rewrite Z.shiftr_div_pow2 by lia. change (2 ^ 5) with 32.
  replace (Z.land i 0x1f) with (i mod 32)
    by (change 0x1f with (Z.ones 5); rewrite Z.land_ones by lia; reflexivity).
  set (w := M !!! Z.to_nat (i / 32)). set (p := 31 - i mod 32).
  assert (Hp : 0 <= p) by (unfold p; pose proof (Z.mod_pos_bound i 32); lia).
  rewrite Z.shiftl_1_l.
  destruct (Z.testbit w p) eqn:Hb.
  - destruct (Z.eqb_spec (Z.land w (2 ^ p)) 0) as [H0 | _]; [|reflexivity].
    exfalso. assert (Ht : Z.testbit (Z.land w (2 ^ p)) p = true).
    { rewrite Z.land_spec, Hb, Z.pow2_bits_true by lia. reflexivity. }
    rewrite H0, Z.bits_0 in Ht. discriminate.
  - destruct (Z.eqb_spec (Z.land w (2 ^ p)) 0) as [_ | Hne]; [reflexivity|].
    exfalso. apply Hne. apply Z.bits_inj'. intros n Hn.
    rewrite Z.land_spec, Z.bits_0, Z.pow2_bits_eqb by lia.
    destruct (Z.eqb_spec p n) as [<- | _]; [rewrite Hb; reflexivity|].
    apply andb_false_r.
Qed.

Lemma mask_low_spec (t x b : Z) :
  0 < t < 32 -> 0 <= b ->
  Z.testbit (mask_low t x) b = (32 - t <=? b) && (b <? 32) && Z.testbit x b.
Proof.
  intros Ht Hb. unfold mask_low, u32.
  destruct (Z.ltb_spec b 32) as [Hlt | Hge].
  - rewrite Z.mod_pow2_bits_low by lia. rewrite Z.shiftl_spec by lia.
    destruct (Z.leb_spec (32 - t) b) as [Hle | Hgt].
    + rewrite Z.shiftr_spec by lia. simpl. f_equal. lia.
    + rewrite Z.testbit_neg_r by lia. reflexivity.
  - rewrite Z.mod_pow2_bits_high by lia. rewrite andb_false_r. reflexivity.
Qed.

(** Clearing the low bits twice around the same keystream word gives the
    input word with its low bits cleared. *)
Lemma mask_low_twice (t I k : Z) :
  0 < t < 32 ->
  mask_low t (Z.lxor (mask_low t (Z.lxor I k)) k) = mask_low t I.
Proof.
  intros Ht. apply Z.bits_inj'. intros b Hb.
  rewrite !mask_low_spec, Z.lxor_spec, mask_low_spec, Z.lxor_spec by lia.
  destruct (32 - t <=? b), (b <? 32), (Z.testbit I b), (Z.testbit k b); reflexivity.
Qed.

Lemma mask_low_u32 (t I : Z) :
  0 < t < 32 -> is_u32 I ->
  mask_low t I = Z.shiftl (Z.shiftr I (32 - t)) (32 - t).
Proof.
  intros Ht HI. unfold mask_low, u32. apply Z.mod_small.
  rewrite Z.shiftr_div_pow2, Z.shiftl_mul_pow2 by lia.
  unfold is_u32 in HI.
  assert (Hp : 0 < 2 ^ (32 - t)) by (apply Z.pow_pos_nonneg; lia).
  split.
  - apply Z.mul_nonneg_nonneg; [apply Z.div_pos|]; lia.
  - apply Z.le_lt_trans with I; [|lia].
    rewrite Z.mul_comm. apply Z.mul_div_le. exact Hp.
Qed.

Lemma mask_low_cleared (t x : Z) :
  0 < t < 32 -> mask_low t x mod 2 ^ (32 - t) = 0.
Proof.
  intros Ht. apply Z.bits_inj'. intros b Hb. rewrite Z.bits_0.
  destruct (Z.ltb_spec b (32 - t)).
  - rewrite Z.mod_pow2_bits_low by lia. rewrite mask_low_spec by lia.
    destruct (Z.leb_spec (32 - t) b); [lia | reflexivity].
  - apply Z.mod_pow2_bits_high. lia.
Qed.

(** The XOR loop: the first [n] words are written, the rest of the output
    array is untouched. *)
Lemma xor_loop_spec (IBS k : list Z) (n : nat) (OBS : list Z) :
  (n <= length OBS)%nat ->
  let R := foldl (fun OBS i => <[i := Z.lxor (IBS !!! i) (k !!! i)]> OBS) OBS
                 (seq 0 n) in
  length R = length OBS /\
  forall i : nat,
    R !!! i = if decide (i < n)%nat then Z.lxor (IBS !!! i) (k !!! i)
              else OBS !!! i.
Proof.
  induction n as [|n IH]; intros Hn R.
  - split; [reflexivity|]. intros i. destruct (decide (i < 0)%nat); [lia | reflexivity].
  - subst R. rewrite seq_S, foldl_app. simpl.
    destruct (IH ltac:(lia)) as [Hlen Hlk]. split.
    + rewrite length_insert. exact Hlen.
    + intros i. destruct (decide (i = n)) as [-> | Hne].
      * rewrite list_lookup_total_insert_eq by lia.
        destruct (decide (n < S n)%nat); [reflexivity | lia].
      * rewrite list_lookup_total_insert_ne by congruence. rewrite Hlk.
        destruct (decide (i < n)%nat), (decide (i < S n)%nat); try lia; reflexivity.
Qed.

Section Tables.
Variables ZUC_S0 ZUC_S1 ZUC_d : list Z.

Lemma Work_loop_length (n : nat) (LFSR_S F_R : list Z) :
  length (ZUC_Work_loop ZUC_S0 ZUC_S1 n LFSR_S F_R) = n.
Proof.
  revert LFSR_S F_R. induction n as [|n IH]; intros LFSR_S F_R; [reflexivity|].
  simpl. rewrite IH. reflexivity.
Qed.

(** [ZUC_GenKeyStream] emits exactly [KeyStreamLen] words. *)
Lemma GenKeyStream_length (k iv : list Z) (KeyStreamLen : Z) :
  length (ZUC_GenKeyStream ZUC_S0 ZUC_S1 ZUC_d k iv KeyStreamLen)
    = Z.to_nat KeyStreamLen.
Proof.
  unfold ZUC_GenKeyStream.
  destruct (ZUC_Init ZUC_S0 ZUC_S1 ZUC_d k iv [0; 0; 0; 0]) as [[LFSR_S BR_X] F_R].
  unfold ZUC_Work. apply Work_loop_length.
Qed.

(** [ZUC_Confidentiality], word by word, over the keystream its key and IV
    parameters determine. *)
Lemma Confidentiality_words (CK : list Z) (COUNT BEARER DIRECTION LENGTH : Z) :
  0 <= LENGTH ->
  let L := (LENGTH + 31) / 32 in
  let t := LENGTH mod 32 in
  exists k : list Z,
    k = ZUC_GenKeyStream ZUC_S0 ZUC_S1 ZUC_d CK
          (Confidentiality_iv COUNT BEARER DIRECTION) L /\
    length k = Z.to_nat L /\
    forall IBS OBS : list Z,
      (Z.to_nat L <= length OBS)%nat ->
      let R := ZUC_Confidentiality ZUC_S0 ZUC_S1 ZUC_d CK COUNT BEARER DIRECTION
                 IBS LENGTH OBS in
      length R = length OBS /\
      forall j : nat, (j < Z.to_nat L)%nat ->
        R !!! j = if decide (t <> 0 /\ j = Z.to_nat (L - 1))
                  then mask_low t (Z.lxor (IBS !!! j) (k !!! j))
                  else Z.lxor (IBS !!! j) (k !!! j).
Proof.
  intros HL L t. unfold ZUC_Confidentiality.
  rewrite Z.quot_div_nonneg, Z.rem_mod_nonneg by lia. fold L t.
  set (k := ZUC_GenKeyStream ZUC_S0 ZUC_S1 ZUC_d CK
              (Confidentiality_iv COUNT BEARER DIRECTION) L).
  exists k. split; [reflexivity|]. split; [apply GenKeyStream_length|].
  intros IBS OBS HOBS. cbv zeta. unfold xor_words.
  destruct (xor_loop_spec IBS k (Z.to_nat L) OBS HOBS) as [Hlen Hlk].
  cbv zeta in Hlen, Hlk.
  set (X := foldl _ OBS (seq 0 (Z.to_nat L))) in *.
  destruct (Z.eqb_spec t 0) as [Ht0 | Htn].
  - split; [exact Hlen|]. intros j Hj. rewrite Hlk.
    destruct (decide (j < Z.to_nat L)%nat); [|lia].
    destruct (decide (t <> 0 /\ j = Z.to_nat (L - 1))) as [[Hc _] | _];
      [contradiction | reflexivity].
  - split; [rewrite length_insert; exact Hlen|]. intros j Hj.
    destruct (decide (j = Z.to_nat (L - 1))) as [-> | Hne].
    + rewrite list_lookup_total_insert_eq by lia. rewrite Hlk.
      destruct (decide (Z.to_nat (L - 1) < Z.to_nat L)%nat); [|lia].
      destruct (decide (t <> 0 /\ Z.to_nat (L - 1) = Z.to_nat (L - 1)));
        [reflexivity | tauto].
    + rewrite list_lookup_total_insert_ne by congruence. rewrite Hlk.
      destruct (decide (j < Z.to_nat L)%nat); [|lia].
      destruct (decide (t <> 0 /\ j = Z.to_nat (L - 1))) as [[_ Hc] | _];
        [contradiction | reflexivity].
Qed.

Lemma ceil_words (LENGTH : Z) :
  0 <= LENGTH ->
  let L := (LENGTH + 31) / 32 in
  let t := LENGTH mod 32 in
  0 <= t < 32 /\ LENGTH = 32 * (LENGTH / 32) + t /\
  (t = 0 -> L = LENGTH / 32) /\ (t <> 0 -> L = LENGTH / 32 + 1).
Proof.
  intros HL L t. subst L t.
  pose proof (Z.mod_pos_bound LENGTH 32 ltac:(lia)) as Hb.
  pose proof (Z.div_mod LENGTH 32 ltac:(lia)) as Hdm.
  repeat split; try lia.
  - intros Ht. symmetry.
    apply (Z.div_unique (LENGTH + 31) 32 (LENGTH / 32) 31); lia.
  - intros Ht. symmetry.
    apply (Z.div_unique (LENGTH + 31) 32 (LENGTH / 32 + 1) (LENGTH mod 32 - 1)); lia.
Qed.

(** C8. Applying [ZUC_Confidentiality] twice with the same key and IV
    parameters restores the input bit stream of length LENGTH: the cipher
    XORs the ceil(LENGTH/32) keystream words [k] into the input words and
    clears the unused low 32 - (LENGTH mod 32) bits of the final partial
    word, so after the second pass every full word is the input word, the
    final partial word is the input word with its unused low bits cleared,
    and every bit position below LENGTH reads as in the input. *)
Theorem EEA3_twice_restores_bit_stream
    (CK : list Z) (COUNT BEARER DIRECTION : Z) (IBS : list Z) (LENGTH : Z)
    (OBS1 OBS2 : list Z) :
  0 <= LENGTH -> LENGTH + 31 < 2 ^ 31 ->
  Forall is_u32 IBS ->
  let L := (LENGTH + 31) / 32 in
  let t := LENGTH mod 32 in
  (Z.to_nat L <= length IBS)%nat ->
  (Z.to_nat L <= length OBS1)%nat ->
  (Z.to_nat L <= length OBS2)%nat ->
  let C := ZUC_Confidentiality ZUC_S0 ZUC_S1 ZUC_d CK COUNT BEARER DIRECTION
             IBS LENGTH OBS1 in
  let P := ZUC_Confidentiality ZUC_S0 ZUC_S1 ZUC_d CK COUNT BEARER DIRECTION
             C LENGTH OBS2 in
  LENGTH <= 32 * L < LENGTH + 32 /\
  (let k := ZUC_GenKeyStream ZUC_S0 ZUC_S1 ZUC_d CK
              (Confidentiality_iv COUNT BEARER DIRECTION) L in
     length k = Z.to_nat L /\
     forall j : nat, (j < Z.to_nat L)%nat ->
       C !!! j = if decide (t <> 0 /\ j = Z.to_nat (L - 1))
                 then mask_low t (Z.lxor (IBS !!! j) (k !!! j))
                 else Z.lxor (IBS !!! j) (k !!! j)) /\
  (t <> 0 -> (C !!! Z.to_nat (L - 1)) mod 2 ^ (32 - t) = 0) /\
  (forall j : nat, (j < Z.to_nat (LENGTH / 32))%nat -> P !!! j = IBS !!! j) /\
  (t <> 0 ->
     P !!! Z.to_nat (L - 1)
       = Z.shiftl (Z.shiftr (IBS !!! Z.to_nat (L - 1)) (32 - t)) (32 - t)) /\
  (forall i : Z, 0 <= i < LENGTH -> BitValue P i = BitValue IBS i).
Proof.
  intros HL Hint HIBS L t HlenI HlenO1 HlenO2 C P.
  destruct (ceil_words LENGTH HL) as (Ht & Hdm & HL0 & HL1). fold L t in Ht, Hdm, HL0, HL1.
  assert (HLnn : 0 <= LENGTH / 32) by (apply Z.div_pos; lia).
  destruct (Confidentiality_words CK COUNT BEARER DIRECTION LENGTH HL)
    as (k & Hkeq & Hk & Hwords). fold L t in Hkeq, Hk, Hwords.
  destruct (Hwords IBS OBS1 HlenO1) as [HlenC HC]. fold C in HlenC, HC.
  destruct (Hwords C OBS2 HlenO2) as [HlenP HP]. fold P in HlenP, HP.
  assert (Hfull : forall j : nat, (j < Z.to_nat (LENGTH / 32))%nat -> P !!! j = IBS !!! j).
  { intros j Hj.
    assert (HjL : (j < Z.to_nat L)%nat) by (destruct (Z.eq_dec t 0); lia).
    rewrite (HP j HjL), (HC j HjL).
    destruct (decide (t <> 0 /\ j = Z.to_nat (L - 1))) as [[Hc1 Hc2] | _].
    - specialize (HL1 Hc1). lia.
    - rewrite Z.lxor_assoc, Z.lxor_nilpotent, Z.lxor_0_r. reflexivity. }
  assert (Hlast : t <> 0 ->
            P !!! Z.to_nat (L - 1) = mask_low t (IBS !!! Z.to_nat (L - 1))).
  { intros Htn. specialize (HL1 Htn).
    assert (HjL : (Z.to_nat (L - 1) < Z.to_nat L)%nat) by lia.
    rewrite (HP _ HjL), (HC _ HjL).
    destruct (decide (t <> 0 /\ Z.to_nat (L - 1) = Z.to_nat (L - 1))); [|tauto].
    apply mask_low_twice. lia. }
  assert (HinI : forall j : nat, (j < Z.to_nat L)%nat -> is_u32 (IBS !!! j)).
  { intros j Hj. eapply Forall_lookup_1; [exact HIBS|].
    apply list_lookup_lookup_total_lt. lia. }
  split; [destruct (Z.eq_dec t 0) as [E | E]; [specialize (HL0 E) | specialize (HL1 E)]; lia|].
  split; [cbv zeta; rewrite <- Hkeq; split; [exact Hk | exact HC]|].
  split.
  { intros Htn. specialize (HL1 Htn).
    rewrite (HC (Z.to_nat (L - 1))) by lia.
    destruct (decide (t <> 0 /\ Z.to_nat (L - 1) = Z.to_nat (L - 1))); [|tauto].
    apply mask_low_cleared. lia. }
  split; [exact Hfull|].
  split.
  { intros Htn. rewrite (Hlast Htn). pose proof (HL1 Htn).
    apply mask_low_u32; [lia | apply HinI; lia]. }
  intros i Hi. rewrite !BitValue_testbit by lia.
  pose proof (Z.mod_pos_bound i 32 ltac:(lia)) as Him.
  pose proof (Z.div_mod i 32 ltac:(lia)) as Hidm.
  destruct (Z.lt_ge_cases (i / 32) (LENGTH / 32)) as [Hlt | Hge].
  - rewrite Hfull by lia. reflexivity.
  - assert (Htn : t <> 0) by lia. specialize (HL1 Htn).
    assert (Hj : i / 32 = L - 1) by lia.
    rewrite Hj, (Hlast Htn), mask_low_spec by lia.
    destruct (Z.leb_spec (32 - t) (31 - i mod 32)); [|lia].
    destruct (Z.ltb_spec (31 - i mod 32) 32); [|lia]. reflexivity.
Qed.

End Tables.

(** The theorem on the confidentiality vector of [ZUC_SelfCheck] (193 bits
    in seven words). *)
Lemma EEA3_twice_restores_bit_stream_witness :
  let C := ZUC_Confidentiality ZUC_h.ZUC_S0 ZUC_h.ZUC_S1 ZUC_h.ZUC_d
             ZUC_SelfCheck.key 0x66035492 0x0f 0x00 ZUC_SelfCheck.plain 0xc1
             (replicate 7 0) in
  let P := ZUC_Confidentiality ZUC_h.ZUC_S0 ZUC_h.ZUC_S1 ZUC_h.ZUC_d
             ZUC_SelfCheck.key 0x66035492 0x0f 0x00 C 0xc1 (replicate 7 0) in
  BitValue P 192 = BitValue ZUC_SelfCheck.plain 192 /\
  P !!! 5%nat = ZUC_SelfCheck.plain !!! 5%nat.
Proof.
  cbv zeta.
  assert (Hu : Forall is_u32 ZUC_SelfCheck.plain).
  { repeat constructor; unfold is_u32; lia. }
  pose proof (EEA3_twice_restores_bit_stream ZUC_h.ZUC_S0 ZUC_h.ZUC_S1 ZUC_h.ZUC_d
                ZUC_SelfCheck.key 0x66035492 0x0f 0x00 ZUC_SelfCheck.plain 0xc1
                (replicate 7 0) (replicate 7 0)
                ltac:(lia) ltac:(lia) Hu) as H.
  cbv zeta in H.
  assert (H7 : (Z.to_nat ((0xc1 + 31) / 32) <= 7)%nat) by (vm_compute; lia).
  specialize (H H7 H7 H7). destruct H as (_ & _ & _ & Hfull & _ & Hbits).
  split.
  - apply Hbits. lia.
  - apply Hfull. vm_compute. lia.
Defined.

End ZUC_EEA3.

(** ** 128-EIA3: [ZUC_Integrity] *)

Module ZUC_EIA3.
Import ZUC ZUC_EEA3.

(** The spec's view of the keystream: a string of bits, word after word,
    most significant bit first. [stream_bit k p] is bit [p] of the stream. *)
Definition stream_bit (k : list Z) (p : Z) : bool :=
  Z.testbit (k !!! Z.to_nat (p / 32)) (31 - p mod 32).

(** The integer a list of bits spells, most significant bit first. *)
Definition bits_be (bs : list bool) : Z :=
  foldl (fun acc b => 2 * acc + Z.b2z b) 0 bs.

(** word(k, i) in the spec's words: the 32 bits starting at bit [i] of the
    stream. *)
Definition word (k : list Z) (i : Z) : Z :=
  bits_be ((fun b : nat => stream_bit k (i + Z.of_nat b)) <$> seq 0 32).

(** 128-EIA3 in the spec's words, over the keystream [k]: T accumulates
    word(k, i) over the message bits that are 1, then word(k, LENGTH), and
    MAC = T xor word(k, 32 (L - 1)). *)
Definition EIA3_T (k M : list Z) (LENGTH : Z) : Z :=
  foldl (fun T i => if stream_bit M i then Z.lxor T (word k i) else T) 0
        (Z.of_nat <$> seq 0 (Z.to_nat LENGTH)).

Definition EIA3_MAC (k M : list Z) (LENGTH : Z) : Z :=
  let L := (LENGTH + 31) / 32 + 2 in
  Z.lxor (Z.lxor (EIA3_T k M LENGTH) (word k LENGTH)) (word k (32 * (L - 1))).

Lemma bits_be_snoc (bs : list bool) (b : bool) :
  bits_be (bs ++ [b]) = 2 * bits_be bs + Z.b2z b.
Proof. unfold bits_be. rewrite foldl_app. reflexivity. Qed.

Lemma bits_be_nonneg (bs : list bool) : 0 <= bits_be bs.
Proof.
  induction bs as [|b bs IH] using rev_ind; [reflexivity|].
  rewrite bits_be_snoc. destruct b; simpl Z.b2z; lia.
Qed.

(** Bit [c] of [bits_be bs] is the element of [bs] at distance [c] from
    its end. *)
Lemma bits_be_testbit (bs : list bool) (c : nat) :
  Z.testbit (bits_be bs) (Z.of_nat c)
    = if decide (c < length bs)%nat then bs !!! (length bs - 1 - c)%nat
      else false.
Proof.
  revert c. induction bs as [|b bs IH] using rev_ind; intros c.
  - simpl. apply Z.bits_0.
  - rewrite bits_be_snoc, length_app. simpl length.
    destruct c as [|c].
    + change (Z.of_nat 0) with 0. rewrite Z.testbit_0_r.
      destruct (decide (0 < length bs + 1)%nat); [|lia].
      replace (length bs + 1 - 1 - 0)%nat with (length bs + 0)%nat by lia.
      rewrite lookup_total_app_r by lia.
      replace (length bs + 0 - length bs)%nat with 0%nat by lia. reflexivity.
    + rewrite Nat2Z.inj_succ, Z.testbit_succ_r by lia. rewrite IH.
      destruct (decide (c < length bs)%nat), (decide (S c < length bs + 1)%nat);
        try lia; try reflexivity.
      rewrite lookup_total_app_l by lia. f_equal. lia.
Qed.

Lemma word_testbit (k : list Z) (i : Z) (c : Z) :
  0 <= c ->
  Z.testbit (word k i) c = (c <? 32) && stream_bit k (i + (31 - c)).
Proof.
  intros Hc. unfold word. rewrite <- (Z2Nat.id c) at 1 by lia.
  rewrite bits_be_testbit, length_fmap, length_seq.
  destruct (decide (Z.to_nat c < 32)%nat) as [Hlt | Hge].
  - destruct (Z.ltb_spec c 32); [|lia]. rewrite andb_true_l.
    apply list_lookup_total_correct.
    rewrite list_lookup_fmap, lookup_seq_lt by lia. simpl. do 2 f_equal. lia.
  - destruct (Z.ltb_spec c 32); [lia | reflexivity].
Qed.

Lemma word_u32 (k : list Z) (i : Z) : is_u32 (word k i).
Proof.
  apply u32_of_bits; [apply bits_be_nonneg|].
  intros c Hc. rewrite word_testbit by lia.
  destruct (Z.ltb_spec c 32); [lia | reflexivity].
Qed.

(** [GetWord] computes the spec's word(k, i), reading k[i / 32] and, when
    [i] is not a multiple of 32, k[i / 32 + 1]. *)
Lemma GetWord_word (k : list Z) (i : Z) :
  Forall is_u32 k -> 0 <= i ->
  (Z.to_nat (i / 32)%Z + (if (i mod 32 =? 0)%Z then 0 else 1) < length k)%nat ->
  GetWord k i = Some (word k i).
Proof.
  intros Hk Hi Hlen. unfold GetWord.
  rewrite Z.shiftr_div_pow2 by lia. change (2 ^ 5) with 32.
  replace (Z.land i 0x1f) with (i mod 32)
    by (change 0x1f with (Z.ones 5); rewrite Z.land_ones by lia; reflexivity).
  pose proof (Z.mod_pos_bound i 32 ltac:(lia)) as Hm.
  pose proof (Z.div_mod i 32 ltac:(lia)) as Hdm.
  assert (Hj : 0 <= i / 32) by (apply Z.div_pos; lia).
  set (j := i / 32) in *. set (m := i mod 32) in *.
  assert (Hbit : forall c d, 0 <= c < 32 -> 0 <= d ->
            stream_bit k (32 * (j + d) + c)
              = Z.testbit (k !!! Z.to_nat (j + d)) (31 - c)).
  { intros c d Hc Hd. unfold stream_bit.
    replace ((32 * (j + d) + c) / 32) with (j + d)
      by (apply (Z.div_unique _ 32 (j + d) c); lia).
    replace ((32 * (j + d) + c) mod 32) with c
      by (apply (Z.mod_unique _ 32 (j + d) c); lia).
    reflexivity. }
  destruct (Z.eqb_spec m 0) as [Hm0 | Hmn].
  - rewrite (list_lookup_lookup_total_lt k (Z.to_nat j)) by lia. f_equal.
    assert (Hkj : is_u32 (k !!! Z.to_nat j)).
    { eapply Forall_lookup_1; [exact Hk|]. apply list_lookup_lookup_total_lt. lia. }
    apply Z.bits_inj'. intros c Hc. rewrite word_testbit by lia.
    destruct (Z.ltb_spec c 32) as [Hlt | Hge].
    + simpl. replace (i + (31 - c)) with (32 * (j + 0) + (31 - c)) by lia.
      rewrite Hbit by lia. rewrite Z.add_0_r. f_equal. lia.
    + simpl. apply u32_high_bits; assumption.
  - rewrite (list_lookup_lookup_total_lt k (Z.to_nat j)) by lia.
    rewrite (list_lookup_lookup_total_lt k (Z.to_nat (j + 1))) by lia.
    simpl. f_equal.
    assert (Hkj1 : is_u32 (k !!! Z.to_nat (j + 1))).
    { eapply Forall_lookup_1; [exact Hk|]. apply list_lookup_lookup_total_lt. lia. }
    apply Z.bits_inj'. intros c Hc. rewrite word_testbit by lia.
    rewrite Z.lor_spec. unfold u32.
    destruct (Z.ltb_spec c 32) as [Hlt | Hge].
    + rewrite Z.mod_pow2_bits_low by lia. rewrite Z.shiftl_spec by lia.
      rewrite Z.shiftr_spec by lia. simpl.
      destruct (Z.lt_ge_cases c m) as [Hcm | Hcm].
      * rewrite (Z.testbit_neg_r _ (c - m)) by lia. simpl.
        replace (i + (31 - c)) with (32 * (j + 1) + (m - 1 - c)) by lia.
        rewrite Hbit by lia. f_equal. lia.
      * rewrite (u32_high_bits _ (c + (32 - m))) by (assumption || lia).
        rewrite orb_false_r.
        replace (i + (31 - c)) with (32 * (j + 0) + (m + 31 - c)) by lia.
        rewrite Hbit by lia. rewrite Z.add_0_r. f_equal. lia.
    + rewrite Z.mod_pow2_bits_high by lia. rewrite Z.shiftr_spec by lia.
      rewrite (u32_high_bits _ (c + (32 - m))) by (assumption || lia).
      reflexivity.
Qed.

Section Tables.
Variables ZUC_S0 ZUC_S1 ZUC_d : list Z.

Lemma Work_loop_u32 (n : nat) (LFSR_S F_R : list Z) :
  Forall is_u32 (ZUC_Work_loop ZUC_S0 ZUC_S1 n LFSR_S F_R).
Proof.
  revert LFSR_S F_R. induction n as [|n IH]; intros LFSR_S F_R; [constructor|].
  simpl. constructor; [|apply IH].
  apply lxor_u32; [apply u32_is_u32|].
  apply lor_u32; [apply u32_is_u32|].
  apply shiftr_land_u32; [unfold is_u32|]; lia.
Qed.

(** Every keystream word is a 32-bit value. *)
Lemma GenKeyStream_u32 (k iv : list Z) (KeyStreamLen : Z) :
  Forall is_u32 (ZUC_GenKeyStream ZUC_S0 ZUC_S1 ZUC_d k iv KeyStreamLen).
Proof.
  unfold ZUC_GenKeyStream.
  destruct (ZUC_Init ZUC_S0 ZUC_S1 ZUC_d k iv [0; 0; 0; 0]) as [[LFSR_S BR_X] F_R].
  unfold ZUC_Work. apply Work_loop_u32.
Qed.

End Tables.

(** The accumulation loop of [ZUC_Integrity] is the spec's fold over the
    bit positions, as long as every extraction is within the keystream. *)
Lemma Integrity_loop_spec (M k : list Z) (n a : nat) (T : Z) :
  (forall i : nat, (a <= i < a + n)%nat ->
     GetWord k (Z.of_nat i) = Some (word k (Z.of_nat i))) ->
  Integrity_loop M k n (Z.of_nat a) T
    = Some (foldl (fun T i => if stream_bit M i then Z.lxor T (word k i) else T)
                  T (Z.of_nat <$> seq a n)).
Proof.
  revert a T. induction n as [|n IH]; intros a T Hget; [reflexivity|].
  simpl. rewrite BitValue_testbit by lia. fold (stream_bit M (Z.of_nat a)).
  replace (Z.of_nat a + 1) with (Z.of_nat (S a)) by lia.
  destruct (stream_bit M (Z.of_nat a)); simpl.
  - rewrite (Hget a) by lia. simpl. apply IH. intros i Hi. apply Hget. lia.
  - apply IH. intros i Hi. apply Hget. lia.
Qed.

Section Integrity.
Variables ZUC_S0 ZUC_S1 ZUC_d : list Z.

(** C9. [ZUC_Integrity] generates exactly L = ceil(LENGTH/32) + 2 keystream
    words [k], accumulates T as the XOR of word(k, i) over the message bit
    positions i in [[0, LENGTH)] whose bit is 1, XORs word(k, LENGTH) into T
    and returns MAC = T xor word(k, 32 (L - 1)); every extraction
    word(k, i) it performs, at i <= LENGTH and at i = 32 (L - 1), reads
    k[i / 32] and (when i is not a multiple of 32) k[i / 32 + 1], both
    within the L words. *)
Theorem EIA3_MAC_within_keystream
    (IK : list Z) (COUNT BEARER DIRECTION : Z) (M : list Z) (LENGTH : Z) :
  0 <= LENGTH -> 32 * ((LENGTH + 31) / 32 + 1) < 2 ^ 31 ->
  (Z.to_nat ((LENGTH + 31) / 32) <= length M)%nat ->
  let L := (LENGTH + 31) / 32 + 2 in
  let k := ZUC_GenKeyStream ZUC_S0 ZUC_S1 ZUC_d IK
             (Integrity_iv COUNT BEARER DIRECTION) L in
  LENGTH <= 32 * (L - 2) < LENGTH + 32 /\
  length k = Z.to_nat L /\
  (forall i : Z, 0 <= i <= LENGTH \/ i = 32 * (L - 1) ->
     i / 32 + (if i mod 32 =? 0 then 0 else 1) < L /\
     GetWord k i = Some (word k i)) /\
  ZUC_Integrity ZUC_S0 ZUC_S1 ZUC_d IK COUNT BEARER DIRECTION M LENGTH
    = Some (EIA3_MAC k M LENGTH).
Proof.
  intros HL Hint HM L k.
  destruct (ceil_words LENGTH HL) as (Ht & Hdm & HL0 & HL1).
  assert (Hq : 0 <= LENGTH / 32) by (apply Z.div_pos; lia).
  assert (HLq : LENGTH / 32 <= (LENGTH + 31) / 32 <= LENGTH / 32 + 1).
  { destruct (Z.eq_dec (LENGTH mod 32) 0) as [E | E];
      [rewrite (HL0 E) | rewrite (HL1 E)]; lia. }
  assert (Hklen : length k = Z.to_nat L) by apply GenKeyStream_length.
  assert (Hku : Forall is_u32 k) by apply GenKeyStream_u32.
  assert (Hidx : forall i : Z, 0 <= i <= LENGTH \/ i = 32 * (L - 1) ->
            0 <= i /\ i / 32 + (if i mod 32 =? 0 then 0 else 1) < L).
  { intros i [Hi | ->].
    - split; [lia|].
      assert (i / 32 <= LENGTH / 32) by (apply Z.div_le_mono; lia).
      destruct (i mod 32 =? 0); lia.
    - split; [lia|].
      replace (32 * (L - 1)) with ((L - 1) * 32) by lia.
      rewrite Z.div_mul, Z.mod_mul by lia. simpl. lia. }
  assert (Hget : forall i : Z, 0 <= i <= LENGTH \/ i = 32 * (L - 1) ->
            GetWord k i = Some (word k i)).
  { intros i Hi. destruct (Hidx i Hi) as [Hi0 Hb].
    assert (0 <= i / 32) by (apply Z.div_pos; lia).
    apply GetWord_word; [exact Hku | exact Hi0 |]. rewrite Hklen.
    destruct (i mod 32 =? 0); lia. }
  split.
  { subst L. destruct (Z.eq_dec (LENGTH mod 32) 0) as [E | E];
      [rewrite (HL0 E) | rewrite (HL1 E)]; lia. }
  split; [exact Hklen|].
  split; [intros i Hi; split; [apply Hidx, Hi | apply Hget, Hi]|].
  unfold ZUC_Integrity. rewrite Z.quot_div_nonneg by lia. fold L. fold k.
  assert (Hloop : Integrity_loop M k (Z.to_nat LENGTH) 0 0
                  = Some (EIA3_T k M LENGTH)).
  { apply (Integrity_loop_spec M k (Z.to_nat LENGTH) 0 0).
    intros i Hi. apply Hget. lia. }
  rewrite Hloop. simpl. rewrite (Hget LENGTH) by lia. simpl.
  rewrite (Hget (32 * (L - 1))) by (right; reflexivity). reflexivity.
Qed.

End Integrity.

(** The theorem on the integrity vector of [ZUC_SelfCheck]. *)
Lemma EIA3_MAC_within_keystream_witness :
  ZUC_Integrity ZUC_h.ZUC_S0 ZUC_h.ZUC_S1 ZUC_h.ZUC_d (replicate 16 0) 0 0 0 [0] 1
    = Some (EIA3_MAC (ZUC_GenKeyStream ZUC_h.ZUC_S0 ZUC_h.ZUC_S1 ZUC_h.ZUC_d
                        (replicate 16 0) (Integrity_iv 0 0 0) 3) [0] 1).
Proof.
  apply (EIA3_MAC_within_keystream ZUC_h.ZUC_S0 ZUC_h.ZUC_S1 ZUC_h.ZUC_d
           (replicate 16 0) 0 0 0 [0] 1).
  - lia.
  - reflexivity.
  - vm_compute. lia.
Defined.

End ZUC_EIA3.

(** * SM4.c *)

Module SM4.

(** (b[0] << 24) | (b[1] << 16) | (b[2] << 8) | b[3], stored in an
    [unsigned int]. *)
Definition load_be32 (b0 b1 b2 b3 : Z) : Z :=
  u32 (Z.lor (Z.lor (Z.lor (Z.shiftl b0 24) (Z.shiftl b1 16)) (Z.shiftl b2 8)) b3).

(** The four stores (x >> 24) & 0xFF, ..., x & 0xFF. *)
Definition store_be32 (x : Z) : list Z :=
  [ Z.land (Z.shiftr x 24) 0xFF; Z.land (Z.shiftr x 16) 0xFF;
    Z.land (Z.shiftr x 8) 0xFF; Z.land x 0xFF ].

Section Tables.

(** The tables of SM4.h: the S-box ([unsigned char [256]]), FK
    ([unsigned int [4]]) and CK ([unsigned int [32]]). *)
Variables SM4_Sbox SM4_FK SM4_CK : list Z.

(** nonlinear operation: the S-box on each byte of [tmp] *)
Definition nonlinear (tmp : Z) : Z :=
  let b n := Z.to_nat (Z.land (Z.shiftr tmp n) 0xFF) in
  u32 (Z.lor (Z.lor (Z.lor (Z.shiftl (SM4_Sbox !!! b 24) 24)
                           (Z.shiftl (SM4_Sbox !!! b 16) 16))
                    (Z.shiftl (SM4_Sbox !!! b 8) 8))
             (SM4_Sbox !!! b 0)).

(** linear operation of the key schedule *)
Definition linear_key (buf : Z) : Z :=
  Z.lxor (Z.lxor buf (rotl32 buf 13)) (rotl32 buf 23).

(** linear operation of the rounds *)
Definition linear (buf : Z) : Z :=
  Z.lxor (Z.lxor (Z.lxor (Z.lxor buf (rotl32 buf 2)) (rotl32 buf 10))
                 (rotl32 buf 18)) (rotl32 buf 24).

(** Generate round keys: the array rk[32] on return. K[36] and rk[32] are
    locals, uninitialised on entry (modelled as zeros). *)
Definition SM4_KeySchedule (MK : list Z) : list Z :=
  let K := replicate 36 0 in
  let K :=
    foldl (fun K i =>
             <[i := Z.lxor (SM4_FK !!! i)
                      (load_be32 (MK !!! (4 * i)%nat) (MK !!! (4 * i + 1)%nat)
                                 (MK !!! (4 * i + 2)%nat) (MK !!! (4 * i + 3)%nat))]> K)
          K (seq 0 4) in
  snd (foldl (fun '(K, rk) i =>
           let tmp := Z.lxor (Z.lxor (Z.lxor (K !!! (i + 1)%nat) (K !!! (i + 2)%nat))
                                     (K !!! (i + 3)%nat)) (SM4_CK !!! i) in
           let buf := nonlinear tmp in
           let K := <[(i + 4)%nat := Z.lxor (K !!! i) (linear_key buf)]> K in
           (K, <[i := K !!! (i + 4)%nat]> rk))
        (K, replicate 32 0) (seq 0 32)).

(** for (j = 0; j < 4; j++) X[j] = (In[j*4] << 24) | ... | In[j*4+3]; *)
Definition load_block (In : list Z) : list Z :=
  foldl (fun X j =>
           <[j := load_be32 (In !!! (j * 4)%nat) (In !!! (j * 4 + 1)%nat)
                            (In !!! (j * 4 + 2)%nat) (In !!! (j * 4 + 3)%nat)]> X)
        (replicate 36 0) (seq 0 4).

(** The 32 rounds on the array X[36]; [key i] is the round key the source
    reads in round [i]. *)
Definition rounds (key : nat -> Z) (X : list Z) : list Z :=
  foldl (fun X i =>
           let tmp := Z.lxor (Z.lxor (Z.lxor (X !!! (i + 1)%nat) (X !!! (i + 2)%nat))
                                     (X !!! (i + 3)%nat)) (key i) in
           let buf := nonlinear tmp in
           <[(i + 4)%nat := Z.lxor (X !!! i) (linear buf)]> X)
        X (seq 0 32).

(** for (j = 0; j < 4; j++) { Out[4*j] = (X[35-j] >> 24) & 0xFF; ... } *)
Definition store_block (X : list Z) : list Z :=
  foldl (fun Out j =>
           let x := X !!! (35 - j)%nat in
           <[(4 * j + 3)%nat := Z.land x 0xFF]>
             (<[(4 * j + 2)%nat := Z.land (Z.shiftr x 8) 0xFF]>
                (<[(4 * j + 1)%nat := Z.land (Z.shiftr x 16) 0xFF]>
                   (<[(4 * j)%nat := Z.land (Z.shiftr x 24) 0xFF]> Out))))
        (replicate 16 0) (seq 0 4).

(** Encryption function: the 16 bytes written to CipherText *)
Definition SM4_Encrypt (MK PlainText : list Z) : list Z :=
  let rk := SM4_KeySchedule MK in
  let X := load_block PlainText in
  let X := rounds (fun i => rk !!! i) X in
  store_block X.

(** Decryption function: the 16 bytes written to PlainText *)
Definition SM4_Decrypt (MK CipherText : list Z) : list Z :=
  let rk := SM4_KeySchedule MK in
  let X := load_block CipherText in
  let X := rounds (fun i => rk !!! (31 - i)%nat) X in
  store_block X.

End Tables.

End SM4.

(** ** The tables of SM4.h and the vector of [SM4_SelfCheck] *)

Module SM4_h.

(** Modelled from the spec: the S-box of SM4.h, a header that is not among
    the sources; the spec refers to the fixed tables of the SM4
    specification, whose values these are. *)
Definition SM4_Sbox : list Z :=
  [
   0xd6; 0x90; 0xe9; 0xfe; 0xcc; 0xe1; 0x3d; 0xb7; 0x16; 0xb6; 0x14; 0xc2; 0x28; 0xfb; 0x2c; 0x05;
   0x2b; 0x67; 0x9a; 0x76; 0x2a; 0xbe; 0x04; 0xc3; 0xaa; 0x44; 0x13; 0x26; 0x49; 0x86; 0x06; 0x99;
   0x9c; 0x42; 0x50; 0xf4; 0x91; 0xef; 0x98; 0x7a; 0x33; 0x54; 0x0b; 0x43; 0xed; 0xcf; 0xac; 0x62;
   0xe4; 0xb3; 0x1c; 0xa9; 0xc9; 0x08; 0xe8; 0x95; 0x80; 0xdf; 0x94; 0xfa; 0x75; 0x8f; 0x3f; 0xa6;
   0x47; 0x07; 0xa7; 0xfc; 0xf3; 0x73; 0x17; 0xba; 0x83; 0x59; 0x3c; 0x19; 0xe6; 0x85; 0x4f; 0xa8;
   0x68; 0x6b; 0x81; 0xb2; 0x71; 0x64; 0xda; 0x8b; 0xf8; 0xeb; 0x0f; 0x4b; 0x70; 0x56; 0x9d; 0x35;
   0x1e; 0x24; 0x0e; 0x5e; 0x63; 0x58; 0xd1; 0xa2; 0x25; 0x22; 0x7c; 0x3b; 0x01; 0x21; 0x78; 0x87;
   0xd4; 0x00; 0x46; 0x57; 0x9f; 0xd3; 0x27; 0x52; 0x4c; 0x36; 0x02; 0xe7; 0xa0; 0xc4; 0xc8; 0x9e;
   0xea; 0xbf; 0x8a; 0xd2; 0x40; 0xc7; 0x38; 0xb5; 0xa3; 0xf7; 0xf2; 0xce; 0xf9; 0x61; 0x15; 0xa1;
   0xe0; 0xae; 0x5d; 0xa4; 0x9b; 0x34; 0x1a; 0x55; 0xad; 0x93; 0x32; 0x30; 0xf5; 0x8c; 0xb1; 0xe3;
   0x1d; 0xf6; 0xe2; 0x2e; 0x82; 0x66; 0xca; 0x60; 0xc0; 0x29; 0x23; 0xab; 0x0d; 0x53; 0x4e; 0x6f;
   0xd5; 0xdb; 0x37; 0x45; 0xde; 0xfd; 0x8e; 0x2f; 0x03; 0xff; 0x6a; 0x72; 0x6d; 0x6c; 0x5b; 0x51;
   0x8d; 0x1b; 0xaf; 0x92; 0xbb; 0xdd; 0xbc; 0x7f; 0x11; 0xd9; 0x5c; 0x41; 0x1f; 0x10; 0x5a; 0xd8;
   0x0a; 0xc1; 0x31; 0x88; 0xa5; 0xcd; 0x7b; 0xbd; 0x2d; 0x74; 0xd0; 0x12; 0xb8; 0xe5; 0xb4; 0xb0;
   0x89; 0x69; 0x97; 0x4a; 0x0c; 0x96; 0x77; 0x7e; 0x65; 0xb9; 0xf1; 0x09; 0xc5; 0x6e; 0xc6; 0x84;
   0x18; 0xf0; 0x7d; 0xec; 0x3a; 0xdc; 0x4d; 0x20; 0x79; 0xee; 0x5f; 0x3e; 0xd7; 0xcb; 0x39; 0x48 ].

(** Modelled from the spec: the four words FK of SM4.h. *)
Definition SM4_FK : list Z :=
  [
   0xa3b1bac6; 0x56aa3350; 0x677d9197; 0xb27022dc ].

(** Modelled from the spec: the 32 constants CK of SM4.h. *)
Definition SM4_CK : list Z :=
  [
   0x00070e15; 0x1c232a31; 0x383f464d; 0x545b6269;
   0x70777e85; 0x8c939aa1; 0xa8afb6bd; 0xc4cbd2d9;
   0xe0e7eef5; 0xfc030a11; 0x181f262d; 0x343b4249;
   0x50575e65; 0x6c737a81; 0x888f969d; 0xa4abb2b9;
   0xc0c7ced5; 0xdce3eaf1; 0xf8ff060d; 0x141b2229;
   0x30373e45; 0x4c535a61; 0x686f767d; 0x848b9299;
   0xa0a7aeb5; 0xbcc3cad1; 0xd8dfe6ed; 0xf4fb0209;
   0x10171e25; 0x2c333a41; 0x484f565d; 0x646b7279 ].

End SM4_h.

Module SM4_SelfCheck.
Import SM4 SM4_h.

Definition key : list Z :=
  [0x01; 0x23; 0x45; 0x67; 0x89; 0xab; 0xcd; 0xef;
   0xfe; 0xdc; 0xba; 0x98; 0x76; 0x54; 0x32; 0x10].
Definition plain : list Z := key.
Definition cipher : list Z :=
  [0x68; 0x1e; 0xdf; 0x34; 0xd2; 0x06; 0x96; 0x5e;
   0x86; 0xb3; 0xe9; 0x4f; 0x53; 0x6e; 0x42; 0x46].

Example En_output : SM4_Encrypt SM4_Sbox SM4_FK SM4_CK key plain = cipher.
Proof. vm_compute. reflexivity. Qed.

Example De_output : SM4_Decrypt SM4_Sbox SM4_FK SM4_CK key cipher = plain.
Proof. vm_compute. reflexivity. Qed.

End SM4_SelfCheck.

(** ** SM4: decryption inverts encryption *)

Module SM4_inverse.
Import SM4.

Lemma load_be32_u32 (b0 b1 b2 b3 : Z) : is_u32 (load_be32 b0 b1 b2 b3).
Proof. apply u32_is_u32. Qed.

Lemma testbit_byte (b c : Z) : is_u8 b -> 8 <= c -> Z.testbit b c = false.
Proof.
  unfold is_u8. intros Hb Hc.
  destruct (Z.eq_dec b 0) as [-> | Hne]; [apply Z.bits_0|].
  apply Z.bits_above_log2; [lia|]. apply Z.lt_le_trans with 8; [|lia].
  apply Z.log2_lt_pow2; lia.
Qed.

(** Bit [c] of the word loaded from four bytes. *)
Lemma load_be32_testbit (b0 b1 b2 b3 c : Z) :
  is_u8 b0 -> is_u8 b1 -> is_u8 b2 -> is_u8 b3 -> 0 <= c ->
  Z.testbit (load_be32 b0 b1 b2 b3) c
    = if c <? 8 then Z.testbit b3 c
      else if c <? 16 then Z.testbit b2 (c - 8)
      else if c <? 24 then Z.testbit b1 (c - 16)
      else if c <? 32 then Z.testbit b0 (c - 24)
      else false.
Proof.
  intros H0 H1 H2 H3 Hc. unfold load_be32, u32.
  destruct (Z.ltb_spec c 32) as [Hlt | Hge].
  - rewrite Z.mod_pow2_bits_low by lia. rewrite !Z.lor_spec.
    rewrite !Z.shiftl_spec by lia.
    destruct (Z.ltb_spec c 8); [|destruct (Z.ltb_spec c 16); [|destruct (Z.ltb_spec c 24)]].
    + rewrite !(Z.testbit_neg_r _ (c - _)) by lia. reflexivity.
    + rewrite (Z.testbit_neg_r _ (c - 24)), (Z.testbit_neg_r _ (c - 16)) by lia.
      rewrite (testbit_byte b3 c) by (assumption || lia). simpl.
      apply orb_false_r.
    + rewrite (Z.testbit_neg_r _ (c - 24)) by lia.
      rewrite (testbit_byte b3 c), (testbit_byte b2 (c - 8)) by (assumption || lia).
      simpl. rewrite !orb_false_r. reflexivity.
    + rewrite (testbit_byte b3 c), (testbit_byte b2 (c - 8)),
        (testbit_byte b1 (c - 16)) by (assumption || lia).
      rewrite !orb_false_r. reflexivity.
  - rewrite Z.mod_pow2_bits_high by lia.
    destruct (Z.ltb_spec c 8); [lia|]. destruct (Z.ltb_spec c 16); [lia|].
    destruct (Z.ltb_spec c 24); [lia|]. reflexivity.
Qed.

Lemma store_byte_u8 (x n : Z) : is_u8 (Z.land (Z.shiftr x n) 0xFF).
Proof. rewrite land_ff. unfold is_u8. apply Z.mod_pos_bound. lia. Qed.

Lemma store_byte_testbit (x n c : Z) :
  0 <= n -> 0 <= c ->
  Z.testbit (Z.land (Z.shiftr x n) 0xFF) c = (c <? 8) && Z.testbit x (c + n).
Proof.
  intros Hn Hc. rewrite land_ff. destruct (Z.ltb_spec c 8).
  - rewrite Z.mod_pow2_bits_low by lia. rewrite Z.shiftr_spec by lia. reflexivity.
  - rewrite Z.mod_pow2_bits_high by lia. reflexivity.
Qed.

(** Loading the four bytes stored from a 32-bit word gives the word back. *)
Lemma load_store (x : Z) :
  is_u32 x ->
  load_be32 (Z.land (Z.shiftr x 24) 0xFF) (Z.land (Z.shiftr x 16) 0xFF)
            (Z.land (Z.shiftr x 8) 0xFF) (Z.land x 0xFF) = x.
Proof.
  intros Hx. apply Z.bits_inj'. intros c Hc.
  rewrite <- (Z.shiftr_0_r x) at 4.
  rewrite load_be32_testbit by (apply store_byte_u8 || lia).
  destruct (Z.ltb_spec c 8).
  { rewrite store_byte_testbit by lia.
    destruct (Z.ltb_spec c 8); [simpl; f_equal; lia | lia]. }
  destruct (Z.ltb_spec c 16).
  { rewrite store_byte_testbit by lia.
    destruct (Z.ltb_spec (c - 8) 8); [simpl; f_equal; lia | lia]. }
  destruct (Z.ltb_spec c 24).
  { rewrite store_byte_testbit by lia.
    destruct (Z.ltb_spec (c - 16) 8); [simpl; f_equal; lia | lia]. }
  destruct (Z.ltb_spec c 32).
  { rewrite store_byte_testbit by lia.
    destruct (Z.ltb_spec (c - 24) 8); [simpl; f_equal; lia | lia]. }
  symmetry. apply u32_high_bits; [exact Hx | lia].
Qed.

(** Storing the word loaded from four bytes gives the bytes back. *)
Lemma store_load (b0 b1 b2 b3 : Z) :
  is_u8 b0 -> is_u8 b1 -> is_u8 b2 -> is_u8 b3 ->
  store_be32 (load_be32 b0 b1 b2 b3) = [b0; b1; b2; b3].
Proof.
  intros H0 H1 H2 H3. unfold store_be32.
  rewrite <- (Z.shiftr_0_r (load_be32 b0 b1 b2 b3)) at 4.
  assert (Hb : forall n b, 0 <= n -> is_u8 b ->
            (forall c, 0 <= c < 8 ->
               Z.testbit (load_be32 b0 b1 b2 b3) (c + n) = Z.testbit b c) ->
            Z.land (Z.shiftr (load_be32 b0 b1 b2 b3) n) 0xFF = b).
  { intros n b Hn Hb Hbits. apply Z.bits_inj'. intros c Hc.
    rewrite store_byte_testbit by lia. destruct (Z.ltb_spec c 8).
    - simpl. apply Hbits. lia.
    - simpl. symmetry. apply testbit_byte; [exact Hb | lia]. }
  f_equal; [|f_equal; [|f_equal; [|f_equal]]]; apply Hb; try lia; try assumption;
    intros c Hc; rewrite load_be32_testbit by (assumption || lia).
  - destruct (Z.ltb_spec (c + 24) 8); [lia|]. destruct (Z.ltb_spec (c + 24) 16); [lia|].
    destruct (Z.ltb_spec (c + 24) 24); [lia|]. destruct (Z.ltb_spec (c + 24) 32); [|lia].
    f_equal. lia.
  - destruct (Z.ltb_spec (c + 16) 8); [lia|]. destruct (Z.ltb_spec (c + 16) 16); [lia|].
    destruct (Z.ltb_spec (c + 16) 24); [|lia]. f_equal. lia.
  - destruct (Z.ltb_spec (c + 8) 8); [lia|]. destruct (Z.ltb_spec (c + 8) 16); [|lia].
    f_equal. lia.
  - destruct (Z.ltb_spec (c + 0) 8); [|lia]. f_equal. lia.
Qed.

Section Tables.
Variables SM4_Sbox SM4_FK SM4_CK : list Z.

(** The value round [i] stores in X[i + 4]. *)
Definition round_value (key : nat -> Z) (X : list Z) (i : nat) : Z :=
  Z.lxor (X !!! i)
    (linear (nonlinear SM4_Sbox
       (Z.lxor (Z.lxor (Z.lxor (X !!! (i + 1)%nat) (X !!! (i + 2)%nat))
                       (X !!! (i + 3)%nat)) (key i)))).

(** [X] is a run of the rounds: each X[i + 4] is what round [i] computes
    from X[i .. i + 3]. *)
Definition is_run (key : nat -> Z) (X : list Z) : Prop :=
  forall i : nat, (i < 32)%nat -> X !!! (i + 4)%nat = round_value key X i.

Lemma rounds_prefix (key : nat -> Z) (X : list Z) (n : nat) :
  length X = 36%nat -> (n <= 32)%nat ->
  let R := foldl (fun X i => <[(i + 4)%nat := round_value key X i]> X) X (seq 0 n) in
  length R = 36%nat /\
  (forall j : nat, (j < 4 \/ n + 4 <= j)%nat -> R !!! j = X !!! j) /\
  (forall i : nat, (i < n)%nat -> R !!! (i + 4)%nat = round_value key R i).
Proof.
  intros Hlen. induction n as [|n IH]; intros Hn R.
  - repeat split; [exact Hlen | lia].
  - subst R. rewrite seq_S, foldl_app.
    destruct (IH ltac:(lia)) as (HlenR & Hfix & Hrun). clear IH.
    cbv zeta in HlenR, Hfix, Hrun.
    set (R := foldl _ X (seq 0 n)) in *. simpl.
    assert (Hsame : forall i : nat, (i <= n)%nat ->
              round_value key (<[(n + 4)%nat := round_value key R n]> R) i
                = round_value key R i).
    { intros i Hi. unfold round_value.
      rewrite !list_lookup_total_insert_ne by lia. reflexivity. }
    split; [rewrite length_insert; exact HlenR|]. split.
    + intros j Hj. rewrite list_lookup_total_insert_ne by lia. apply Hfix. lia.
    + intros i Hi. rewrite Hsame by lia.
      destruct (decide (i = n)) as [-> | Hne].
      * apply list_lookup_total_insert_eq. lia.
      * rewrite list_lookup_total_insert_ne by lia. apply Hrun. lia.
Qed.

(** The 32 rounds keep the four loaded words and produce a run. *)
Lemma rounds_run (key : nat -> Z) (X : list Z) :
  length X = 36%nat ->
  length (rounds SM4_Sbox key X) = 36%nat /\
  (forall j : nat, (j < 4)%nat -> rounds SM4_Sbox key X !!! j = X !!! j) /\
  is_run key (rounds SM4_Sbox key X).
Proof.
  intros Hlen. destruct (rounds_prefix key X 32 Hlen ltac:(lia)) as (H1 & H2 & H3).
  split; [exact H1|]. split; [|exact H3]. intros j Hj. apply H2. lia.
Qed.

Lemma nonlinear_u32 (tmp : Z) : is_u32 (nonlinear SM4_Sbox tmp).
Proof. apply u32_is_u32. Qed.

Lemma linear_u32 (buf : Z) : is_u32 buf -> is_u32 (linear buf).
Proof.
  intros Hb. unfold linear.
  repeat apply lxor_u32; try apply rotl32_u32; try assumption; lia.
Qed.

(** Every word of a run that starts from 32-bit words is a 32-bit word. *)
Lemma run_u32 (key : nat -> Z) (X : list Z) :
  is_run key X -> (forall j : nat, (j < 4)%nat -> is_u32 (X !!! j)) ->
  forall j : nat, (j < 36)%nat -> is_u32 (X !!! j).
Proof.
  intros Hrun H4 j. induction j as [j IH] using lt_wf_ind. intros Hj.
  destruct (decide (j < 4)%nat) as [Hlt | Hge]; [apply H4, Hlt|].
  replace j with (j - 4 + 4)%nat by lia. rewrite Hrun by lia.
  apply lxor_u32; [apply IH; lia|]. apply linear_u32, nonlinear_u32.
Qed.

(** A run under the round keys read backwards, started from the last four
    words of a run in reverse order, is that run read backwards. *)
Lemma run_reversed (rk : nat -> Z) (E D : list Z) :
  is_run rk E -> is_run (fun i => rk (31 - i)%nat) D ->
  (forall j : nat, (j < 4)%nat -> D !!! j = E !!! (35 - j)%nat) ->
  forall j : nat, (j < 36)%nat -> D !!! j = E !!! (35 - j)%nat.
Proof.
  intros HE HD H4 j. induction j as [j IH] using lt_wf_ind. intros Hj.
  destruct (decide (j < 4)%nat) as [Hlt | Hge]; [apply H4, Hlt|].
  replace j with (j - 4 + 4)%nat at 1 by lia. rewrite HD by lia.
  unfold round_value. rewrite !IH by lia.
  replace (35 - j)%nat with (31 - (j - 4))%nat by lia.
  set (i := (31 - (j - 4))%nat).
  replace (35 - (j - 4))%nat with (i + 4)%nat by lia.
  replace (35 - (j - 4 + 1))%nat with (i + 3)%nat by lia.
  replace (35 - (j - 4 + 2))%nat with (i + 2)%nat by lia.
  replace (35 - (j - 4 + 3))%nat with (i + 1)%nat by lia.
  rewrite (HE i) by lia. unfold round_value.
  set (a := E !!! (i + 1)%nat). set (b := E !!! (i + 2)%nat).
  set (c := E !!! (i + 3)%nat).
  replace (Z.lxor (Z.lxor (Z.lxor c b) a) (rk i))
    with (Z.lxor (Z.lxor (Z.lxor a b) c) (rk i)).
  - rewrite Z.lxor_assoc, Z.lxor_nilpotent, Z.lxor_0_r. reflexivity.
  - f_equal. rewrite (Z.lxor_comm c b), (Z.lxor_comm (Z.lxor b c) a).
    rewrite Z.lxor_assoc. reflexivity.
Qed.

Lemma load_block_words (In : list Z) :
  load_block In
    = [ load_be32 (In !!! 0%nat) (In !!! 1%nat) (In !!! 2%nat) (In !!! 3%nat);
        load_be32 (In !!! 4%nat) (In !!! 5%nat) (In !!! 6%nat) (In !!! 7%nat);
        load_be32 (In !!! 8%nat) (In !!! 9%nat) (In !!! 10%nat) (In !!! 11%nat);
        load_be32 (In !!! 12%nat) (In !!! 13%nat) (In !!! 14%nat) (In !!! 15%nat) ]
      ++ replicate 32 0.
Proof. reflexivity. Qed.

Lemma store_block_words (X : list Z) :
  store_block X
    = store_be32 (X !!! 35%nat) ++ store_be32 (X !!! 34%nat)
      ++ store_be32 (X !!! 33%nat) ++ store_be32 (X !!! 32%nat).
Proof. reflexivity. Qed.

Lemma rounds_unfold (key : nat -> Z) (X : list Z) :
  rounds SM4_Sbox key X
    = foldl (fun X i => <[(i + 4)%nat := round_value key X i]> X) X (seq 0 32).
Proof. reflexivity. Qed.

(** Encryption and decryption as one transformation of a block under a
    list of 32 round keys, applied in the order of the list. *)
Definition SM4_crypt (rk In : list Z) : list Z :=
  store_block (rounds SM4_Sbox (fun i => rk !!! i) (load_block In)).

Lemma rounds_ext (key1 key2 : nat -> Z) (X : list Z) :
  (forall i : nat, (i < 32)%nat -> key1 i = key2 i) ->
  rounds SM4_Sbox key1 X = rounds SM4_Sbox key2 X.
Proof.
  intros Hk. unfold rounds.
  assert (Hall : Forall (fun i => (i < 32)%nat) (seq 0 32)).
  { apply Forall_forall. intros i Hi. apply elem_of_seq in Hi. lia. }
  revert X Hall. generalize (seq 0 32) as l.
  induction l as [|i l IH]; intros X Hall; [reflexivity|].
  apply Forall_cons in Hall as [Hi Hall]. simpl. rewrite (Hk i Hi). apply IH, Hall.
Qed.

Lemma KeySchedule_length (MK : list Z) :
  length (SM4_KeySchedule SM4_Sbox SM4_FK SM4_CK MK) = 32%nat.
Proof.
  unfold SM4_KeySchedule.
  match goal with |- context [foldl ?f (?K0, replicate 32 0) (seq 0 32)] =>
    generalize K0; intros K;
    assert (H : forall l (st : list Z * list Z),
              length (snd (foldl f st l)) = length (snd st)) end.
  { induction l as [|i l IH]; intros [K' rk]; [reflexivity|].
    simpl foldl. rewrite IH. simpl. apply length_insert. }
  rewrite H. reflexivity.
Qed.

(** C3. For every key and every 16-byte block B, decrypting the encryption
    of B gives B; encryption runs the 32 rounds under rk[0..31] and
    decryption runs the same rounds under the round keys in reverse
    order. *)
Theorem SM4_Decrypt_Encrypt (MK B : list Z) :
  length B = 16%nat -> Forall is_u8 B ->
  let rk := SM4_KeySchedule SM4_Sbox SM4_FK SM4_CK MK in
  (forall In : list Z,
     SM4_Encrypt SM4_Sbox SM4_FK SM4_CK MK In = SM4_crypt rk In) /\
  (forall In : list Z,
     SM4_Decrypt SM4_Sbox SM4_FK SM4_CK MK In = SM4_crypt (reverse rk) In) /\
  SM4_Decrypt SM4_Sbox SM4_FK SM4_CK MK
    (SM4_Encrypt SM4_Sbox SM4_FK SM4_CK MK B) = B.
Proof.
  intros Hlen HB rk.
  split; [reflexivity|]. split.
  { intros In. unfold SM4_Decrypt, SM4_crypt. fold rk.
    pose proof (KeySchedule_length MK) as Hrk. fold rk in Hrk.
    clearbody rk. apply (f_equal store_block).
    apply rounds_ext. intros i Hi. symmetry.
    apply list_lookup_total_correct. rewrite reverse_lookup by lia.
    rewrite Hrk. replace (32 - S i)%nat with (31 - i)%nat by lia.
    apply list_lookup_lookup_total_lt. lia. }
  unfold SM4_Decrypt, SM4_Encrypt. fold rk. clearbody rk.
  pose proof (rounds_run (fun i => rk !!! i) (load_block B) eq_refl)
    as (HlenE & HE4 & HErun).
  remember (rounds SM4_Sbox (fun i => rk !!! i) (load_block B)) as E eqn:HeqE.
  clear HeqE.
  assert (HEu : forall j : nat, (j < 36)%nat -> is_u32 (E !!! j)).
  { apply (run_u32 (fun i => rk !!! i)); [exact HErun|].
    intros j Hj. rewrite HE4 by exact Hj. rewrite load_block_words.
    do 4 (destruct j as [|j]; [apply load_be32_u32|]). lia. }
  pose proof (store_block_words E) as HC.
  remember (store_block E) as C eqn:HeqC. clear HeqC.
  pose proof (rounds_run (fun i => rk !!! (31 - i)%nat) (load_block C) eq_refl)
    as (HlenD & HD4 & HDrun).
  remember (rounds SM4_Sbox (fun i => rk !!! (31 - i)%nat) (load_block C))
    as D eqn:HeqD.
  clear HeqD.
  assert (HD0 : forall j : nat, (j < 4)%nat -> D !!! j = E !!! (35 - j)%nat).
  { intros j Hj. rewrite HD4 by exact Hj. rewrite load_block_words, HC.
    unfold store_be32.
    do 4 (destruct j as [|j];
          [cbn [lookup_total list_lookup_total app Nat.sub];
           apply load_store, HEu; lia|]).
    lia. }
  pose proof (run_reversed (fun i => rk !!! i) E D HErun HDrun HD0) as Hrev.
  rewrite store_block_words.
  rewrite (Hrev 35%nat), (Hrev 34%nat), (Hrev 33%nat), (Hrev 32%nat) by lia.
  cbn [Nat.sub].
  rewrite (HE4 0%nat), (HE4 1%nat), (HE4 2%nat), (HE4 3%nat) by lia.
  rewrite load_block_words.
  do 17 (destruct B as [|? B]; try discriminate Hlen).
  repeat match goal with H : Forall is_u8 (_ :: _) |- _ =>
    apply Forall_cons in H; destruct H as [? H] end.
  cbn [lookup_total list_lookup_total app].
  rewrite !store_load by assumption. reflexivity.
Qed.

End Tables.

(** The theorem on the key and plain text of [SM4_SelfCheck]. *)
Lemma SM4_Decrypt_Encrypt_witness :
  SM4_Decrypt SM4_h.SM4_Sbox SM4_h.SM4_FK SM4_h.SM4_CK SM4_SelfCheck.key
    (SM4_Encrypt SM4_h.SM4_Sbox SM4_h.SM4_FK SM4_h.SM4_CK SM4_SelfCheck.key
       SM4_SelfCheck.plain) = SM4_SelfCheck.plain.
Proof.
  assert (Hu : Forall is_u8 SM4_SelfCheck.plain).
  { repeat constructor; unfold is_u8; lia. }
  pose proof (SM4_Decrypt_Encrypt SM4_h.SM4_Sbox SM4_h.SM4_FK SM4_h.SM4_CK
                SM4_SelfCheck.key SM4_SelfCheck.plain eq_refl Hu) as H.
  cbv zeta in H. destruct H as (_ & _ & H). exact H.
Defined.

End SM4_inverse.

(** * The big-number backend (MIRACL)

    The SM2 sources compute on MIRACL's [big] numbers and [epoint]s. The big
    numbers the sources handle are non-negative integers: [add], [multiply],
    [incr], [decr], [subtract], [compare] are those of [Z]; [divide (x, n,
    _)] leaves x mod n in x; [power (x, e, p, w)] is w = x^e mod p. *)

Module MIRACL.

(** The width in bytes of field elements and scalars. *)
Definition SM2_NUMWORD : nat := 32.

(** Modelled from the spec: the backend's [from_bytes(be, width)], MIRACL's
    [bytes_to_big (len, ptr, x)]: the big-endian value of the first [len]
    bytes at [ptr]. *)
Definition bytes_to_big (len : nat) (ptr : list Z) : Z :=
  foldl (fun acc b => acc * 256 + b) 0 (take len ptr).

(** Modelled from the spec: the backend's [to_bytes(be, width)], MIRACL's
    [big_to_bytes (max, x, ptr, TRUE)]: x as exactly [max] bytes, big-endian,
    with leading zeros. *)
Definition big_to_bytes (max : nat) (x : Z) : list Z :=
  (fun i : nat => (x / 256 ^ Z.of_nat (max - 1 - i)) mod 256) <$> seq 0 max.

(** The extended Euclidean loop on (r0, r1) with the cofactors (s0, s1) of
    x modulo y. *)
Fixpoint egcd_loop (fuel : nat) (r0 r1 s0 s1 : Z) : Z * Z :=
  match fuel with
  | O => (r0, s0)
  | S fuel =>
      if r1 =? 0 then (r0, s0)
      else let q := r0 / r1 in
           egcd_loop fuel r1 (r0 - q * r1) s1 (s0 - q * s1)
  end.

(** Modelled from the spec: the backend's [xgcd] (for modular inverse), as
    the sources call it, [xgcd (x, y, x, x, x)]: x becomes xd in [[0, y)]
    with x * xd = gcd (x, y) modulo y. *)
Definition xgcd (x y : Z) : Z :=
  snd (egcd_loop (2 * (Z.to_nat (Z.log2 y) + 1)) y (x mod y) 0 1) mod y.

End MIRACL.

Module MIRACL_facts.
Import MIRACL.

Lemma bytes_to_big_snoc (bs : list Z) (b : Z) :
  foldl (fun acc b => acc * 256 + b) 0 (bs ++ [b])
    = foldl (fun acc b => acc * 256 + b) 0 bs * 256 + b.
Proof. rewrite foldl_app. reflexivity. Qed.

Lemma big_to_bytes_length (max : nat) (x : Z) :
  length (big_to_bytes max x) = max.
Proof. unfold big_to_bytes. rewrite length_fmap, length_seq. reflexivity. Qed.

Lemma big_to_bytes_u8 (max : nat) (x : Z) : Forall is_u8 (big_to_bytes max x).
Proof.
  unfold big_to_bytes. apply Forall_fmap, Forall_forall. intros i _.
  unfold is_u8. simpl. apply Z.mod_pos_bound. lia.
Qed.

Lemma big_to_bytes_S (max : nat) (x : Z) :
  big_to_bytes (S max) x = big_to_bytes max (x / 256) ++ [x mod 256].
Proof.
  unfold big_to_bytes. rewrite seq_S, fmap_app. simpl. f_equal.
  - apply list_fmap_ext. intros j i Hi. apply lookup_seq in Hi as [-> Hj].
    simpl. replace (max - 0 - j)%nat with (S (max - 1 - j)) by lia.
    rewrite Nat2Z.inj_succ, Z.pow_succ_r by lia.
    rewrite Z.div_div by (try apply Z.pow_pos_nonneg; lia).
    reflexivity.
  - replace (max - 0 - max)%nat with 0%nat by lia. simpl.
    rewrite Z.div_1_r. reflexivity.
Qed.

(** Reading back the bytes written from a number that fits gives the
    number. *)
Lemma bytes_to_big_to_bytes (max : nat) (x : Z) :
  0 <= x < 256 ^ Z.of_nat max ->
  bytes_to_big max (big_to_bytes max x) = x.
Proof.
  unfold bytes_to_big. rewrite firstn_all2 by (rewrite big_to_bytes_length; lia).
  revert x. induction max as [|max IH]; intros x Hx.
  - simpl in *. lia.
  - rewrite big_to_bytes_S, bytes_to_big_snoc.
    rewrite Nat2Z.inj_succ, Z.pow_succ_r in Hx by lia.
    rewrite IH.
    + pose proof (Z.div_mod x 256 ltac:(lia)). lia.
    + split; [apply Z.div_pos; lia|]. apply Z.div_lt_upper_bound; lia.
Qed.

Lemma bytes_to_big_nonneg (len : nat) (ptr : list Z) :
  Forall is_u8 ptr -> 0 <= bytes_to_big len ptr.
Proof.
  intros H. unfold bytes_to_big.
  assert (Ht : Forall is_u8 (take len ptr)) by (apply Forall_take, H).
  induction (take len ptr) as [|b bs IH] using rev_ind; [reflexivity|].
  rewrite bytes_to_big_snoc. apply Forall_app in Ht as [Hbs Hb].
  apply Forall_inv in Hb. unfold is_u8 in Hb. specialize (IH Hbs).
  apply Z.add_nonneg_nonneg; [apply Z.mul_nonneg_nonneg; [exact IH | lia] | lia].
Qed.

(** The loop keeps r = s * x modulo y for both pairs. *)
Lemma egcd_loop_cofactor (x y : Z) (fuel : nat) (r0 r1 s0 s1 : Z) :
  (r0 - s0 * x) mod y = 0 -> (r1 - s1 * x) mod y = 0 ->
  let '(g, s) := egcd_loop fuel r0 r1 s0 s1 in (g - s * x) mod y = 0.
Proof.
  revert r0 r1 s0 s1. induction fuel as [|fuel IH]; intros r0 r1 s0 s1 H0 H1.
  - exact H0.
  - simpl. destruct (r1 =? 0); [exact H0|]. apply IH; [exact H1|].
    replace (r0 - r0 / r1 * r1 - (s0 - r0 / r1 * s1) * x)
      with ((r0 - s0 * x) - (r0 / r1) * (r1 - s1 * x)) by ring.
    rewrite Zminus_mod, H0, Zmult_mod, H1, Z.mul_0_r. reflexivity.
Qed.

(** With fuel above the binary length of r0 * r1 the loop returns the
    gcd. *)
Lemma egcd_loop_gcd (fuel : nat) (r0 r1 s0 s1 : Z) :
  0 <= r1 <= r0 -> r0 * r1 < 2 ^ Z.of_nat fuel ->
  fst (egcd_loop fuel r0 r1 s0 s1) = Z.gcd r0 r1.
Proof.
  revert r0 r1 s0 s1. induction fuel as [|fuel IH]; intros r0 r1 s0 s1 Hr Hf.
  - simpl in *. assert (r1 = 0) by nia. subst r1.
    rewrite Z.gcd_0_r, Z.abs_eq by lia. reflexivity.
  - simpl. destruct (Z.eqb_spec r1 0) as [-> | Hne].
    + simpl. rewrite Z.gcd_0_r, Z.abs_eq by lia. reflexivity.
    + pose proof (Z.mod_pos_bound r0 r1 ltac:(lia)) as Hm.
      pose proof (Z.div_mod r0 r1 Hne) as Hdm.
      assert (Hq : 1 <= r0 / r1) by (apply Z.div_le_lower_bound; lia).
      replace (r0 - r0 / r1 * r1) with (r0 mod r1) by lia.
      rewrite IH.
      * rewrite (Z.gcd_comm r1 (r0 mod r1)), Z.gcd_mod by exact Hne.
        apply Z.gcd_comm.
      * lia.
      * rewrite Nat2Z.inj_succ, Z.pow_succ_r in Hf by lia. nia.
Qed.

(** [xgcd x y] is the inverse of x modulo y when x and y are coprime. *)
Lemma xgcd_inverse (x y : Z) :
  1 < y -> Z.gcd x y = 1 ->
  0 <= xgcd x y < y /\ (x * xgcd x y) mod y = 1.
Proof.
  intros Hy Hg. unfold xgcd.
  set (fuel := (2 * (Z.to_nat (Z.log2 y) + 1))%nat).
  assert (Hfuel : Z.of_nat fuel = (Z.log2 y + 1) + (Z.log2 y + 1)).
  { pose proof (Z.log2_nonneg y). unfold fuel. lia. }
  clearbody fuel.
  pose proof (Z.mod_pos_bound x y ltac:(lia)) as Hxm.
  pose proof (egcd_loop_cofactor x y fuel y (x mod y) 0 1) as Hc.
  pose proof (egcd_loop_gcd fuel y (x mod y) 0 1 ltac:(lia)) as Hgcd.
  destruct (egcd_loop fuel y (x mod y) 0 1) as [g s]. simpl in *.
  assert (Hg' : g = 1).
  { rewrite Hgcd.
    - rewrite Z.gcd_comm, Z.gcd_mod by lia. rewrite Z.gcd_comm. exact Hg.
    - rewrite Hfuel.
      rewrite Z.pow_add_r by (pose proof (Z.log2_nonneg y); lia).
      pose proof (Z.log2_spec y ltac:(lia)) as Hl.
      replace (Z.succ (Z.log2 y)) with (Z.log2 y + 1) in Hl by lia. nia. }
  subst g. split; [apply Z.mod_pos_bound; lia|].
  rewrite Z.mul_mod_idemp_r by lia.
  assert (Hs : (1 - s * x) mod y = 0).
  { apply Hc.
    - replace (y - 0 * x) with (1 * y) by lia. apply Z.mod_mul. lia.
    - replace (x mod y - 1 * x) with (- (x / y) * y)
        by (pose proof (Z.div_mod x y ltac:(lia)); lia).
      apply Z.mod_mul. lia. }
  apply Z.mod_divide in Hs; [|lia]. destruct Hs as [c Hs].
  replace (x * s) with (1 + (- c) * y) by lia.
  rewrite Z.mod_add by lia. apply Z.mod_small. lia.
Qed.

End MIRACL_facts.

(** * The interfaces the SM2 sources are written against *)

(** The elliptic-curve part of MIRACL, on the active curve that
    [ecurve_init (a, b, p, MR_PROJECTIVE)] selects. [epoint_set x y] is
    [epoint_set (x, y, 0, P)]: [None] when it returns FALSE ((x, y) is not on
    the curve); [ecurve_add P Q] is the value of Q after
    [ecurve_add (P, Q)]. *)
Class Curve : Type := {
  epoint : Type;
  epoint_init : epoint;
  epoint_set : Z -> Z -> option epoint;
  epoint_get : epoint -> Z * Z;
  ecurve_mult : Z -> epoint -> epoint;
  ecurve_add : epoint -> epoint -> epoint;
  point_at_infinity : epoint -> bool
}.

(** SM3.c is not among the sources; its interface is that of SM3.h, as KDF.h
    lists it: [SM3_process md buf] is [SM3_process (&md, buf, len)] on the
    [len] bytes at [buf], [SM3_done md] the 32 bytes written to the hash. *)
Class Hash : Type := {
  SM3_STATE : Type;
  SM3_init : SM3_STATE;
  SM3_process : SM3_STATE -> list Z -> SM3_STATE;
  SM3_done : SM3_STATE -> list Z
}.

(** The curve parameters of the headers (SM2_sv.h, SM2_ENC.h), 32 bytes
    each. *)
Class Params : Type := {
  SM2_p : list Z;
  SM2_a : list Z;
  SM2_b : list Z;
  SM2_n : list Z;
  SM2_Gx : list Z;
  SM2_Gy : list Z;
  SM2_h : list Z
}.

(** The header's values. *)
Definition GMT_params : Params := {|
  SM2_p := [0xff; 0xff; 0xff; 0xfe; 0xff; 0xff; 0xff; 0xff; 0xff; 0xff; 0xff; 0xff; 0xff; 0xff; 0xff; 0xff;
            0xff; 0xff; 0xff; 0xff; 0x00; 0x00; 0x00; 0x00; 0xff; 0xff; 0xff; 0xff; 0xff; 0xff; 0xff; 0xff];
  SM2_a := [0xff; 0xff; 0xff; 0xfe; 0xff; 0xff; 0xff; 0xff; 0xff; 0xff; 0xff; 0xff; 0xff; 0xff; 0xff; 0xff;
            0xff; 0xff; 0xff; 0xff; 0x00; 0x00; 0x00; 0x00; 0xff; 0xff; 0xff; 0xff; 0xff; 0xff; 0xff; 0xfc];
  SM2_b := [0x28; 0xe9; 0xfa; 0x9e; 0x9d; 0x9f; 0x5e; 0x34; 0x4d; 0x5a; 0x9e; 0x4b; 0xcf; 0x65; 0x09; 0xa7;
            0xf3; 0x97; 0x89; 0xf5; 0x15; 0xab; 0x8f; 0x92; 0xdd; 0xbc; 0xbd; 0x41; 0x4d; 0x94; 0x0e; 0x93];
  SM2_n := [0xff; 0xff; 0xff; 0xfe; 0xff; 0xff; 0xff; 0xff; 0xff; 0xff; 0xff; 0xff; 0xff; 0xff; 0xff; 0xff;
            0x72; 0x03; 0xdf; 0x6b; 0x21; 0xc6; 0x05; 0x2b; 0x53; 0xbb; 0xf4; 0x09; 0x39; 0xd5; 0x41; 0x23];
  SM2_Gx := [0x32; 0xc4; 0xae; 0x2c; 0x1f; 0x19; 0x81; 0x19; 0x5f; 0x99; 0x04; 0x46; 0x6a; 0x39; 0xc9; 0x94;
             0x8f; 0xe3; 0x0b; 0xbf; 0xf2; 0x66; 0x0b; 0xe1; 0x71; 0x5a; 0x45; 0x89; 0x33; 0x4c; 0x74; 0xc7];
  SM2_Gy := [0xbc; 0x37; 0x36; 0xa2; 0xf4; 0xf6; 0x77; 0x9c; 0x59; 0xbd; 0xce; 0xe3; 0x6b; 0x69; 0x21; 0x53;
             0xd0; 0xa9; 0x87; 0x7c; 0xc6; 0x2a; 0x47; 0x40; 0x02; 0xdf; 0x32; 0xe5; 0x21; 0x39; 0xf0; 0xa0];
  SM2_h := replicate 31 0x00 ++ [0x01]
|}.

(** * KDF.h *)

Module KDF.
Import MIRACL.

(** memcpy (buf + off, src, n) into the array [buf]; [None] is a copy that
    leaves the array or reads past [src]. *)
Definition memcpy (buf : list Z) (off : Z) (src : list Z) (n : Z)
  : option (list Z) :=
  if (0 <=? off) && (0 <=? n) && (off + n <=? Z.of_nat (length buf))
     && (n <=? Z.of_nat (length src))
  then Some (take (Z.to_nat off) buf ++ take (Z.to_nat n) src
             ++ drop (Z.to_nat (off + n)) buf)
  else None.

(** The nested increments of the counter ct[4]. *)
Definition ct_incr (ct : list Z) : list Z :=
  if ct !!! 3%nat =? 0xff then
    let ct := <[3%nat := 0]> ct in
    if ct !!! 2%nat =? 0xff then
      let ct := <[2%nat := 0]> ct in
      if ct !!! 1%nat =? 0xff then
        let ct := <[1%nat := 0]> ct in
        <[0%nat := u8 (ct !!! 0%nat + 1)]> ct
      else <[1%nat := u8 (ct !!! 1%nat + 1)]> ct
    else <[2%nat := u8 (ct !!! 2%nat + 1)]> ct
  else <[3%nat := u8 (ct !!! 3%nat + 1)]> ct.

Section WithHash.
Context {hash : Hash}.

(** SM3_init; SM3_process (Z, zlen); SM3_process (ct, 4); SM3_done (Ha) *)
Definition Ha_of (Z_ : list Z) (zlen : Z) (ct : list Z) : list Z :=
  SM3_done (SM3_process (SM3_process SM3_init (take (Z.to_nat zlen) Z_))
                        (take 4 ct)).

(** The loop for (i = 1; i < t; i++), from [i] on for [n] passes. *)
Fixpoint KDF_loop (Z_ : list Z) (zlen : Z) (K : Z) (n : nat) (i : Z)
    (ct buf : list Z) : option (list Z * list Z) :=
  match n with
  | O => Some (ct, buf)
  | S n' =>
      let Ha := Ha_of Z_ zlen ct in
      buf ← memcpy buf (K + Z.of_nat SM2_NUMWORD * (i - 1)) Ha (Z.of_nat SM2_NUMWORD);
      KDF_loop Z_ zlen K n' (i + 1) (ct_incr ct) buf
  end.

(** key derivation function. [zlen] and [klen] are the values of the
    [unsigned short] parameters; the output array K is the array [buf] from
    offset [K] on. The result is [buf] on return. *)
Definition SM3_KDF (Z_ : list Z) (zlen klen : Z) (buf : list Z) (K : Z)
  : option (list Z) :=
  let SM2_NUMBITS := 256 in
  let bitklen := u32 (klen * 8) in
  let t :=
    if Z.rem bitklen SM2_NUMBITS =? 0 then u16 (Z.quot bitklen SM2_NUMBITS)
    else u16 (Z.quot bitklen SM2_NUMBITS + 1) in
  '(ct, buf) ← KDF_loop Z_ zlen K (Z.to_nat (t - 1)) 1 [0; 0; 0; 1] buf;
  let Ha := Ha_of Z_ zlen ct in
  if Z.rem bitklen SM2_NUMBITS =? 0
  then memcpy buf (K + Z.of_nat SM2_NUMWORD * (t - 1)) Ha (Z.of_nat SM2_NUMWORD)
  else
    let j := u16 (Z.quot (bitklen - SM2_NUMBITS * Z.quot bitklen SM2_NUMBITS) 8) in
    memcpy buf (K + Z.of_nat SM2_NUMWORD * (t - 1)) Ha j.

(** SM3_256 (buf, len, hash): calls SM3_init, SM3_process and SM3_done. *)
Definition SM3_256 (buf : list Z) (len : Z) : list Z :=
  SM3_done (SM3_process SM3_init (take (Z.to_nat len) buf)).

End WithHash.

End KDF.

(** * SM2_sv.c *)

Module SM2_sv.
Import MIRACL KDF.

(** The error codes of SM2_sv.h. *)
Definition ERR_ECURVE_INIT : Z := 0x00000001.
Definition ERR_INFINITY_POINT : Z := 0x00000002.
Definition ERR_NOT_VALID_POINT : Z := 0x00000003.
Definition ERR_ORDER : Z := 0x00000004.
Definition ERR_NOT_VALID_ELEMENT : Z := 0x00000005.
Definition ERR_GENERATE_R : Z := 0x00000006.
Definition ERR_GENERATE_S : Z := 0x00000007.
Definition ERR_OUTRANGE_R : Z := 0x00000008.
Definition ERR_OUTRANGE_S : Z := 0x00000009.
Definition ERR_GENERATE_T : Z := 0x0000000A.
Definition ERR_PUBKEY_INIT : Z := 0x0000000B.
Definition ERR_DATA_MEMCMP : Z := 0x0000000C.

(** SM3_len / 8, with SM3_len = 256 of SM3.h. *)
Definition SM3_len_8 : nat := 32.

Section WithBackend.
Context {curve : Curve} {hash : Hash} {params : Params}.

(** The globals of SM2_sv.h: big Gx, Gy, p, a, b, n; epoint *G, *nG. *)
Record globals : Type := {
  Gx : Z; Gy : Z; p : Z; a : Z; b : Z; n : Z;
  G : epoint; nG : epoint
}.

(** Initiate SM2 curve: the return value and the globals on return. *)
Definition SM2_Init : Z * globals :=
  let Gx := bytes_to_big SM2_NUMWORD SM2_Gx in
  let Gy := bytes_to_big SM2_NUMWORD SM2_Gy in
  let p := bytes_to_big SM2_NUMWORD SM2_p in
  let a := bytes_to_big SM2_NUMWORD SM2_a in
  let b := bytes_to_big SM2_NUMWORD SM2_b in
  let n := bytes_to_big SM2_NUMWORD SM2_n in
  let st G nG := {| Gx := Gx; Gy := Gy; p := p; a := a; b := b; n := n;
                    G := G; nG := nG |} in
  match epoint_set Gx Gy with
  | None => (ERR_ECURVE_INIT, st epoint_init epoint_init)
  | Some G =>
      let nG := ecurve_mult n G in
      if negb (point_at_infinity nG) then (ERR_ORDER, st G nG)
      else (0, st G nG)
  end.

(** test if the given point is on SM2 curve *)
Definition Test_Point (g : globals) (point : epoint) : Z :=
  let '(x, y) := epoint_get point in
  let x_3 := x ^ 3 mod p g in
  let x := x * a g in
  let x := x mod p g in
  let x := x_3 + x in
  let x := x + b g in
  let x := x mod p g in
  let y := y ^ 2 mod p g in
  if negb (x =? y) then ERR_NOT_VALID_POINT else 0.

(** test if the given public key is valid *)
Definition Test_PubKey (g : globals) (pubKey : epoint) : Z :=
  if point_at_infinity pubKey then ERR_INFINITY_POINT
  else
    let '(x, y) := epoint_get pubKey in
    if negb (x <? p g) || negb (y <? p g) then ERR_NOT_VALID_ELEMENT
    else if negb (Test_Point g pubKey =? 0) then ERR_NOT_VALID_POINT
    else
      let nP := ecurve_mult (n g) pubKey in
      if negb (point_at_infinity nP) then ERR_ORDER else 0.

(** test if the big x is zero *)
Definition Test_Zero (x : Z) : Z := if x =? 0 then 1 else 0.

(** test if the big x is order n *)
Definition Test_n (g : globals) (x : Z) : Z := if x =? n g then 1 else 0.

(** test if the big x belong to the range [1, n-1] *)
Definition Test_Range (g : globals) (x : Z) : Z :=
  let one := 1 in
  let decr_n := n g - 1 in
  if (x <? one) || (x >? decr_n) then 1 else 0.

(** calculate a pubKey out of a given priKey: the return value and the
    arrays Px, Py on return. *)
Definition SM2_KeyGeneration (PriKey : list Z) : Z * list Z * list Z :=
  let '(_, g) := SM2_Init in
  let d := bytes_to_big SM2_NUMWORD PriKey in
  let PA := ecurve_mult d (G g) in
  let '(PAx, PAy) := epoint_get PA in
  let Px := big_to_bytes SM2_NUMWORD PAx in
  let Py := big_to_bytes SM2_NUMWORD PAy in
  let i := Test_PubKey g PA in
  if negb (i =? 0) then (i, Px, Py) else (0, Px, Py).

(** SM2 signature algorithm: the return value and the arrays R, S on
    return ([R], [S] are what they hold on entry). *)
Definition SM2_Sign (message : list Z) (len : Z) (ZA rand d R S : list Z)
  : Z * list Z * list Z :=
  let M_len := len + Z.of_nat SM3_len_8 in
  let '(i, g) := SM2_Init in
  if negb (i =? 0) then (i, R, S)
  else
    let dA := bytes_to_big SM2_NUMWORD d in
    (* step1, set M = ZA || M *)
    let M := take SM3_len_8 ZA ++ take (Z.to_nat len) message in
    (* step2, generate e = H(M) *)
    let hash := SM3_256 M M_len in
    let e := bytes_to_big SM3_len_8 hash in
    (* step3: generate k *)
    let k := bytes_to_big SM3_len_8 rand in
    (* step4: calculate kG *)
    let KG := ecurve_mult k (G g) in
    (* step5: calculate r *)
    let '(KGx, KGy) := epoint_get KG in
    let r := e + KGx in
    let r := r mod n g in
    (* judge r = 0 or n + k = n? *)
    let rk := r + k in
    if negb (Z.lor (Test_Zero r) (Test_n g rk) =? 0) then (ERR_GENERATE_R, R, S)
    else
      (* step6: generate s *)
      let z1 := dA + 1 in
      let z1 := xgcd z1 (n g) in
      let z2 := r * dA in
      let z2 := z2 mod n g in
      let z2 := k - z2 in
      let z2 := z2 + n g in
      let s := z1 * z2 in
      let s := s mod n g in
      (* judge s = 0? *)
      if negb (Test_Zero s =? 0) then (ERR_GENERATE_S, R, S)
      else (0, big_to_bytes SM2_NUMWORD r, big_to_bytes SM2_NUMWORD s).

(** SM2 verification algorithm *)
Definition SM2_Verify (message : list Z) (len : Z) (ZA Px Py R S : list Z) : Z :=
  let M_len := len + Z.of_nat SM3_len_8 in
  let '(i, g) := SM2_Init in
  if negb (i =? 0) then i
  else
    let PAx := bytes_to_big SM2_NUMWORD Px in
    let PAy := bytes_to_big SM2_NUMWORD Py in
    let r := bytes_to_big SM2_NUMWORD R in
    let s := bytes_to_big SM2_NUMWORD S in
    match epoint_set PAx PAy with
    | None => ERR_PUBKEY_INIT
    | Some PA =>
        (* step1: test if r belong to [1, n-1] *)
        if negb (Test_Range g r =? 0) then ERR_OUTRANGE_R
        (* step2: test if s belong to [1, n-1] *)
        else if negb (Test_Range g s =? 0) then ERR_OUTRANGE_S
        else
          (* step3: generate M *)
          let M := take SM3_len_8 ZA ++ take (Z.to_nat len) message in
          (* step4: generate e = H(M) *)
          let hash := SM3_256 M M_len in
          let e := bytes_to_big SM3_len_8 hash in
          (* step5: generate t *)
          let t := r + s in
          let t := t mod n g in
          if negb (Test_Zero t =? 0) then ERR_GENERATE_T
          else
            (* step6: generate (x1, y1) *)
            let sG := ecurve_mult s (G g) in
            let tPA := ecurve_mult t PA in
            let tPA := ecurve_add sG tPA in
            let '(x1, y1) := epoint_get tPA in
            (* step7: generate RR *)
            let RR := e + x1 in
            let RR := RR mod n g in
            if RR =? r then 0 else ERR_DATA_MEMCMP
    end.

End WithBackend.

End SM2_sv.

(** * SM2_ENC.c *)

Module SM2_ENC.
Import MIRACL KDF.

(** The error codes of SM2_ENC.h that the two functions return, with the
    values their headers list ("1: S is point at infinity", "3: C1 is not a
    valid point", "5: KDF output is all zero", "6: C3 does not match"). *)
Definition ERR_INFINITY_POINT : Z := 1.
Definition ERR_NOT_VALID_POINT : Z := 3.
Definition ERR_ORDER : Z := 4.
Definition ERR_ARRAY_NULL : Z := 5.
Definition ERR_C3_MATCH : Z := 6.
Definition ERR_ECURVE_INIT : Z := 7.

Section WithBackend.
Context {curve : Curve} {hash : Hash} {params : Params}.

(** The globals of SM2_ENC.h: big para_p, para_a, para_b, para_n, para_Gx,
    para_Gy, para_h; epoint *G. *)
Record globals : Type := {
  para_p : Z; para_a : Z; para_b : Z; para_n : Z;
  para_Gx : Z; para_Gy : Z; para_h : Z;
  G : epoint
}.

(** test if the given point is on SM2 curve *)
Definition Test_Point (g : globals) (point : epoint) : Z :=
  let '(x, y) := epoint_get point in
  let x_3 := x ^ 3 mod para_p g in
  let x := x * para_a g in
  let x := x mod para_p g in
  let x := x_3 + x in
  let x := x + para_b g in
  let x := x mod para_p g in
  let y := y ^ 2 mod para_p g in
  if negb (x =? y) then ERR_NOT_VALID_POINT else 0.

(** test if the given array is all zero; [array] is the pointer argument as
    the list of the bytes from it on. *)
Definition Test_Null (array : list Z) (len : Z) : Z :=
  if forallb (fun x => x =? 0x00) (take (Z.to_nat len) array) then 1 else 0.

(** Initiate SM2 curve: the return value and the globals on return. *)
Definition SM2_Init : Z * globals :=
  let para_p := bytes_to_big SM2_NUMWORD SM2_p in
  let para_a := bytes_to_big SM2_NUMWORD SM2_a in
  let para_b := bytes_to_big SM2_NUMWORD SM2_b in
  let para_n := bytes_to_big SM2_NUMWORD SM2_n in
  let para_Gx := bytes_to_big SM2_NUMWORD SM2_Gx in
  let para_Gy := bytes_to_big SM2_NUMWORD SM2_Gy in
  let para_h := bytes_to_big SM2_NUMWORD SM2_h in
  let st G := {| para_p := para_p; para_a := para_a; para_b := para_b;
                 para_n := para_n; para_Gx := para_Gx; para_Gy := para_Gy;
                 para_h := para_h; G := G |} in
  match epoint_set para_Gx para_Gy with
  | None => (ERR_ECURVE_INIT, st epoint_init)
  | Some G =>
      let nG := ecurve_mult para_n G in
      if negb (point_at_infinity nG) then (ERR_ORDER, st G) else (0, st G)
  end.

(** for (i = 0; i < klen; i++) C[off + i] = M[i] ^ C[off + i]; *)
Definition xor_into (M : list Z) (klen : Z) (C : list Z) (off : nat) : list Z :=
  foldl (fun C i => <[(off + i)%nat := Z.lxor (M !!! i) (C !!! (off + i)%nat)]> C)
        C (seq 0 (Z.to_nat klen)).

(** SM3_init; SM3_process (x2y2, 32); SM3_process (M, klen);
    SM3_process (x2y2 + 32, 32); SM3_done *)
Definition hash_x2_M_y2 (x2y2 M : list Z) (klen : Z) : list Z :=
  let md := SM3_init in
  let md := SM3_process md (take SM2_NUMWORD x2y2) in
  let md := SM3_process md (take (Z.to_nat klen) M) in
  let md := SM3_process md (take SM2_NUMWORD (drop SM2_NUMWORD x2y2)) in
  SM3_done md.

(** SM2 encryption. [g] are the globals [SM2_Init] has set, [C] the output
    array on entry; the result is the return value and the array C on
    return, [None] when a copy leaves an array. *)
Definition SM2_Encrypt (g : globals) (randK : list Z) (pubKey : epoint)
    (M : list Z) (klen : Z) (C : list Z) : option (Z * list Z) :=
  (* Step2. calculate C1 = [k]G = (rGx, rGy) *)
  let rand := bytes_to_big SM2_NUMWORD randK in
  let C1 := ecurve_mult rand (G g) in
  let '(C1x, C1y) := epoint_get C1 in
  C ← memcpy C 0 (big_to_bytes SM2_NUMWORD C1x) (Z.of_nat SM2_NUMWORD);
  C ← memcpy C (Z.of_nat SM2_NUMWORD) (big_to_bytes SM2_NUMWORD C1y)
        (Z.of_nat SM2_NUMWORD);
  (* Step3. test if S = [h]pubKey is the point at infinity *)
  let S := ecurve_mult (para_h g) pubKey in
  if point_at_infinity S then Some (ERR_INFINITY_POINT, C)
  else
    (* Step4. calculate [k]PB = (x2, y2) *)
    let kP := ecurve_mult rand pubKey in
    let '(x2, y2) := epoint_get kP in
    (* Step5. KDF(x2 || y2, klen) *)
    let x2y2 := big_to_bytes SM2_NUMWORD x2 ++ big_to_bytes SM2_NUMWORD y2 in
    C ← SM3_KDF x2y2 (u16 (Z.of_nat SM2_NUMWORD * 2)) (u16 klen) C
          (Z.of_nat SM2_NUMWORD * 3);
    if negb (Test_Null (drop (SM2_NUMWORD * 3) C) klen =? 0)
    then Some (ERR_ARRAY_NULL, C)
    else
      (* Step6. C2 = M ^ t *)
      let C := xor_into M klen C (SM2_NUMWORD * 3) in
      (* Step7. C3 = hash(x2, M, y2) *)
      C ← memcpy C (Z.of_nat SM2_NUMWORD * 2) (hash_x2_M_y2 x2y2 M klen)
            (Z.of_nat SM2_NUMWORD);
      Some (0, C).

(** SM2 decryption. [M] is the output array on entry; the result is the
    return value and the array M on return, [None] when a copy leaves an
    array. *)
Definition SM2_Decrypt (g : globals) (dB : Z) (C : list Z) (Clen : Z)
    (M : list Z) : option (Z * list Z) :=
  let klen := Clen - Z.of_nat SM2_NUMWORD * 3 in
  (* Step1. test if C1 fits the curve *)
  let C1x := bytes_to_big SM2_NUMWORD C in
  let C1y := bytes_to_big SM2_NUMWORD (drop SM2_NUMWORD C) in
  let C1 := default epoint_init (epoint_set C1x C1y) in
  let i := Test_Point g C1 in
  if negb (i =? 0) then Some (i, M)
  else
    (* Step2. S = [h]C1 and test if S is the point at infinity *)
    let S := ecurve_mult (para_h g) C1 in
    if point_at_infinity S then Some (ERR_INFINITY_POINT, M)
    else
      (* Step3. [dB]C1 = (x2, y2) *)
      let dBC1 := ecurve_mult dB C1 in
      let '(x2, y2) := epoint_get dBC1 in
      let x2y2 := big_to_bytes SM2_NUMWORD x2 ++ big_to_bytes SM2_NUMWORD y2 in
      (* Step4. t = KDF(x2 || y2, klen) *)
      M ← SM3_KDF x2y2 (u16 (Z.of_nat SM2_NUMWORD * 2)) (u16 klen) M 0;
      if negb (Test_Null M klen =? 0) then Some (ERR_ARRAY_NULL, M)
      else
        (* Step5. M = C2 ^ t *)
        let M :=
          foldl (fun M i =>
                   <[i := Z.lxor (M !!! i) (C !!! (SM2_NUMWORD * 3 + i)%nat)]> M)
                M (seq 0 (Z.to_nat klen)) in
        (* Step6. hash(x2, m, y2) *)
        let hash := hash_x2_M_y2 x2y2 M klen in
        if negb (bool_decide (take SM2_NUMWORD hash
                              = take SM2_NUMWORD (drop (SM2_NUMWORD * 2) C)))
        then Some (ERR_C3_MATCH, M)
        else Some (0, M).

End WithBackend.

End SM2_ENC.

(** * What the SM2 sources assume of the curve and the hash *)

Module SM2_laws.
Import MIRACL.

Section WithBackend.
Context {curve : Curve} {hash : Hash} {params : Params}.

Definition p_ : Z := bytes_to_big SM2_NUMWORD SM2_p.
Definition a_ : Z := bytes_to_big SM2_NUMWORD SM2_a.
Definition b_ : Z := bytes_to_big SM2_NUMWORD SM2_b.
Definition n_ : Z := bytes_to_big SM2_NUMWORD SM2_n.
Definition Gx_ : Z := bytes_to_big SM2_NUMWORD SM2_Gx.
Definition Gy_ : Z := bytes_to_big SM2_NUMWORD SM2_Gy.
Definition h_ : Z := bytes_to_big SM2_NUMWORD SM2_h.

(** The curve y^2 = x^3 + a x + b over GF(p), in affine coordinates. *)
Definition on_curve (x y : Z) : Prop :=
  y ^ 2 mod p_ = (x ^ 3 + a_ * x + b_) mod p_.

(** [G] is the base point of the parameters and generates a group of order
    n on which the backend computes: scalar multiples of G add and multiply
    as their scalars modulo n, the multiples other than the point at
    infinity are points of the curve with coordinates below p, and a point
    is known by its coordinates. The cofactor is 1. *)
Record curve_laws (G : epoint) : Prop := {
  p_range : 0 < p_ < 2 ^ 256;
  n_range : 1 < n_ < 2 ^ 256;
  h_is_1 : h_ = 1;
  G_set : epoint_set Gx_ Gy_ = Some G;
  mult_infinity :
    forall k, point_at_infinity (ecurve_mult k G) = (k mod n_ =? 0);
  mult_mod : forall k, ecurve_mult k G = ecurve_mult (k mod n_) G;
  mult_mult :
    forall j k, ecurve_mult j (ecurve_mult k G) = ecurve_mult (j * k) G;
  add_mult :
    forall j k,
      ecurve_add (ecurve_mult j G) (ecurve_mult k G) = ecurve_mult (j + k) G;
  get_range :
    forall k, k mod n_ <> 0 ->
      0 <= fst (epoint_get (ecurve_mult k G)) < p_ /\
      0 <= snd (epoint_get (ecurve_mult k G)) < p_;
  get_set :
    forall k, k mod n_ <> 0 ->
      epoint_set (fst (epoint_get (ecurve_mult k G)))
                 (snd (epoint_get (ecurve_mult k G)))
        = Some (ecurve_mult k G);
  get_on_curve :
    forall k, k mod n_ <> 0 ->
      on_curve (fst (epoint_get (ecurve_mult k G)))
               (snd (epoint_get (ecurve_mult k G)))
}.

(** The hash writes 32 bytes, and absorbing two buffers in a row is
    absorbing their concatenation. *)
Record hash_laws : Prop := {
  done_length : forall md, length (SM3_done md) = 32%nat;
  process_app :
    forall md u v, SM3_process (SM3_process md u) v = SM3_process md (u ++ v)
}.

(** The hash of a whole message. *)
Definition SM3 (msg : list Z) : list Z := SM3_done (SM3_process SM3_init msg).

End WithBackend.

End SM2_laws.

(** ** SM2 signature *)

Module SM2_signature.
Import MIRACL MIRACL_facts KDF SM2_sv SM2_laws.

Section WithBackend.
Context {curve : Curve} {hash : Hash} {params : Params}.

(** Under the laws [SM2_Init] succeeds and binds the parameters. *)
Lemma SM2_Init_ok (G0 : epoint) :
  curve_laws G0 ->
  SM2_Init = (0, {| Gx := Gx_; Gy := Gy_; p := p_; a := a_; b := b_; n := n_;
                    G := G0; nG := ecurve_mult n_ G0 |}).
Proof.
  intros HL. unfold SM2_Init. fold Gx_ Gy_ p_ a_ b_ n_.
  rewrite (G_set G0 HL). rewrite (mult_infinity G0 HL).
  rewrite Z.mod_same by (pose proof (n_range G0 HL); lia). reflexivity.
Qed.

Lemma sub_mod_add (k m n : Z) :
  0 < n -> (k - m mod n + n) mod n = (k - m) mod n.
Proof.
  intros Hn. replace (k - m mod n + n) with (k - m mod n + 1 * n) by lia.
  rewrite Z.mod_add by lia. apply Zminus_mod_idemp_r.
Qed.

Lemma take_ZA_message (ZA message : list Z) (len : Z) :
  length ZA = 32%nat -> len = Z.of_nat (length message) ->
  SM3_256 (take SM3_len_8 ZA ++ take (Z.to_nat len) message)
          (len + Z.of_nat SM3_len_8)
    = SM3 (ZA ++ message).
Proof.
  intros HZA Hlen. unfold SM3_256, SM3, SM3_len_8.
  rewrite (take_ge ZA) by lia. rewrite (take_ge message) by lia.
  rewrite take_ge by (rewrite length_app; lia). reflexivity.
Qed.

(** C5. [SM2_Sign] computes e = SM3 (ZA || M) as a big-endian integer,
    (x1, y1) = k G and r = (e + x1) mod n; it returns ERR_GENERATE_R exactly
    when r = 0 or r + k = n; otherwise, with the inverse of 1 + d modulo n,
    it computes s = ((1 + d)^(-1) (k - r d)) mod n and returns
    ERR_GENERATE_S exactly when s = 0; otherwise it returns 0 with r and s
    written as 32 bytes, big-endian. *)
Theorem SM2_Sign_steps (G0 : epoint) (message : list Z) (len : Z)
    (ZA rand d R S : list Z) :
  curve_laws G0 ->
  length ZA = 32%nat -> len = Z.of_nat (length message) ->
  let dA := bytes_to_big SM2_NUMWORD d in
  let k := bytes_to_big SM2_NUMWORD rand in
  Z.gcd (1 + dA) n_ = 1 ->
  let e := bytes_to_big 32 (SM3 (ZA ++ message)) in
  let x1 := fst (epoint_get (ecurve_mult k G0)) in
  let r := (e + x1) mod n_ in
  exists inv : Z,
    0 <= inv < n_ /\ ((1 + dA) * inv) mod n_ = 1 /\
    let s := (inv * (k - r * dA)) mod n_ in
    SM2_Sign message len ZA rand d R S
      = (if (r =? 0) || (r + k =? n_) then (ERR_GENERATE_R, R, S)
         else if s =? 0 then (ERR_GENERATE_S, R, S)
         else (0, big_to_bytes 32 r, big_to_bytes 32 s)) /\
    bytes_to_big 32 (big_to_bytes 32 r) = r /\
    bytes_to_big 32 (big_to_bytes 32 s) = s.
Proof.
  intros HL HZA Hlen dA k Hgcd e x1 r.
  pose proof (n_range G0 HL) as [Hn Hn256].
  destruct (xgcd_inverse (1 + dA) n_ Hn Hgcd) as [Hinv Hmul].
  exists (xgcd (1 + dA) n_). split; [exact Hinv|]. split; [exact Hmul|].
  intros s.
  assert (Hr : 0 <= r < n_) by (apply Z.mod_pos_bound; lia).
  assert (Hs : 0 <= s < n_) by (apply Z.mod_pos_bound; lia).
  split; [|split; apply bytes_to_big_to_bytes;
           change (256 ^ Z.of_nat 32) with (2 ^ 256); lia].
  unfold SM2_Sign. rewrite (SM2_Init_ok G0 HL). cbn [Z.eqb negb G n].
  rewrite take_ZA_message by assumption.
  fold dA. fold k. change (bytes_to_big SM3_len_8 rand) with k.
  change (bytes_to_big SM3_len_8 (SM3 (ZA ++ message))) with e.
  destruct (epoint_get (ecurve_mult k G0)) as [KGx KGy] eqn:HKG.
  change ((e + KGx) mod n_) with r.
  unfold Test_Zero, Test_n. cbn [n].
  destruct (r =? 0), (r + k =? n_); try reflexivity.
  cbn [Z.lor Z.eqb negb orb].
  replace (dA + 1) with (1 + dA) by lia.
  assert (Es : (xgcd (1 + dA) n_ * (k - (r * dA) mod n_ + n_)) mod n_ = s).
  { unfold s. rewrite <- Z.mul_mod_idemp_r by lia.
    rewrite sub_mod_add by lia. apply Z.mul_mod_idemp_r. lia. }
  rewrite Es. destruct (s =? 0); reflexivity.
Qed.

(** C6, as amended. [SM2_Verify] first returns ERR_PUBKEY_INIT when
    [epoint_set] does not accept (Px, Py) as a point of the curve; for an
    accepted public key P_A it rejects with ERR_OUTRANGE_R if r is outside
    [[1, n-1]], else with ERR_OUTRANGE_S if s is outside [[1, n-1]]; it then
    recomputes e = SM3 (ZA || M), sets t = (r + s) mod n, rejects with
    ERR_GENERATE_T if t = 0, computes (x1, y1) = s G + t P_A and returns 0
    if (e + x1) mod n = r, ERR_DATA_MEMCMP otherwise. *)
Theorem SM2_Verify_steps (G0 : epoint) (message : list Z) (len : Z)
    (ZA Px Py R S : list Z) :
  curve_laws G0 ->
  length ZA = 32%nat -> len = Z.of_nat (length message) ->
  let PAx := bytes_to_big SM2_NUMWORD Px in
  let PAy := bytes_to_big SM2_NUMWORD Py in
  let r := bytes_to_big SM2_NUMWORD R in
  let s := bytes_to_big SM2_NUMWORD S in
  let e := bytes_to_big 32 (SM3 (ZA ++ message)) in
  SM2_Verify message len ZA Px Py R S
    = match epoint_set PAx PAy with
      | None => ERR_PUBKEY_INIT
      | Some PA =>
          if negb ((1 <=? r) && (r <=? n_ - 1)) then ERR_OUTRANGE_R
          else if negb ((1 <=? s) && (s <=? n_ - 1)) then ERR_OUTRANGE_S
          else
            let t := (r + s) mod n_ in
            if t =? 0 then ERR_GENERATE_T
            else
              let x1 := fst (epoint_get (ecurve_add (ecurve_mult s G0)
                                                    (ecurve_mult t PA))) in
              if (e + x1) mod n_ =? r then 0 else ERR_DATA_MEMCMP
      end.
Proof.
  intros HL HZA Hlen PAx PAy r s e.
  unfold SM2_Verify. rewrite (SM2_Init_ok G0 HL). cbn [Z.eqb negb G n].
  fold PAx PAy r s. destruct (epoint_set PAx PAy) as [PA|]; [|reflexivity].
  assert (Hrange : forall x,
            negb (Test_Range {| Gx := Gx_; Gy := Gy_; p := p_; a := a_; b := b_;
                                n := n_; G := G0; nG := ecurve_mult n_ G0 |} x =? 0)
              = negb ((1 <=? x) && (x <=? n_ - 1))).
  { intros x. unfold Test_Range. cbn [n].
    destruct (Z.ltb_spec x 1), (Z.gtb_spec x (n_ - 1)),
             (Z.leb_spec 1 x), (Z.leb_spec x (n_ - 1)); try lia; reflexivity. }
  rewrite !Hrange.
  destruct (negb ((1 <=? r) && (r <=? n_ - 1))); [reflexivity|].
  destruct (negb ((1 <=? s) && (s <=? n_ - 1))); [reflexivity|].
  rewrite take_ZA_message by assumption.
  change (bytes_to_big SM3_len_8 (SM3 (ZA ++ message))) with e.
  unfold Test_Zero. cbv zeta.
  destruct ((r + s) mod n_ =? 0); [reflexivity|]. cbn [Z.eqb negb].
  destruct (epoint_get _) as [x1 y1]. reflexivity.
Qed.

Lemma Test_Point_on_curve (G0 P : epoint) :
  curve_laws G0 ->
  on_curve (fst (epoint_get P)) (snd (epoint_get P)) ->
  Test_Point {| Gx := Gx_; Gy := Gy_; p := p_; a := a_; b := b_; n := n_;
                G := G0; nG := ecurve_mult n_ G0 |} P = 0.
Proof.
  intros HL Hon. pose proof (p_range G0 HL) as [Hp _].
  unfold Test_Point. destruct (epoint_get P) as [x y]. cbn [p a b fst snd] in *.
  unfold on_curve in Hon. rewrite Hon.
  replace ((x ^ 3 mod p_ + (x * a_) mod p_ + b_) mod p_)
    with ((x ^ 3 + a_ * x + b_) mod p_).
  - rewrite Z.eqb_refl. reflexivity.
  - rewrite <- (Z.add_mod_idemp_l (x ^ 3 mod p_ + (x * a_) mod p_)) by lia.
    rewrite <- Z.add_mod by lia. rewrite Z.add_mod_idemp_l by lia.
    f_equal. lia.
Qed.

(** For a private key in [[1, n-1]] [SM2_KeyGeneration] returns 0 with the
    coordinates of d G, 32 bytes each. *)
Lemma SM2_KeyGeneration_ok (G0 : epoint) (PriKey : list Z) :
  curve_laws G0 ->
  let d := bytes_to_big SM2_NUMWORD PriKey in
  1 <= d <= n_ - 1 ->
  SM2_KeyGeneration PriKey
    = (0, big_to_bytes 32 (fst (epoint_get (ecurve_mult d G0))),
          big_to_bytes 32 (snd (epoint_get (ecurve_mult d G0)))).
Proof.
  intros HL d Hd. pose proof (n_range G0 HL) as [Hn _].
  assert (Hdn : d mod n_ <> 0) by (rewrite Z.mod_small; lia).
  unfold SM2_KeyGeneration. rewrite (SM2_Init_ok G0 HL). cbn [G]. fold d.
  pose proof (get_range G0 HL d Hdn) as [Hx Hy].
  pose proof (Test_Point_on_curve G0 (ecurve_mult d G0) HL
                (get_on_curve G0 HL d Hdn)) as HTP.
  unfold Test_PubKey. rewrite HTP. cbn [n p].
  rewrite (mult_infinity G0 HL d).
  destruct (Z.eqb_spec (d mod n_) 0) as [E | _]; [contradiction|].
  destruct (epoint_get (ecurve_mult d G0)) as [x y]. cbn [fst snd] in *.
  destruct (Z.ltb_spec x p_); [|lia]. destruct (Z.ltb_spec y p_); [|lia].
  cbn [negb orb Z.eqb].
  rewrite (mult_mult G0 HL), (mult_infinity G0 HL).
  replace (n_ * d) with (d * n_) by lia.
  rewrite Z.mod_mul by lia. reflexivity.
Qed.

(** The arithmetic behind verification: with s = (1 + d)^(-1) (k - r d) and
    t = r + s modulo n, s + t d = k and (1 + d) t = r + k modulo n. *)
Lemma sign_verify_arith (n d k r inv : Z) :
  1 < n -> ((1 + d) * inv) mod n = 1 ->
  let s := (inv * (k - r * d)) mod n in
  let t := (r + s) mod n in
  (s + t * d) mod n = k mod n /\ ((1 + d) * t) mod n = (r + k) mod n.
Proof.
  intros Hn Hinv s t.
  pose proof (Z.div_mod ((1 + d) * inv) n ltac:(lia)) as H1. rewrite Hinv in H1.
  pose proof (Z.div_mod (inv * (k - r * d)) n ltac:(lia)) as H2. fold s in H2.
  pose proof (Z.div_mod (r + s) n ltac:(lia)) as H3. fold t in H3.
  set (c1 := (1 + d) * inv / n) in *. set (c2 := inv * (k - r * d) / n) in *.
  set (c3 := (r + s) / n) in *.
  assert (Hs : (1 + d) * s = (k - r * d) + n * (c1 * (k - r * d) - (1 + d) * c2)).
  { assert (Es : s = inv * (k - r * d) - n * c2) by lia.
    rewrite Es.
    replace ((1 + d) * (inv * (k - r * d) - n * c2))
      with (((1 + d) * inv) * (k - r * d) - (1 + d) * n * c2) by ring.
    rewrite H1. ring. }
  split.
  - replace (s + t * d)
      with (k + (c1 * (k - r * d) - (1 + d) * c2 - c3 * d) * n)
      by (replace t with (r + s - n * c3) by lia; lia).
    apply Z.mod_add. lia.
  - replace ((1 + d) * t)
      with (r + k + (c1 * (k - r * d) - (1 + d) * c2 - (1 + d) * c3) * n)
      by (replace t with (r + s - n * c3) by lia; lia).
    apply Z.mod_add. lia.
Qed.

(** C1. For a private key d in [[1, n-2]] with 1 + d invertible modulo n (as
    every such d is for the prime n of the standard) and a random k in
    [[1, n-1]], [SM2_KeyGeneration] returns the public key P = d G, and a
    signature (R, S) that [SM2_Sign] returns with code 0 is accepted by
    [SM2_Verify] (code 0) for the same message and ZA under P. *)
Theorem SM2_Sign_then_Verify (G0 : epoint) (message : list Z) (len : Z)
    (ZA rand d R0 S0 : list Z) :
  curve_laws G0 ->
  length ZA = 32%nat -> len = Z.of_nat (length message) ->
  let dA := bytes_to_big SM2_NUMWORD d in
  let k := bytes_to_big SM2_NUMWORD rand in
  1 <= dA <= n_ - 2 -> 1 <= k <= n_ - 1 -> Z.gcd (1 + dA) n_ = 1 ->
  exists Px Py : list Z,
    SM2_KeyGeneration d = (0, Px, Py) /\
    forall R S : list Z,
      SM2_Sign message len ZA rand d R0 S0 = (0, R, S) ->
      SM2_Verify message len ZA Px Py R S = 0.
Proof.
  intros HL HZA Hlen dA k Hd Hk Hgcd.
  pose proof (n_range G0 HL) as [Hn Hn256]. pose proof (p_range G0 HL) as [Hp Hp256].
  assert (Hdn : dA mod n_ <> 0) by (rewrite Z.mod_small; lia).
  eexists _, _. split; [apply (SM2_KeyGeneration_ok G0 d HL); fold dA; lia|].
  intros R S Hsign.
  destruct (SM2_Sign_steps G0 message len ZA rand d R0 S0 HL HZA Hlen Hgcd)
    as (inv & Hinv & Hmul & Hsteps & HrR & HsS).
  fold dA k in Hmul, Hsteps, HrR, HsS. cbv zeta in Hsteps, HrR, HsS.
  set (e := bytes_to_big 32 (SM3 (ZA ++ message))) in *.
  set (x1 := fst (epoint_get (ecurve_mult k G0))) in *.
  set (r := (e + x1) mod n_) in *.
  set (s := (inv * (k - r * dA)) mod n_) in *.
  rewrite Hsteps in Hsign.
  destruct (Z.eqb_spec r 0) as [|Hr0]; [discriminate Hsign|].
  destruct (Z.eqb_spec (r + k) n_) as [|Hrk]; [discriminate Hsign|].
  cbn [orb] in Hsign.
  destruct (Z.eqb_spec s 0) as [|Hs0]; [discriminate Hsign|].
  injection Hsign as <- <-.
  assert (Hr : 0 <= r < n_) by (apply Z.mod_pos_bound; lia).
  assert (Hs : 0 <= s < n_) by (apply Z.mod_pos_bound; lia).
  destruct (sign_verify_arith n_ dA k r inv Hn Hmul) as [Hpt Ht]. fold s in Hpt, Ht.
  set (t := (r + s) mod n_) in *.
  pose proof (get_range G0 HL dA Hdn) as [Hx Hy].
  rewrite (SM2_Verify_steps G0 message len ZA _ _ _ _ HL HZA Hlen).
  cbv zeta. change SM2_NUMWORD with 32%nat.
  change (bytes_to_big 32 d) with dA. rewrite HrR, HsS.
  rewrite !bytes_to_big_to_bytes
    by (change (256 ^ Z.of_nat 32) with (2 ^ 256); lia).
  rewrite (get_set G0 HL dA Hdn).
  destruct (Z.leb_spec 1 r); [|lia]. destruct (Z.leb_spec r (n_ - 1)); [|lia].
  destruct (Z.leb_spec 1 s); [|lia]. destruct (Z.leb_spec s (n_ - 1)); [|lia].
  cbn [andb negb]. fold e. fold t.
  destruct (Z.eqb_spec t 0) as [Et | _].
  { exfalso. rewrite Et, Z.mul_0_r, Z.mod_0_l in Ht by lia.
    symmetry in Ht. apply Z.mod_divide in Ht; [|lia]. destruct Ht as [c Hc].
    assert (c = 1) by nia. lia. }
  rewrite (mult_mult G0 HL), (add_mult G0 HL), (mult_mod G0 HL (s + t * dA)).
  rewrite Hpt, <- (mult_mod G0 HL k). fold x1. fold r.
  rewrite Z.eqb_refl. reflexivity.
Qed.

End WithBackend.

End SM2_signature.

(** ** The key derivation function *)

Module KDF_spec.
Import MIRACL MIRACL_facts KDF SM2_laws.

(** The copy of [n] bytes over the [n] bytes that follow [front]. *)
Lemma memcpy_at (front old post src : list Z) (n : Z) :
  Z.of_nat (length old) = n -> n <= Z.of_nat (length src) ->
  memcpy (front ++ old ++ post) (Z.of_nat (length front)) src n
    = Some (front ++ take (Z.to_nat n) src ++ post).
Proof.
  intros Hold Hsrc. unfold memcpy.
  rewrite !length_app.
  destruct (Z.leb_spec 0 (Z.of_nat (length front))); [|lia].
  destruct (Z.leb_spec 0 n); [|lia].
  destruct (Z.leb_spec (Z.of_nat (length front) + n)
              (Z.of_nat (length front + (length old + length post)))); [|lia].
  destruct (Z.leb_spec n (Z.of_nat (length src))); [|lia].
  cbn [andb]. f_equal. rewrite Nat2Z.id.
  rewrite take_app_length. f_equal. f_equal.
  replace (Z.to_nat (Z.of_nat (length front) + n))
    with (length front + length old)%nat by lia.
  rewrite drop_app_add, drop_app_length. reflexivity.
Qed.

(** The counter as four bytes, big-endian. *)
Definition be32 (c : Z) : list Z :=
  [ (c / 2 ^ 24) mod 256; (c / 2 ^ 16) mod 256; (c / 2 ^ 8) mod 256; c mod 256 ].

Lemma ct_incr_be32 (c : Z) :
  0 <= c -> c + 1 < 2 ^ 32 -> ct_incr (be32 c) = be32 (c + 1).
Proof.
  intros Hc Hc1. unfold ct_incr, be32.
  cbn [lookup_total list_lookup_total insert list_insert]. unfold u8.
  change (2 ^ 24) with 16777216. change (2 ^ 16) with 65536.
  change (2 ^ 8) with 256. change (2 ^ 32) with 4294967296 in Hc1.
  destruct (Z.eqb_spec (c mod 256) 255) as [E3 | E3];
    [destruct (Z.eqb_spec ((c / 256) mod 256) 255) as [E2 | E2];
       [destruct (Z.eqb_spec ((c / 65536) mod 256) 255) as [E1 | E1]|]|];
    cbn [lookup_total list_lookup_total insert list_insert];
    (f_equal; [|f_equal; [|f_equal; [|f_equal]]]);
    Z.div_mod_to_equations; lia.
Qed.

Section WithHash.
Context {hash : Hash}.

(** KDF in the spec's words: the stream SM3 (Z || ct) for the 32-bit
    big-endian counters ct = 1, 2, ..., ceil (klen * 8 / 256), truncated to
    klen bytes. [blocks n ct] is the stream of [n] blocks from counter [ct]
    on. *)
Fixpoint blocks (Zb : list Z) (n : nat) (ct : Z) : list Z :=
  match n with
  | O => []
  | S n' => SM3 (Zb ++ be32 ct) ++ blocks Zb n' (ct + 1)
  end.

Definition KDF_stream (Zb : list Z) (klen : Z) : list Z :=
  take (Z.to_nat klen) (blocks Zb (Z.to_nat ((klen * 8 + 255) / 256)) 1).

Lemma blocks_length (Zb : list Z) (n : nat) (ct : Z) :
  hash_laws -> length (blocks Zb n ct) = (32 * n)%nat.
Proof.
  intros HH. revert ct. induction n as [|n IH]; intros ct; [reflexivity|].
  simpl blocks. rewrite length_app, IH. unfold SM3. rewrite (done_length HH). lia.
Qed.

Lemma blocks_snoc (Zb : list Z) (n : nat) (ct : Z) :
  blocks Zb (S n) ct = blocks Zb n ct ++ SM3 (Zb ++ be32 (ct + Z.of_nat n)).
Proof.
  revert ct. induction n as [|n IH]; intros ct.
  - simpl. rewrite Z.add_0_r, app_nil_r. reflexivity.
  - change (blocks Zb (S (S n)) ct)
      with (SM3 (Zb ++ be32 ct) ++ blocks Zb (S n) (ct + 1)).
    rewrite IH. simpl blocks. rewrite <- app_assoc.
    replace (ct + 1 + Z.of_nat n) with (ct + Z.of_nat (S n)) by lia.
    reflexivity.
Qed.

Lemma Ha_of_SM3 (Z_ : list Z) (zlen c : Z) :
  hash_laws -> Ha_of Z_ zlen (be32 c) = SM3 (take (Z.to_nat zlen) Z_ ++ be32 c).
Proof.
  intros HH. unfold Ha_of, SM3. rewrite (process_app HH). reflexivity.
Qed.

(** The loop writes one block per pass and counts up. *)
Lemma KDF_loop_spec (Z_ : list Z) (zlen K : Z) (n : nat) (i : Z)
    (front rest : list Z) :
  hash_laws ->
  Z.of_nat (length front) = K + Z.of_nat SM2_NUMWORD * (i - 1) ->
  (32 * n <= length rest)%nat -> 0 <= i -> i + Z.of_nat n < 2 ^ 32 ->
  KDF_loop Z_ zlen K n i (be32 i) (front ++ rest)
    = Some (be32 (i + Z.of_nat n),
            front ++ blocks (take (Z.to_nat zlen) Z_) n i ++ drop (32 * n) rest).
Proof.
  intros HH. revert i front rest.
  induction n as [|n IH]; intros i front rest Hfront Hrest Hi Hmax.
  - simpl. rewrite Z.add_0_r, drop_0. reflexivity.
  - cbn [KDF_loop]. rewrite <- Hfront.
    rewrite <- (take_drop 32 rest) at 1.
    rewrite (memcpy_at front (take 32 rest) (drop 32 rest)).
    + cbn [mbind option_bind]. rewrite Ha_of_SM3 by exact HH.
      change (Z.to_nat (Z.of_nat SM2_NUMWORD)) with 32%nat.
      rewrite (take_ge (SM3 _)) by (unfold SM3; rewrite (done_length HH); lia).
      rewrite ct_incr_be32 by lia.
      rewrite (app_assoc front).
      rewrite IH.
      * rewrite <- app_assoc. cbn [blocks]. rewrite <- app_assoc.
        rewrite drop_drop.
        replace (i + 1 + Z.of_nat n) with (i + Z.of_nat (S n)) by lia.
        replace (32 + 32 * n)%nat with (32 * S n)%nat by lia.
        reflexivity.
      * rewrite length_app. unfold SM3. rewrite (done_length HH).
        unfold SM2_NUMWORD in *. lia.
      * rewrite length_drop. lia.
      * lia.
      * lia.
    + rewrite length_take. unfold SM2_NUMWORD. lia.
    + rewrite Ha_of_SM3 by exact HH. unfold SM3. rewrite (done_length HH).
      unfold SM2_NUMWORD. lia.
Qed.

(** [SM3_KDF] writes the spec's stream over the [klen] bytes at K, for a
    length that its [unsigned short] parameter holds. *)
Lemma SM3_KDF_stream (Z_ : list Z) (zlen klen : Z) (front rest : list Z) :
  hash_laws ->
  1 <= klen <= 65535 -> klen <= Z.of_nat (length rest) ->
  SM3_KDF Z_ zlen klen (front ++ rest) (Z.of_nat (length front))
    = Some (front ++ KDF_stream (take (Z.to_nat zlen) Z_) klen
                  ++ drop (Z.to_nat klen) rest).
Proof.
  intros HH Hk Hrest. unfold SM3_KDF, KDF_stream, u32, u16. cbv zeta.
  change [0; 0; 0; 1] with (be32 1).
  set (Zb := take (Z.to_nat zlen) Z_).
  set (q := klen / 32). set (m := klen mod 32).
  assert (Hqm : klen = 32 * q + m /\ 0 <= m < 32 /\ 0 <= q <= 2047).
  { unfold q, m. Z.div_mod_to_equations. lia. }
  destruct Hqm as (Hklen & Hm & Hq).
  rewrite (Z.mod_small (klen * 8)) by lia.
  rewrite Z.rem_mod_nonneg, Z.quot_div_nonneg by lia.
  assert (E1 : (klen * 8) mod 256 = 8 * m).
  { clear - Hklen Hm Hq. Z.div_mod_to_equations. lia. }
  assert (E2 : (klen * 8) / 256 = q).
  { clear - Hklen Hm Hq. Z.div_mod_to_equations. lia. }
  rewrite E1, E2.
  assert (E3 : Z.quot (klen * 8 - 256 * q) 8 = m).
  { rewrite Z.quot_div_nonneg by lia. clear - Hklen Hm Hq.
    Z.div_mod_to_equations. lia. }
  rewrite E3.
  destruct (Z.eqb_spec (8 * m) 0) as [Em | Em].
  - assert (m = 0) by lia. assert (Hq1 : 1 <= q) by lia.
    rewrite (Z.mod_small q) by lia.
    assert (E4 : (klen * 8 + 255) / 256 = q).
    { clear - Hklen Hm Hq H. Z.div_mod_to_equations. lia. }
    rewrite E4.
    rewrite (KDF_loop_spec Z_ zlen (Z.of_nat (length front)) (Z.to_nat (q - 1)) 1
               front rest HH) by (unfold SM2_NUMWORD; lia).
    cbn [mbind option_bind]. fold Zb.
    replace (1 + Z.of_nat (Z.to_nat (q - 1))) with q by lia.
    set (n := Z.to_nat (q - 1)).
    rewrite <- (take_drop 32 (drop (32 * n) rest)).
    rewrite (app_assoc front).
    replace (Z.of_nat (length front) + Z.of_nat SM2_NUMWORD * (q - 1))
      with (Z.of_nat (length (front ++ blocks Zb n 1)))
      by (rewrite length_app, blocks_length by exact HH;
          unfold SM2_NUMWORD, n; lia).
    rewrite memcpy_at.
    + f_equal. rewrite <- app_assoc. f_equal.
      rewrite Ha_of_SM3 by exact HH. fold Zb.
      change (Z.to_nat (Z.of_nat SM2_NUMWORD)) with 32%nat.
      rewrite (take_ge (SM3 _)) by (unfold SM3; rewrite (done_length HH); lia).
      replace (Z.to_nat q) with (S n) by (unfold n; lia).
      rewrite blocks_snoc.
      replace (1 + Z.of_nat n) with q by (unfold n; lia).
      rewrite take_ge
        by (rewrite length_app, blocks_length by exact HH; unfold SM3;
            rewrite (done_length HH); unfold n; lia).
      rewrite <- app_assoc. do 2 f_equal.
      rewrite drop_drop. f_equal. unfold n. lia.
    + rewrite length_take, length_drop. unfold SM2_NUMWORD, n. lia.
    + rewrite Ha_of_SM3 by exact HH. unfold SM3. rewrite (done_length HH).
      unfold SM2_NUMWORD. lia.
  - assert (Hm1 : 1 <= m) by lia.
    rewrite (Z.mod_small (q + 1)), (Z.mod_small m) by lia.
    assert (E4 : (klen * 8 + 255) / 256 = q + 1).
    { clear - Hklen Hm Hq Hm1. Z.div_mod_to_equations. lia. }
    rewrite E4.
    replace (q + 1 - 1) with q by lia.
    rewrite (KDF_loop_spec Z_ zlen (Z.of_nat (length front)) (Z.to_nat q) 1
               front rest HH) by (unfold SM2_NUMWORD; lia).
    cbn [mbind option_bind]. fold Zb.
    replace (1 + Z.of_nat (Z.to_nat q)) with (q + 1) by lia.
    set (n := Z.to_nat q).
    rewrite <- (take_drop (Z.to_nat m) (drop (32 * n) rest)).
    rewrite (app_assoc front).
    replace (Z.of_nat (length front) + Z.of_nat SM2_NUMWORD * q)
      with (Z.of_nat (length (front ++ blocks Zb n 1)))
      by (rewrite length_app, blocks_length by exact HH;
          unfold SM2_NUMWORD, n; lia).
    rewrite memcpy_at.
    + f_equal. rewrite <- app_assoc. f_equal.
      rewrite Ha_of_SM3 by exact HH. fold Zb.
      replace (Z.to_nat (q + 1)) with (S n) by (unfold n; lia).
      rewrite blocks_snoc.
      replace (1 + Z.of_nat n) with (q + 1) by (unfold n; lia).
      replace (Z.to_nat klen) with (length (blocks Zb n 1) + Z.to_nat m)%nat
        by (rewrite blocks_length by exact HH; unfold n; lia).
      rewrite take_app_add. rewrite <- app_assoc. do 2 f_equal.
      rewrite drop_drop. f_equal. rewrite blocks_length by exact HH.
      unfold n. lia.
    + rewrite length_take, length_drop. unfold n. lia.
    + rewrite Ha_of_SM3 by exact HH. unfold SM3. rewrite (done_length HH). lia.
Qed.

End WithHash.

End KDF_spec.

(** * SM2 encryption and decryption on a buffer seen as its fields *)

Module SM2_encryption.
Import MIRACL MIRACL_facts KDF KDF_spec SM2_laws SM2_ENC.

Lemma memcpy_over (front old post src : list Z) (off n : Z) :
  off = Z.of_nat (length front) ->
  Z.of_nat (length old) = n -> Z.of_nat (length src) = n ->
  memcpy (front ++ old ++ post) off src n = Some (front ++ src ++ post).
Proof.
  intros -> Hold Hsrc. rewrite memcpy_at by lia.
  rewrite take_ge by lia. reflexivity.
Qed.

(** A loop that rewrites the cells that follow [front], one by one. *)
Lemma segment_loop (g : nat -> Z -> Z) (front t rest : list Z) (n : nat) :
  (n <= length t)%nat ->
  foldl (fun L i =>
           <[(length front + i)%nat := g i (L !!! (length front + i)%nat)]> L)
        (front ++ t ++ rest) (seq 0 n)
    = front ++ imap g (take n t) ++ drop n t ++ rest.
Proof.
  induction n as [|n IH]; intros Hn.
  - simpl. rewrite drop_0. reflexivity.
  - rewrite seq_S, foldl_app, IH by lia. cbn [foldl Nat.add].
    destruct (lookup_lt_is_Some_2 t n ltac:(lia)) as [c Hc].
    rewrite (drop_S t c n Hc), (take_S_r t n c Hc), imap_app.
    cbn [imap]. rewrite length_take, Nat.min_l, Nat.add_0_r by lia.
    set (A := imap g (take n t)).
    assert (HA : length A = n) by (unfold A; rewrite length_imap, length_take; lia).
    rewrite <- !app_assoc. cbn [app].
    rewrite (app_assoc front A).
    replace (length front + n)%nat with (length (front ++ A))
      by (rewrite length_app; lia).
    rewrite list_lookup_total_middle by reflexivity.
    replace (length (front ++ A)) with (length (front ++ A) + 0)%nat at 1 by lia.
    rewrite insert_app_r, <- (app_assoc front A). reflexivity.
Qed.

Lemma imap_lxor_l (M t : list Z) :
  length M = length t ->
  imap (fun i c => Z.lxor (M !!! i) c) t = zip_with Z.lxor M t.
Proof.
  intros Hlen. apply list_eq. intros i.
  rewrite list_lookup_imap, lookup_zip_with.
  destruct (t !! i) as [c|] eqn:Ec.
  - destruct (lookup_lt_is_Some_2 M i) as [m Em].
    { apply lookup_lt_Some in Ec. lia. }
    rewrite Em. cbn. rewrite (list_lookup_total_correct _ _ _ Em). reflexivity.
  - destruct (M !! i); reflexivity.
Qed.

Lemma imap_lxor_r (t C2 pre post : list Z) :
  length C2 = length t ->
  imap (fun i m => Z.lxor m ((pre ++ C2 ++ post) !!! (length pre + i)%nat)) t
    = zip_with Z.lxor t C2.
Proof.
  intros Hlen. apply list_eq. intros i.
  rewrite list_lookup_imap, lookup_zip_with.
  destruct (t !! i) as [m|] eqn:Em; [|reflexivity].
  destruct (lookup_lt_is_Some_2 C2 i) as [c Ec].
  { apply lookup_lt_Some in Em. lia. }
  rewrite Ec. cbn. do 2 f_equal.
  apply list_lookup_total_correct.
  rewrite lookup_app_r by lia.
  replace (length pre + i - length pre)%nat with i by lia.
  rewrite lookup_app_l by (apply lookup_lt_Some in Ec; lia). exact Ec.
Qed.

Lemma lxor_stream_twice (M t : list Z) :
  length M = length t -> zip_with Z.lxor t (zip_with Z.lxor M t) = M.
Proof.
  revert t. induction M as [|m M IH]; intros [|c t] Hlen; try discriminate.
  - reflexivity.
  - cbn. rewrite IH by (cbn in Hlen; lia). f_equal.
    rewrite (Z.lxor_comm m c), <- Z.lxor_assoc, Z.lxor_nilpotent.
    apply Z.lxor_0_l.
Qed.

Section WithBackend.
Context {curve : Curve} {hash : Hash} {params : Params}.

Lemma Test_Null_spec (t rest : list Z) (len : Z) :
  Z.of_nat (length t) = len ->
  Test_Null (t ++ rest) len = if forallb (fun x => x =? 0) t then 1 else 0.
Proof.
  intros <-. unfold Test_Null. rewrite Nat2Z.id, take_app_length. reflexivity.
Qed.

Lemma Test_Null_empty (array : list Z) (len : Z) :
  len <= 0 -> Test_Null array len = 1.
Proof.
  intros Hlen. unfold Test_Null.
  replace (Z.to_nat len) with 0%nat by lia. reflexivity.
Qed.

Lemma hash_x2_M_y2_spec (x2 y2 M rest : list Z) (klen : Z) :
  hash_laws -> length x2 = 32%nat -> length y2 = 32%nat ->
  Z.of_nat (length M) = klen ->
  hash_x2_M_y2 (x2 ++ y2) (M ++ rest) klen = SM3 (x2 ++ M ++ y2).
Proof.
  intros HH Hx Hy <-. unfold hash_x2_M_y2, SM3. cbv zeta.
  rewrite !(process_app HH). unfold SM2_NUMWORD.
  rewrite Nat2Z.id, take_app_length, (take_app_length' x2) by (symmetry; exact Hx).
  rewrite (drop_app_length' x2) by (symmetry; exact Hx).
  rewrite take_ge by lia. reflexivity.
Qed.

Lemma KDF_stream_length (Zb : list Z) (klen : Z) :
  hash_laws -> 0 <= klen -> Z.of_nat (length (KDF_stream Zb klen)) = klen.
Proof.
  intros HH Hk. unfold KDF_stream.
  rewrite length_take, blocks_length by exact HH.
  assert (klen <= 32 * ((klen * 8 + 255) / 256))
    by (Z.div_mod_to_equations; lia).
  lia.
Qed.

(** The bytes at K after the call SM3_KDF (Z, zlen, klen, K) that receives
    the int [klen] as an unsigned short: the stream of [u16 klen] bytes, then
    what the array [old] held. *)
Definition KDF_effect (Zb : list Z) (klen : Z) (old : list Z) : list Z :=
  KDF_stream Zb (u16 klen) ++ drop (Z.to_nat (u16 klen)) old.

Lemma u16_of_int (klen : Z) :
  1 <= klen -> 0 <= u16 klen <= 65535 /\ u16 klen <= klen.
Proof.
  intros Hk. unfold u16. change (2 ^ 16) with 65536.
  pose proof (Z.mod_pos_bound klen 65536 ltac:(lia)).
  pose proof (Z.mod_le klen 65536 ltac:(lia) ltac:(lia)). lia.
Qed.

Lemma KDF_effect_length (Zb old : list Z) (klen : Z) :
  hash_laws -> 1 <= klen -> Z.of_nat (length old) = klen ->
  Z.of_nat (length (KDF_effect Zb klen old)) = klen.
Proof.
  intros HH Hk Hold. unfold KDF_effect.
  destruct (u16_of_int klen Hk) as [H1 H2].
  pose proof (KDF_stream_length Zb (u16 klen) HH ltac:(lia)).
  rewrite length_app, length_drop. lia.
Qed.

Lemma KDF_effect_short (Zb old : list Z) (klen : Z) :
  1 <= klen <= 65535 -> Z.of_nat (length old) = klen ->
  KDF_effect Zb klen old = KDF_stream Zb klen.
Proof.
  intros Hk Hold. unfold KDF_effect, u16. rewrite Z.mod_small by lia.
  rewrite drop_ge by lia. apply app_nil_r.
Qed.

(** What SM2_Encrypt returns and leaves in C for a message of [klen] bytes,
    the array C on entry given as its four fields and what follows them. *)
Lemma SM2_Encrypt_fields (g : globals) (randK : list Z) (pubKey : epoint)
    (M c0 c1 c2 c3 rest : list Z) (klen : Z) :
  hash_laws ->
  length c0 = 32%nat -> length c1 = 32%nat -> length c2 = 32%nat ->
  Z.of_nat (length c3) = klen -> Z.of_nat (length M) = klen ->
  1 <= klen -> 1 <= u16 klen ->
  let k := bytes_to_big SM2_NUMWORD randK in
  let x1 := big_to_bytes SM2_NUMWORD (fst (epoint_get (ecurve_mult k (G g)))) in
  let y1 := big_to_bytes SM2_NUMWORD (snd (epoint_get (ecurve_mult k (G g)))) in
  let x2 := big_to_bytes SM2_NUMWORD (fst (epoint_get (ecurve_mult k pubKey))) in
  let y2 := big_to_bytes SM2_NUMWORD (snd (epoint_get (ecurve_mult k pubKey))) in
  let t := KDF_effect (x2 ++ y2) klen c3 in
  SM2_Encrypt g randK pubKey M klen (c0 ++ c1 ++ c2 ++ c3 ++ rest)
    = Some (if point_at_infinity (ecurve_mult (para_h g) pubKey)
            then (ERR_INFINITY_POINT, x1 ++ y1 ++ c2 ++ c3 ++ rest)
            else if forallb (fun x => x =? 0) t
            then (ERR_ARRAY_NULL, x1 ++ y1 ++ c2 ++ t ++ rest)
            else (0, x1 ++ y1 ++ SM3 (x2 ++ M ++ y2)
                       ++ zip_with Z.lxor M t ++ rest)).
Proof.
  intros HH H0 H1 H2 H3 HM Hk Hkl k x1 y1 x2 y2 t.
  assert (Hx1 : length x1 = 32%nat) by apply big_to_bytes_length.
  assert (Hy1 : length y1 = 32%nat) by apply big_to_bytes_length.
  assert (Hx2 : length x2 = 32%nat) by apply big_to_bytes_length.
  assert (Hy2 : length y2 = 32%nat) by apply big_to_bytes_length.
  assert (Ht : Z.of_nat (length t) = klen)
    by (apply KDF_effect_length; [exact HH | lia | exact H3]).
  destruct (u16_of_int klen Hk) as [Hu Hule].
  unfold SM2_Encrypt. fold k.
  destruct (epoint_get (ecurve_mult k (G g))) as [X1 Y1].
  destruct (epoint_get (ecurve_mult k pubKey)) as [X2 Y2].
  cbn [fst snd] in *. fold x1 y1 x2 y2.
  clearbody x1 y1 x2 y2 k.
  unfold SM2_NUMWORD. change (Z.of_nat 32) with 32.
  pose proof (memcpy_over [] c0 (c1 ++ c2 ++ c3 ++ rest) x1 0 32) as E.
  cbn [app] in E. rewrite E by (cbn [length]; lia). clear E.
  cbn [mbind option_bind].
  rewrite (memcpy_over x1 c1) by lia. cbn [mbind option_bind].
  destruct (point_at_infinity (ecurve_mult (para_h g) pubKey)); [reflexivity|].
  change (u16 (32 * 2)) with 64. change (32 * 3) with 96.
  change (32 * 2) with 64. change (32 * 3)%nat with 96%nat.
  pose proof (SM3_KDF_stream (x2 ++ y2) 64 (u16 klen) (x1 ++ y1 ++ c2) (c3 ++ rest)
                HH ltac:(lia)) as E.
  rewrite !length_app, Hx1, Hy1, H2 in E. change (Z.of_nat (32 + (32 + 32))) with 96 in E.
  rewrite <- !app_assoc in E. rewrite E by lia. clear E.
  rewrite (take_ge (x2 ++ y2)) by (rewrite length_app; lia).
  rewrite (drop_app_le c3) by lia. rewrite (app_assoc (KDF_stream _ _)).
  fold (KDF_effect (x2 ++ y2) klen c3). fold t.
  cbn [mbind option_bind].
  replace (drop 96 (x1 ++ y1 ++ c2 ++ t ++ rest)) with (t ++ rest)
    by (rewrite !app_assoc, <- (app_assoc _ t), drop_app_length';
        [reflexivity | rewrite !length_app; lia]).
  rewrite (Test_Null_spec t rest klen Ht).
  destruct (forallb (fun x => x =? 0) t); [reflexivity|].
  cbn [Z.eqb negb].
  pose proof (hash_x2_M_y2_spec x2 y2 M [] klen HH Hx2 Hy2 HM) as E.
  rewrite app_nil_r in E. rewrite E. clear E.
  unfold xor_into.
  pose proof (segment_loop (fun i c => Z.lxor (M !!! i) c) (x1 ++ y1 ++ c2) t rest
                (Z.to_nat klen)) as E.
  rewrite !length_app, Hx1, Hy1, H2 in E. change (32 + (32 + 32))%nat with 96%nat in E.
  rewrite <- !app_assoc in E. rewrite E by lia. clear E.
  rewrite take_ge, drop_ge by lia. rewrite imap_lxor_l by lia.
  cbn [app].
  rewrite (app_assoc x1 y1).
  rewrite (memcpy_over (x1 ++ y1) c2)
    by (rewrite ?length_app; unfold SM3; rewrite ?(done_length HH); lia).
  cbn [mbind option_bind]. rewrite <- app_assoc. reflexivity.
Qed.

Lemma bytes_to_big_field (c rest : list Z) :
  length c = 32%nat -> bytes_to_big SM2_NUMWORD (c ++ rest) = bytes_to_big SM2_NUMWORD c.
Proof.
  intros Hc. unfold bytes_to_big, SM2_NUMWORD.
  rewrite take_app_length' by (symmetry; exact Hc).
  rewrite take_ge by lia. reflexivity.
Qed.

(** What SM2_Decrypt returns and leaves in M for a cipher text with [klen]
    bytes of C2, the arrays given as their fields. *)
Lemma SM2_Decrypt_fields (g : globals) (dB : Z)
    (c0 c1 c2 c3 crest m mrest : list Z) (klen : Z) :
  hash_laws ->
  length c0 = 32%nat -> length c1 = 32%nat -> length c2 = 32%nat ->
  Z.of_nat (length c3) = klen -> Z.of_nat (length m) = klen ->
  1 <= klen -> 1 <= u16 klen ->
  let C1 := default epoint_init
              (epoint_set (bytes_to_big SM2_NUMWORD c0)
                          (bytes_to_big SM2_NUMWORD c1)) in
  let x2 := big_to_bytes SM2_NUMWORD (fst (epoint_get (ecurve_mult dB C1))) in
  let y2 := big_to_bytes SM2_NUMWORD (snd (epoint_get (ecurve_mult dB C1))) in
  let t := KDF_effect (x2 ++ y2) klen m in
  let M' := zip_with Z.lxor t c3 in
  SM2_Decrypt g dB (c0 ++ c1 ++ c2 ++ c3 ++ crest) (klen + 96) (m ++ mrest)
    = Some (if negb (Test_Point g C1 =? 0) then (Test_Point g C1, m ++ mrest)
            else if point_at_infinity (ecurve_mult (para_h g) C1)
            then (ERR_INFINITY_POINT, m ++ mrest)
            else if forallb (fun x => x =? 0) t
            then (ERR_ARRAY_NULL, t ++ mrest)
            else if bool_decide (SM3 (x2 ++ M' ++ y2) = c2)
            then (0, M' ++ mrest)
            else (ERR_C3_MATCH, M' ++ mrest)).
Proof.
  intros HH H0 H1 H2 H3 Hm Hk Hkl C1 x2 y2 t M'.
  assert (Hx2 : length x2 = 32%nat) by apply big_to_bytes_length.
  assert (Hy2 : length y2 = 32%nat) by apply big_to_bytes_length.
  assert (Ht : Z.of_nat (length t) = klen)
    by (apply KDF_effect_length; [exact HH | lia | exact Hm]).
  destruct (u16_of_int klen Hk) as [Hu Hule].
  assert (HM' : Z.of_nat (length M') = klen)
    by (unfold M'; rewrite length_zip_with; lia).
  unfold SM2_Decrypt.
  rewrite (bytes_to_big_field c0) by exact H0.
  replace (drop SM2_NUMWORD (c0 ++ c1 ++ c2 ++ c3 ++ crest))
    with (c1 ++ c2 ++ c3 ++ crest)
    by (rewrite drop_app_length'; [reflexivity | symmetry; exact H0]).
  rewrite (bytes_to_big_field c1) by exact H1.
  fold C1.
  destruct (negb (Test_Point g C1 =? 0)); [reflexivity|].
  destruct (point_at_infinity (ecurve_mult (para_h g) C1)); [reflexivity|].
  destruct (epoint_get (ecurve_mult dB C1)) as [X2 Y2].
  cbn [fst snd] in *. fold x2 y2. clearbody x2 y2 C1.
  unfold SM2_NUMWORD. change (Z.of_nat 32) with 32.
  change (u16 (32 * 2)) with 64. change (32 * 3) with 96.
  change (32 * 3)%nat with 96%nat. change (32 * 2)%nat with 64%nat.
  replace (klen + 96 - 96) with klen by lia.
  pose proof (SM3_KDF_stream (x2 ++ y2) 64 (u16 klen) [] (m ++ mrest)
                HH ltac:(lia)) as E.
  cbn [app length] in E. change (Z.of_nat 0) with 0 in E.
  rewrite E by (rewrite length_app; lia). clear E.
  rewrite (take_ge (x2 ++ y2)) by (rewrite length_app; lia).
  rewrite (drop_app_le m) by lia. rewrite (app_assoc (KDF_stream _ _)).
  fold (KDF_effect (x2 ++ y2) klen m). fold t.
  cbn [mbind option_bind].
  rewrite (Test_Null_spec t mrest klen Ht).
  destruct (forallb (fun x => x =? 0) t); [reflexivity|].
  cbn [Z.eqb negb].
  set (g2 := fun (i : nat) m =>
                Z.lxor m ((c0 ++ c1 ++ c2 ++ c3 ++ crest) !!! (96 + i)%nat)).
  assert (E : foldl (fun M0 i => <[i := g2 i (M0 !!! i)]> M0) (t ++ mrest)
                    (seq 0 (Z.to_nat klen))
              = imap g2 (take (Z.to_nat klen) t) ++ drop (Z.to_nat klen) t ++ mrest)
    by (apply (segment_loop g2 [] t mrest (Z.to_nat klen)); lia).
  unfold g2 in E. rewrite E. clear E g2.
  rewrite (take_ge t), (drop_ge t) by lia.
  pose proof (imap_lxor_r t c3 (c0 ++ c1 ++ c2) crest) as E.
  rewrite !length_app, H0, H1, H2 in E.
  change (32 + (32 + 32))%nat with 96%nat in E.
  rewrite <- !app_assoc in E. rewrite E by lia. clear E.
  cbn [app]. fold M'.
  rewrite (hash_x2_M_y2_spec x2 y2 M' mrest klen HH Hx2 Hy2 HM').
  rewrite (take_ge (SM3 _)) by (unfold SM3; rewrite (done_length HH); lia).
  replace (take 32 (drop 64 (c0 ++ c1 ++ c2 ++ c3 ++ crest))) with c2.
  - destruct (bool_decide (SM3 (x2 ++ M' ++ y2) = c2)); reflexivity.
  - rewrite (app_assoc c0 c1), drop_app_length' by (rewrite length_app; lia).
    rewrite take_app_length' by lia. reflexivity.
Qed.

(** Without a byte to encrypt both functions stop at the test of the KDF
    output, which an empty array passes as all zero. *)
Lemma SM2_Encrypt_empty (g : globals) (randK : list Z) (pubKey : epoint)
    (M C C' : list Z) (klen rc : Z) :
  klen <= 0 -> SM2_Encrypt g randK pubKey M klen C = Some (rc, C') ->
  rc = ERR_INFINITY_POINT \/ rc = ERR_ARRAY_NULL.
Proof.
  intros Hk. unfold SM2_Encrypt.
  destruct (epoint_get (ecurve_mult _ (G g))) as [X1 Y1].
  destruct (memcpy C 0 _ _) as [Ca|]; [|discriminate].
  cbn [mbind option_bind].
  destruct (memcpy Ca _ _ _) as [Cb|]; [|discriminate].
  cbn [mbind option_bind].
  destruct (point_at_infinity _); [intros [= <- _]; left; reflexivity|].
  destruct (epoint_get (ecurve_mult _ pubKey)) as [X2 Y2].
  destruct (SM3_KDF _ _ _ _ _) as [Cc|]; [|discriminate].
  cbn [mbind option_bind]. rewrite Test_Null_empty by exact Hk.
  intros [= <- _]. right. reflexivity.
Qed.

Lemma SM2_Decrypt_empty (g : globals) (dB : Z) (C M M' : list Z) (Clen rc : Z) :
  Clen - 96 <= 0 -> SM2_Decrypt g dB C Clen M = Some (rc, M') ->
  rc <> 0 /\ rc <> ERR_C3_MATCH.
Proof.
  intros Hk. unfold SM2_Decrypt. cbv zeta.
  set (C1 := default epoint_init _).
  destruct (Z.eqb_spec (Test_Point g C1) 0) as [E | E]; cbn [negb].
  - destruct (point_at_infinity _); [intros [= <- _]; split; discriminate|].
    destruct (epoint_get _) as [X2 Y2].
    destruct (SM3_KDF _ _ _ _ _) as [Ma|]; [|discriminate].
    cbn [mbind option_bind]. rewrite Test_Null_empty by exact Hk.
    intros [= <- _]. split; discriminate.
  - intros [= <- _]. split; [exact E|].
    unfold Test_Point. destruct (epoint_get C1) as [x y].
    destruct (negb _); discriminate.
Qed.

Lemma split_fields (C : list Z) (klen : Z) :
  0 <= klen -> klen + 96 <= Z.of_nat (length C) ->
  exists c0 c1 c2 c3 crest,
    C = c0 ++ c1 ++ c2 ++ c3 ++ crest
    /\ length c0 = 32%nat /\ length c1 = 32%nat /\ length c2 = 32%nat
    /\ Z.of_nat (length c3) = klen.
Proof.
  intros Hk Hlen.
  exists (take 32 C), (take 32 (drop 32 C)), (take 32 (drop 64 C)),
         (take (Z.to_nat klen) (drop 96 C)), (drop (Z.to_nat klen) (drop 96 C)).
  rewrite !length_take, !length_drop.
  repeat split; try lia.
  rewrite take_drop.
  change 96%nat with (64 + 32)%nat at 1. rewrite <- drop_drop, take_drop.
  change 64%nat with (32 + 32)%nat at 1. rewrite <- drop_drop, take_drop.
  rewrite take_drop. reflexivity.
Qed.

Lemma drop_fields (c0 c1 c2 tail : list Z) :
  length c0 = 32%nat -> length c1 = 32%nat -> length c2 = 32%nat ->
  drop 96 (c0 ++ c1 ++ c2 ++ tail) = tail.
Proof.
  intros H0 H1 H2. rewrite !app_assoc. apply drop_app_length'.
  rewrite !length_app. lia.
Qed.

(** The message-length part of the layout, for a length that the KDF's
    [unsigned short] parameter holds: on success C is C1 || C3 || C2 with
    C1 = x1 || y1 of [k]G in 32 bytes each, C3 = SM3 (x2 || M || y2) and
    C2 = M xor KDF (x2 || y2, klen); what follows the cipher text in the
    array is left as it was. *)
Theorem SM2_Encrypt_layout (g : globals) (randK : list Z) (pubKey : epoint)
    (M C C' : list Z) (klen : Z) :
  hash_laws ->
  Z.of_nat (length M) = klen -> klen <= 65535 ->
  klen + 96 <= Z.of_nat (length C) ->
  SM2_Encrypt g randK pubKey M klen C = Some (0, C') ->
  let k := bytes_to_big SM2_NUMWORD randK in
  let x1 := big_to_bytes SM2_NUMWORD (fst (epoint_get (ecurve_mult k (G g)))) in
  let y1 := big_to_bytes SM2_NUMWORD (snd (epoint_get (ecurve_mult k (G g)))) in
  let x2 := big_to_bytes SM2_NUMWORD (fst (epoint_get (ecurve_mult k pubKey))) in
  let y2 := big_to_bytes SM2_NUMWORD (snd (epoint_get (ecurve_mult k pubKey))) in
  length x1 = 32%nat /\ length y1 = 32%nat /\ length (SM3 (x2 ++ M ++ y2)) = 32%nat
  /\ C' = x1 ++ y1 ++ SM3 (x2 ++ M ++ y2)
             ++ zip_with Z.lxor M (KDF_stream (x2 ++ y2) klen)
             ++ drop (Z.to_nat (klen + 96)) C.
Proof.
  intros HH HM Hk HC Henc k x1 y1 x2 y2.
  split; [apply big_to_bytes_length|].
  split; [apply big_to_bytes_length|].
  split; [unfold SM3; apply (done_length HH)|].
  destruct (Z.le_gt_cases klen 0) as [Hz | Hpos].
  { destruct (SM2_Encrypt_empty _ _ _ _ _ _ _ _ Hz Henc); discriminate. }
  destruct (split_fields C klen ltac:(lia) HC)
    as (c0 & c1 & c2 & c3 & crest & -> & H0 & H1 & H2 & H3).
  rewrite (SM2_Encrypt_fields g randK pubKey M c0 c1 c2 c3 crest klen HH
             H0 H1 H2 H3 HM ltac:(lia))
    in Henc by (unfold u16; rewrite Z.mod_small; lia).
  fold k x1 y1 x2 y2 in Henc.
  rewrite KDF_effect_short in Henc by lia.
  replace (Z.to_nat (klen + 96)) with (96 + Z.to_nat klen)%nat by lia.
  rewrite <- drop_drop, drop_fields, drop_app_length' by lia.
  destruct (point_at_infinity _); [discriminate|].
  destruct (forallb _ _); [discriminate|].
  injection Henc as <-. reflexivity.
Qed.

(** On ERR_C3_MATCH the array M holds the candidate plain text, for a
    length that the KDF's [unsigned short] parameter holds. *)
Theorem SM2_Decrypt_mismatch_leaves_candidate (g : globals) (dB : Z)
    (C M0 M' : list Z) (Clen : Z) :
  hash_laws ->
  Clen <= Z.of_nat (length C) -> Clen - 96 <= 65535 ->
  Clen - 96 <= Z.of_nat (length M0) ->
  SM2_Decrypt g dB C Clen M0 = Some (ERR_C3_MATCH, M') ->
  let klen := Clen - 96 in
  let C1 := default epoint_init
              (epoint_set (bytes_to_big SM2_NUMWORD C)
                          (bytes_to_big SM2_NUMWORD (drop 32 C))) in
  let x2 := big_to_bytes SM2_NUMWORD (fst (epoint_get (ecurve_mult dB C1))) in
  let y2 := big_to_bytes SM2_NUMWORD (snd (epoint_get (ecurve_mult dB C1))) in
  let C2 := take (Z.to_nat klen) (drop 96 C) in
  let C3 := take 32 (drop 64 C) in
  let candidate := zip_with Z.lxor (KDF_stream (x2 ++ y2) klen) C2 in
  M' = candidate ++ drop (Z.to_nat klen) M0
  /\ Z.of_nat (length candidate) = klen
  /\ SM3 (x2 ++ candidate ++ y2) <> C3.
Proof.
  intros HH HC Hk HM0 Hdec klen.
  destruct (Z.le_gt_cases klen 0) as [Hz | Hpos].
  { destruct (SM2_Decrypt_empty _ _ _ _ _ _ _ Hz Hdec) as [_ []]. reflexivity. }
  destruct (split_fields C klen ltac:(lia) ltac:(unfold klen; lia))
    as (c0 & c1 & c2 & c3 & crest & -> & H0 & H1 & H2 & H3).
  rewrite <- (take_drop (Z.to_nat klen) M0) in Hdec.
  replace Clen with (klen + 96) in Hdec by (unfold klen; lia).
  rewrite (SM2_Decrypt_fields g dB c0 c1 c2 c3 crest (take (Z.to_nat klen) M0)
             (drop (Z.to_nat klen) M0) klen HH H0 H1 H2 H3)
    in Hdec
    by (rewrite ?length_take; unfold u16; rewrite ?Z.mod_small; unfold klen in *; lia).
  rewrite KDF_effect_short in Hdec
    by (rewrite ?length_take; unfold klen in *; lia).
  rewrite (bytes_to_big_field c0) by exact H0.
  rewrite (drop_app_length' c0) by (symmetry; exact H0).
  rewrite (bytes_to_big_field c1) by exact H1.
  rewrite drop_fields, take_app_length' by lia.
  replace (take 32 (drop 64 (c0 ++ c1 ++ c2 ++ c3 ++ crest))) with c2
    by (rewrite (app_assoc c0 c1), drop_app_length' by (rewrite length_app; lia);
        rewrite take_app_length' by lia; reflexivity).
  cbv zeta.
  set (C1 := default epoint_init _) in *.
  set (x2 := big_to_bytes SM2_NUMWORD (fst _)) in *.
  set (y2 := big_to_bytes SM2_NUMWORD (snd _)) in *.
  set (t := KDF_stream (x2 ++ y2) klen) in *.
  assert (Ht : Z.of_nat (length t) = klen)
    by (apply KDF_stream_length; [exact HH | lia]).
  destruct (negb (Test_Point g C1 =? 0)).
  { injection Hdec as E _. exfalso. revert E. unfold Test_Point.
    destruct (epoint_get C1) as [x y]. destruct (negb _); discriminate. }
  destruct (point_at_infinity _); [discriminate|].
  destruct (forallb _ _); [discriminate|].
  destruct (bool_decide_reflect (SM3 (x2 ++ zip_with Z.lxor t c3 ++ y2) = c2))
    as [E | E]; [discriminate|].
  injection Hdec as <-.
  repeat split; [rewrite length_zip_with; lia | exact E].
Qed.

(** The globals as SM2_Init leaves them. *)
Definition initialised (G0 : epoint) : globals :=
  {| para_p := p_; para_a := a_; para_b := b_; para_n := n_;
     para_Gx := Gx_; para_Gy := Gy_; para_h := h_; G := G0 |}.

Lemma SM2_Init_globals (G0 : epoint) :
  curve_laws G0 -> SM2_Init = (0, initialised G0).
Proof.
  intros HL. unfold SM2_Init. fold Gx_ Gy_ p_ a_ b_ n_ h_.
  rewrite (G_set G0 HL). rewrite (mult_infinity G0 HL).
  rewrite Z.mod_same by (pose proof (n_range G0 HL); lia). reflexivity.
Qed.

Lemma Test_Point_multiple (G0 : epoint) (k : Z) :
  curve_laws G0 -> k mod n_ <> 0 ->
  Test_Point (initialised G0) (ecurve_mult k G0) = 0.
Proof.
  intros HL Hk. pose proof (p_range G0 HL) as [Hp _].
  pose proof (get_on_curve G0 HL k Hk) as Hon.
  unfold Test_Point. destruct (epoint_get _) as [x y].
  cbn [para_p para_a para_b initialised fst snd] in *.
  unfold on_curve in Hon. rewrite Hon.
  replace ((x ^ 3 mod p_ + (x * a_) mod p_ + b_) mod p_)
    with ((x ^ 3 + a_ * x + b_) mod p_).
  - rewrite Z.eqb_refl. reflexivity.
  - rewrite <- (Z.add_mod_idemp_l (x ^ 3 mod p_ + (x * a_) mod p_)) by lia.
    rewrite <- Z.add_mod by lia. rewrite Z.add_mod_idemp_l by lia.
    f_equal. lia.
Qed.

(** C1 as SM2_Decrypt reads it back from the bytes SM2_Encrypt wrote. *)
Lemma C1_read_back (G0 : epoint) (k : Z) :
  curve_laws G0 -> k mod n_ <> 0 ->
  let X1 := fst (epoint_get (ecurve_mult k G0)) in
  let Y1 := snd (epoint_get (ecurve_mult k G0)) in
  default epoint_init
    (epoint_set (bytes_to_big SM2_NUMWORD (big_to_bytes SM2_NUMWORD X1))
                (bytes_to_big SM2_NUMWORD (big_to_bytes SM2_NUMWORD Y1)))
    = ecurve_mult k G0.
Proof.
  intros HL Hk X1 Y1.
  destruct (get_range G0 HL k Hk) as [HX HY]. fold X1 Y1 in HX, HY.
  pose proof (p_range G0 HL) as [_ Hp].
  unfold SM2_NUMWORD.
  rewrite !bytes_to_big_to_bytes
    by (change (256 ^ Z.of_nat 32) with (2 ^ 256); lia).
  unfold X1, Y1. rewrite (get_set G0 HL k Hk). reflexivity.
Qed.

(** Decryption undoes encryption, for a message length that the KDF's
    [unsigned short] parameter holds: after SM2_Init, for a private key d in
    [1, n-2], the public key [d]G and a random k in [1, n-1], when
    SM2_Encrypt returns 0 then SM2_Decrypt on its output returns 0 and
    leaves M in the first klen bytes of its output array. *)
Theorem SM2_Decrypt_Encrypt (G0 : epoint) (randK M C C' M0 : list Z)
    (d klen : Z) :
  curve_laws G0 -> hash_laws ->
  1 <= d <= n_ - 2 -> 1 <= bytes_to_big SM2_NUMWORD randK <= n_ - 1 ->
  Z.of_nat (length M) = klen -> klen <= 65535 ->
  klen + 96 <= Z.of_nat (length C) -> klen <= Z.of_nat (length M0) ->
  SM2_Encrypt (snd SM2_Init) randK (ecurve_mult d (G (snd SM2_Init))) M klen C
    = Some (0, C') ->
  SM2_Decrypt (snd SM2_Init) d C' (klen + 96) M0
    = Some (0, M ++ drop (Z.to_nat klen) M0).
Proof.
  intros HL HH Hd Hrand HM Hk HC HM0.
  rewrite (SM2_Init_globals G0 HL). cbn [snd]. change (G (initialised G0)) with G0.
  intros Henc.
  destruct (Z.le_gt_cases klen 0) as [Hz | Hpos].
  { destruct (SM2_Encrypt_empty _ _ _ _ _ _ _ _ Hz Henc); discriminate. }
  pose proof (n_range G0 HL) as [Hn _].
  set (k := bytes_to_big SM2_NUMWORD randK) in *.
  assert (Hkn : k mod n_ <> 0) by (rewrite Z.mod_small; lia).
  assert (Hu : u16 klen = klen) by (unfold u16; rewrite Z.mod_small; lia).
  destruct (split_fields C klen ltac:(lia) HC)
    as (c0 & c1 & c2 & c3 & crest & -> & H0 & H1 & H2 & H3).
  rewrite (SM2_Encrypt_fields (initialised G0) randK (ecurve_mult d G0) M
             c0 c1 c2 c3 crest klen HH H0 H1 H2 H3 HM ltac:(lia))
    in Henc by lia.
  fold k in Henc. change (G (initialised G0)) with G0 in Henc.
  change (para_h (initialised G0)) with h_ in Henc.
  rewrite (h_is_1 G0 HL), !(mult_mult G0 HL), (mult_infinity G0 HL) in Henc.
  rewrite Z.mul_1_l, (Z.mod_small d) in Henc by lia.
  destruct (Z.eqb_spec d 0) as [|_]; [lia|].
  rewrite KDF_effect_short in Henc by lia.
  set (x1 := big_to_bytes SM2_NUMWORD (fst (epoint_get (ecurve_mult k G0)))) in *.
  set (y1 := big_to_bytes SM2_NUMWORD (snd (epoint_get (ecurve_mult k G0)))) in *.
  set (x2 := big_to_bytes SM2_NUMWORD (fst (epoint_get (ecurve_mult (k * d) G0)))) in *.
  set (y2 := big_to_bytes SM2_NUMWORD (snd (epoint_get (ecurve_mult (k * d) G0)))) in *.
  set (t := KDF_stream (x2 ++ y2) klen) in *.
  assert (Ht : Z.of_nat (length t) = klen)
    by (apply KDF_stream_length; [exact HH | lia]).
  destruct (forallb (fun x => x =? 0) t) eqn:Enull; [discriminate|].
  assert (EC : C' = x1 ++ y1 ++ SM3 (x2 ++ M ++ y2) ++ zip_with Z.lxor M t ++ crest)
    by (injection Henc as E; symmetry; exact E).
  rewrite EC. clear EC Henc.
  rewrite <- (take_drop (Z.to_nat klen) M0) at 1.
  rewrite (SM2_Decrypt_fields (initialised G0) d x1 y1 (SM3 (x2 ++ M ++ y2))
             (zip_with Z.lxor M t) crest (take (Z.to_nat klen) M0)
             (drop (Z.to_nat klen) M0) klen HH)
    by (rewrite ?length_take, ?length_zip_with; unfold x1, y1, SM3;
        rewrite ?big_to_bytes_length, ?(done_length HH); unfold SM2_NUMWORD; lia).
  unfold x1, y1. rewrite (C1_read_back G0 k HL Hkn).
  rewrite (Test_Point_multiple G0 k HL Hkn). cbn [Z.eqb negb].
  change (para_h (initialised G0)) with h_.
  rewrite (h_is_1 G0 HL), !(mult_mult G0 HL), (mult_infinity G0 HL).
  rewrite Z.mul_1_l.
  destruct (Z.eqb_spec (k mod n_) 0) as [|_]; [contradiction|].
  replace (d * k) with (k * d) by lia. fold x2 y2.
  rewrite KDF_effect_short by (rewrite ?length_take; lia). fold t.
  rewrite Enull.
  rewrite lxor_stream_twice by lia.
  rewrite bool_decide_true by reflexivity. reflexivity.
Qed.

(** ** Messages longer than the KDF's [unsigned short] holds *)

Lemma forallb_zero_replicate (S : list Z) (n : nat) (v : Z) :
  v <> 0 -> (0 < n)%nat ->
  forallb (fun x => x =? 0) (S ++ replicate n v) = false.
Proof.
  intros Hv Hn. rewrite forallb_app. destruct n as [|n]; [lia|].
  cbn [replicate forallb]. destruct (Z.eqb_spec v 0); [contradiction|].
  apply andb_false_r.
Qed.

(** The array of [klen + 96] bytes [v] as the four fields. *)
Lemma replicate_fields (klen v : Z) :
  0 <= klen ->
  replicate (Z.to_nat (klen + 96)) v
    = replicate 32 v ++ replicate 32 v ++ replicate 32 v
        ++ replicate (Z.to_nat klen) v ++ [].
Proof.
  intros Hk. rewrite app_nil_r, <- !replicate_add. f_equal. lia.
Qed.

Lemma KDF_effect_replicate (Zb : list Z) (klen v : Z) :
  hash_laws -> 1 <= klen ->
  KDF_effect Zb klen (replicate (Z.to_nat klen) v)
    = KDF_stream Zb (u16 klen) ++ replicate (Z.to_nat (klen - u16 klen)) v
  /\ length (KDF_stream Zb (u16 klen)) = Z.to_nat (u16 klen).
Proof.
  intros HH Hk. destruct (u16_of_int klen Hk) as [Hu Hule].
  pose proof (KDF_stream_length Zb (u16 klen) HH ltac:(lia)).
  unfold KDF_effect. rewrite drop_replicate. split; [|lia].
  do 2 f_equal. lia.
Qed.

(** The failing case of the layout: for a message longer than 65535 bytes
    SM2_Encrypt succeeds on an array C that holds the byte [v] throughout,
    and past the first [u16 klen] bytes of C2 it leaves M xor v, the old
    contents of C in place of the key stream. *)
Theorem SM2_Encrypt_long_message (g : globals) (randK : list Z)
    (pubKey : epoint) (M : list Z) (klen v : Z) :
  hash_laws ->
  Z.of_nat (length M) = klen -> 65536 <= klen -> 1 <= u16 klen -> v <> 0 ->
  point_at_infinity (ecurve_mult (para_h g) pubKey) = false ->
  exists C' : list Z,
    SM2_Encrypt g randK pubKey M klen (replicate (Z.to_nat (klen + 96)) v)
      = Some (0, C')
    /\ drop (Z.to_nat (96 + u16 klen)) C'
       = (fun m => Z.lxor m v) <$> drop (Z.to_nat (u16 klen)) M.
Proof.
  intros HH HM Hk Hkl Hv Hinf.
  destruct (u16_of_int klen ltac:(lia)) as [Hu Hule].
  rewrite replicate_fields by lia.
  rewrite (SM2_Encrypt_fields g randK pubKey M _ _ _ _ [] klen HH)
    by (rewrite ?length_replicate; lia).
  rewrite Hinf.
  set (x2 := big_to_bytes SM2_NUMWORD (fst _)).
  set (y2 := big_to_bytes SM2_NUMWORD (snd _)).
  destruct (KDF_effect_replicate (x2 ++ y2) klen v HH ltac:(lia)) as [-> HS].
  rewrite forallb_zero_replicate by lia.
  eexists. split; [reflexivity|].
  replace (Z.to_nat (96 + u16 klen)) with (96 + Z.to_nat (u16 klen))%nat by lia.
  rewrite <- drop_drop, drop_fields
    by (rewrite ?big_to_bytes_length; unfold SM3; rewrite ?(done_length HH);
        reflexivity).
  rewrite app_nil_r, zip_with_drop, drop_app_length' by (symmetry; exact HS).
  rewrite zip_with_replicate_r by (rewrite length_drop; lia).
  reflexivity.
Qed.



(** The array M after SM2_Decrypt on a cipher text with more than 65535
    bytes of C2, when M held the byte [w] on entry and C1 passes the two
    tests: whether the call returns 0 or ERR_C3_MATCH, past its first
    [u16 klen] bytes M is left with C2 xor w, the old contents of M in place
    of the key stream. *)
Theorem SM2_Decrypt_long_cipher (g : globals) (dB : Z) (C : list Z)
    (Clen w : Z) :
  hash_laws ->
  Z.of_nat (length C) = Clen -> 65536 <= Clen - 96 -> 1 <= u16 (Clen - 96) ->
  w <> 0 ->
  let C1 := default epoint_init
              (epoint_set (bytes_to_big SM2_NUMWORD C)
                          (bytes_to_big SM2_NUMWORD (drop 32 C))) in
  Test_Point g C1 = 0 ->
  point_at_infinity (ecurve_mult (para_h g) C1) = false ->
  exists (rc : Z) (M' : list Z),
    SM2_Decrypt g dB C Clen (replicate (Z.to_nat (Clen - 96)) w) = Some (rc, M')
    /\ (rc = 0 \/ rc = ERR_C3_MATCH)
    /\ drop (Z.to_nat (u16 (Clen - 96))) M'
       = Z.lxor w <$> drop (Z.to_nat (96 + u16 (Clen - 96))) C.
Proof.
  intros HH HC Hk Hkl Hw.
  set (klen := Clen - 96) in *.
  destruct (u16_of_int klen ltac:(lia)) as [Hu Hule].
  destruct (split_fields C klen ltac:(lia) ltac:(unfold klen; lia))
    as (c0 & c1 & c2 & c3 & crest & -> & H0 & H1 & H2 & H3).
  assert (crest = []) as ->.
  { apply nil_length_inv. rewrite !length_app in HC. unfold klen in *. lia. }
  rewrite (bytes_to_big_field c0) by exact H0.
  rewrite (drop_app_length' c0) by (symmetry; exact H0).
  rewrite (bytes_to_big_field c1) by exact H1.
  intros C1 HP Hinf.
  replace Clen with (klen + 96) by (unfold klen; lia).
  rewrite <- (app_nil_r (replicate (Z.to_nat klen) w)).
  rewrite (SM2_Decrypt_fields g dB c0 c1 c2 c3 [] (replicate (Z.to_nat klen) w) []
             klen HH H0 H1 H2 H3)
    by (rewrite ?length_replicate; lia).
  fold C1. rewrite HP, Hinf. cbn [Z.eqb negb].
  set (x2 := big_to_bytes SM2_NUMWORD (fst _)).
  set (y2 := big_to_bytes SM2_NUMWORD (snd _)).
  destruct (KDF_effect_replicate (x2 ++ y2) klen w HH ltac:(lia)) as [Ew HS].
  rewrite Ew, forallb_zero_replicate by lia.
  set (tw := KDF_stream (x2 ++ y2) (u16 klen)
             ++ replicate (Z.to_nat (klen - u16 klen)) w).
  assert (Htail : drop (Z.to_nat (u16 klen)) (zip_with Z.lxor tw c3 ++ [])
                  = Z.lxor w <$> drop (Z.to_nat (96 + u16 klen))
                                      (c0 ++ c1 ++ c2 ++ c3 ++ [])).
  { rewrite app_nil_r. unfold tw.
    rewrite zip_with_drop, drop_app_length' by (symmetry; exact HS).
    replace (Z.to_nat (96 + u16 klen)) with (96 + Z.to_nat (u16 klen))%nat by lia.
    rewrite <- drop_drop, drop_fields, app_nil_r by assumption.
    rewrite zip_with_replicate_l by (rewrite length_drop; lia).
    reflexivity. }
  destruct (bool_decide _); do 2 eexists;
    (split; [reflexivity | split; [|exact Htail]]); [left | right]; reflexivity.
Qed.

End WithBackend.

End SM2_encryption.

(** * The hash function SM3 *)

Module SM3_model.
Import MIRACL.

(** Modelled from the spec: SM3.c and SM3.h are not among the sources. The
    hash follows section 4.1: a chaining value of eight 32-bit words, a bit
    count and a residual buffer of fewer than 64 bytes; the padding 0x80,
    zeros and the 64-bit big-endian bit length; and the compression function
    with its message expansion and 64 rounds. *)
Definition chaining : Type := Z * Z * Z * Z * Z * Z * Z * Z.

Definition IV : chaining :=
  (0x7380166F, 0x4914B2B9, 0x172442D7, 0xDA8A0600,
   0xA96F30BC, 0x163138AA, 0xE38DEE4D, 0xB0FB0E4E).

Definition ROL (x k : Z) : Z := rotl32 x k.
Definition P0 (x : Z) : Z := Z.lxor x (Z.lxor (ROL x 9) (ROL x 17)).
Definition P1 (x : Z) : Z := Z.lxor x (Z.lxor (ROL x 15) (ROL x 23)).

Definition T (j : nat) : Z := if (j <? 16)%nat then 0x79CC4519 else 0x7A879D8A.

Definition FF (j : nat) (x y z : Z) : Z :=
  if (j <? 16)%nat then Z.lxor x (Z.lxor y z)
  else Z.lor (Z.lor (Z.land x y) (Z.land x z)) (Z.land y z).

Definition GG (j : nat) (x y z : Z) : Z :=
  if (j <? 16)%nat then Z.lxor x (Z.lxor y z)
  else Z.lor (Z.land x y) (Z.land (Z.lxor x 0xFFFFFFFF) z).

(** The sixteen big-endian words of a block. *)
Definition block_words (B : list Z) : list Z :=
  (fun i => bytes_to_big 4 (drop (4 * i) B)) <$> seq 0 16.

(** W_j from the words before it, for j = length W. *)
Definition expand_step (W : list Z) : list Z :=
  let j := length W in
  W ++ [Z.lxor
          (Z.lxor
             (P1 (Z.lxor (Z.lxor (W !!! (j - 16)%nat) (W !!! (j - 9)%nat))
                         (ROL (W !!! (j - 3)%nat) 15)))
             (ROL (W !!! (j - 13)%nat) 7))
          (W !!! (j - 6)%nat)].

Definition expand (B : list Z) : list Z :=
  Nat.iter 52 expand_step (block_words B).

Definition round (W : list Z) (V : chaining) (j : nat) : chaining :=
  let '(A, B, C, D, E, F, G, H) := V in
  let SS1 := ROL (u32 (ROL A 12 + E + ROL (T j) (Z.of_nat j mod 32))) 7 in
  let SS2 := Z.lxor SS1 (ROL A 12) in
  let TT1 := u32 (FF j A B C + D + SS2 + Z.lxor (W !!! j) (W !!! (j + 4)%nat)) in
  let TT2 := u32 (GG j E F G + H + SS1 + W !!! j) in
  (TT1, A, ROL B 9, C, P0 TT2, E, ROL F 19, G).

Definition compress (V : chaining) (B : list Z) : chaining :=
  let W := expand B in
  let '(A, B, C, D, E, F, G, H) := foldl (round W) V (seq 0 64) in
  let '(A0, B0, C0, D0, E0, F0, G0, H0) := V in
  (Z.lxor A0 A, Z.lxor B0 B, Z.lxor C0 C, Z.lxor D0 D,
   Z.lxor E0 E, Z.lxor F0 F, Z.lxor G0 G, Z.lxor H0 H).

Record state : Type := {
  cv : chaining;      (* the chaining value *)
  residue : list Z;   (* fewer than 64 bytes not yet compressed *)
  bits : Z            (* the length absorbed so far, in bits *)
}.

Definition init : state := {| cv := IV; residue := []; bits := 0 |}.

Definition absorb (md : state) (byte : Z) : state :=
  let r := residue md ++ [byte] in
  if (length r =? 64)%nat
  then {| cv := compress (cv md) r; residue := []; bits := bits md + 8 |}
  else {| cv := cv md; residue := r; bits := bits md + 8 |}.

Definition process (md : state) (buf : list Z) : state := foldl absorb md buf.

Definition digest (V : chaining) : list Z :=
  let '(A, B, C, D, E, F, G, H) := V in
  KDF_spec.be32 A ++ KDF_spec.be32 B ++ KDF_spec.be32 C ++ KDF_spec.be32 D
  ++ KDF_spec.be32 E ++ KDF_spec.be32 F ++ KDF_spec.be32 G ++ KDF_spec.be32 H.

Definition done (md : state) : list Z :=
  let r := residue md in
  let padded :=
    r ++ [0x80] ++ replicate ((119 - length r) mod 64) 0
      ++ big_to_bytes 8 (bits md mod 2 ^ 64) in
  digest
    (if (length padded <=? 64)%nat then compress (cv md) padded
     else compress (compress (cv md) (take 64 padded)) (drop 64 padded)).

Definition SM3_hash : Hash :=
  {| SM3_STATE := state; SM3_init := init;
     SM3_process := process; SM3_done := done |}.

(** The two examples of the standard: the message abc and the 64-byte
    message abcd ... abcd. *)
Example SM3_abc :
  done (process init [0x61; 0x62; 0x63])
  = [0x66; 0xc7; 0xf0; 0xf4; 0x62; 0xee; 0xed; 0xd9;
     0xd1; 0xf2; 0xd4; 0x6b; 0xdc; 0x10; 0xe4; 0xe2;
     0x41; 0x67; 0xc4; 0x87; 0x5c; 0xf2; 0xf7; 0xa2;
     0x29; 0x7d; 0xa0; 0x2b; 0x8f; 0x4b; 0xa8; 0xe0].
Proof. vm_compute. reflexivity. Qed.

Example SM3_abcd_16 :
  done (process init (concat (replicate 16 [0x61; 0x62; 0x63; 0x64])))
  = [0xde; 0xbe; 0x9f; 0xf9; 0x22; 0x75; 0xb8; 0xa1;
     0x38; 0x60; 0x48; 0x89; 0xc1; 0x8e; 0x5a; 0x4d;
     0x6f; 0xdb; 0x70; 0xe5; 0x38; 0x7e; 0x57; 0x65;
     0x29; 0x3d; 0xcb; 0xa3; 0x9c; 0x0c; 0x57; 0x32].
Proof. vm_compute. reflexivity. Qed.

Lemma SM3_hash_laws : @SM2_laws.hash_laws SM3_hash.
Proof.
  split.
  - intros md. cbn [SM3_done SM3_hash]. unfold done. cbv zeta.
    match goal with
    | |- context [digest ?V] => destruct V as [[[[[[[A B] C] D] E] F] G] H]
    end.
    reflexivity.
  - intros md u v. cbn [SM3_process SM3_hash]. unfold process.
    symmetry. apply foldl_app.
Qed.

End SM3_model.

(** * A backend for the curve arithmetic *)

(** MIRACL is not part of the repository. This backend computes on affine
    coordinates over GF(p) for an odd prime p, the point at infinity apart;
    it stands for the library where a run on concrete data is wanted. *)
Module Affine.

Section Field.
Variables p a b : Z.

Definition point : Type := option (Z * Z).

Definition halve (x : Z) : Z := if Z.even x then Z.div2 x else Z.div2 (x + p).

(** The inverse modulo p by halving and subtracting: x1 * x = u and
    x2 * x = v modulo p throughout. *)
Fixpoint inv_loop (fuel : nat) (u v x1 x2 : Z) : Z :=
  match fuel with
  | O => 0
  | S fuel' =>
      if u =? 1 then x1 mod p
      else if v =? 1 then x2 mod p
      else if u =? 0 then 0
      else if Z.even u then inv_loop fuel' (Z.div2 u) v (halve x1) x2
      else if Z.even v then inv_loop fuel' u (Z.div2 v) x1 (halve x2)
      else if v <=? u then inv_loop fuel' (u - v) v (x1 - x2) x2
      else inv_loop fuel' u (v - u) x1 (x2 - x1)
  end.

Definition inv (x : Z) : Z :=
  inv_loop (4 * (Z.to_nat (Z.log2 p) + 1)) (x mod p) p 1 0.

Definition neg (P : point) : point :=
  match P with
  | None => None
  | Some (x, y) => Some (x, (- y) mod p)
  end.

Definition add (P Q : point) : point :=
  match P, Q with
  | None, _ => Q
  | _, None => P
  | Some (x1, y1), Some (x2, y2) =>
      if x1 =? x2 then
        if (y1 + y2) mod p =? 0 then None
        else
          let l := ((3 * x1 * x1 + a) * inv (2 * y1)) mod p in
          let x3 := (l * l - 2 * x1) mod p in
          Some (x3, (l * (x1 - x3) - y1) mod p)
      else
        let l := ((y2 - y1) * inv (x2 - x1)) mod p in
        let x3 := (l * l - x1 - x2) mod p in
        Some (x3, (l * (x1 - x3) - y1) mod p)
  end.

Definition mult (k : Z) (P : point) : point :=
  match k with
  | Z0 => None
  | Zpos q => Pos.iter_op add q P
  | Zneg q => neg (Pos.iter_op add q P)
  end.

Definition set (x y : Z) : option point :=
  if (0 <=? x) && (x <? p) && (0 <=? y) && (y <? p)
     && (y * y mod p =? (x * x * x + a * x + b) mod p)
  then Some (Some (x, y)) else None.

Definition get (P : point) : Z * Z :=
  match P with
  | None => (0, 0)
  | Some xy => xy
  end.

Definition is_infinity (P : point) : bool :=
  match P with
  | None => true
  | Some _ => false
  end.

Definition backend : Curve :=
  {| epoint := point; epoint_init := None; epoint_set := set;
     epoint_get := get; ecurve_mult := mult; ecurve_add := add;
     point_at_infinity := is_infinity |}.

End Field.

End Affine.

(** * A small curve on which the backend's laws are checked *)

(** The curve y^2 = x^3 + x + 6 over GF(11): its group has the prime order
    13 and is generated by G = (2, 7). The parameters are laid out as the
    header lays out SM2's, in 32 bytes each. *)
Module F11.
Import MIRACL SM2_laws.

Definition params : Params := {|
  SM2_p := replicate 31 0 ++ [11];
  SM2_a := replicate 31 0 ++ [1];
  SM2_b := replicate 31 0 ++ [6];
  SM2_n := replicate 31 0 ++ [13];
  SM2_Gx := replicate 31 0 ++ [2];
  SM2_Gy := replicate 31 0 ++ [7];
  SM2_h := replicate 31 0 ++ [1]
|}.

Definition curve : Curve := Affine.backend 11 1 6.

Definition G0 : @epoint curve := Some (2, 7).

(** The multiples of G. *)
Definition table : list Affine.point :=
  [ None; Some (2, 7); Some (5, 2); Some (8, 3); Some (10, 2); Some (3, 6);
    Some (7, 9); Some (7, 2); Some (3, 5); Some (10, 9); Some (8, 8);
    Some (5, 9); Some (2, 4) ].

Definition T (i : Z) : Affine.point := nth (Z.to_nat i) table None.

Ltac cases13 i :=
  let H := fresh in
  assert (H : i = 0 \/ i = 1 \/ i = 2 \/ i = 3 \/ i = 4 \/ i = 5 \/ i = 6
              \/ i = 7 \/ i = 8 \/ i = 9 \/ i = 10 \/ i = 11 \/ i = 12) by lia;
  destruct H as [->|[->|[->|[->|[->|[->|[->|[->|[->|[->|[->|[->| ->]]]]]]]]]]]].

Lemma add_T (i j : Z) :
  0 <= i < 13 -> 0 <= j < 13 ->
  Affine.add 11 1 (T i) (T j) = T ((i + j) mod 13).
Proof. intros Hi Hj. cases13 i; cases13 j; reflexivity. Qed.

Lemma neg_T (i : Z) :
  0 <= i < 13 -> Affine.neg 11 (T i) = T ((- i) mod 13).
Proof. intros Hi. cases13 i; reflexivity. Qed.

Lemma iter_T (q : positive) (i : Z) :
  0 <= i < 13 ->
  Pos.iter_op (Affine.add 11 1) q (T i) = T ((Z.pos q * i) mod 13).
Proof.
  revert i. induction q as [q IH | q IH |]; intros i Hi.
  - cbn [Pos.iter_op]. rewrite (add_T i i Hi Hi).
    rewrite IH by (apply Z.mod_pos_bound; lia).
    rewrite add_T by (try apply Z.mod_pos_bound; lia).
    f_equal. rewrite Pos2Z.inj_xI.
    rewrite Z.add_mod_idemp_r by lia.
    rewrite <- (Z.add_mod_idemp_r i (Z.pos q * ((i + i) mod 13))) by lia.
    rewrite Z.mul_mod_idemp_r, Z.add_mod_idemp_r by lia. f_equal. lia.
  - cbn [Pos.iter_op]. rewrite (add_T i i Hi Hi).
    rewrite IH by (apply Z.mod_pos_bound; lia).
    f_equal. rewrite Pos2Z.inj_xO.
    rewrite Z.mul_mod_idemp_r by lia. f_equal. lia.
  - cbn [Pos.iter_op]. rewrite Z.mul_1_l, Z.mod_small by lia. reflexivity.
Qed.

Lemma mult_T (k i : Z) :
  0 <= i < 13 -> Affine.mult 11 1 k (T i) = T ((k * i) mod 13).
Proof.
  intros Hi. destruct k as [|q|q]; unfold Affine.mult.
  - reflexivity.
  - apply iter_T, Hi.
  - rewrite iter_T by exact Hi.
    rewrite neg_T by (apply Z.mod_pos_bound; lia).
    f_equal. change (Z.neg q) with (- Z.pos q). rewrite Z.mul_opp_l.
    generalize (Z.pos q * i). clear. intros y.
    Z.div_mod_to_equations. lia.
Qed.

Lemma laws : @curve_laws curve params G0.
Proof.
  assert (HG : G0 = T 1) by reflexivity.
  split; change (@n_ params) with 13; change (@p_ params) with 11;
    cbn [ecurve_mult ecurve_add epoint_get epoint_set point_at_infinity
         curve Affine.backend].
  - lia.
  - lia.
  - reflexivity.
  - reflexivity.
  - intros k. rewrite HG, mult_T, Z.mul_1_r by lia.
    pose proof (Z.mod_pos_bound k 13 ltac:(lia)) as Hk.
    cases13 (k mod 13); reflexivity.
  - intros k. rewrite HG, !mult_T, !Z.mul_1_r, Z.mod_mod by lia. reflexivity.
  - intros j k. rewrite HG, (mult_T k), Z.mul_1_r by lia.
    rewrite !mult_T by first [lia | apply Z.mod_pos_bound; lia].
    rewrite Z.mul_mod_idemp_r, Z.mul_1_r by lia. reflexivity.
  - intros j k. rewrite HG, !mult_T, !Z.mul_1_r by lia.
    rewrite add_T by (apply Z.mod_pos_bound; lia).
    rewrite <- Z.add_mod by lia. reflexivity.
  - intros k Hk. rewrite HG, mult_T, Z.mul_1_r by lia.
    pose proof (Z.mod_pos_bound k 13 ltac:(lia)) as Hb.
    remember (k mod 13) as r eqn:Er. clear Er.
    cases13 r; try (exfalso; apply Hk; reflexivity);
      repeat split; vm_compute; first [reflexivity | discriminate].
  - intros k Hk. rewrite HG, mult_T, Z.mul_1_r by lia.
    pose proof (Z.mod_pos_bound k 13 ltac:(lia)) as Hb.
    remember (k mod 13) as r eqn:Er. clear Er.
    cases13 r; try (exfalso; apply Hk; reflexivity); reflexivity.
  - intros k Hk. unfold on_curve.
    change (@p_ params) with 11. change (@a_ params) with 1.
    change (@b_ params) with 6.
    rewrite HG, mult_T, Z.mul_1_r by lia.
    pose proof (Z.mod_pos_bound k 13 ltac:(lia)) as Hb.
    remember (k mod 13) as r eqn:Er. clear Er.
    cases13 r; try (exfalso; apply Hk; reflexivity); reflexivity.
Qed.

End F11.

(** * Runs on the small curve *)

Module SM2_examples.
Import MIRACL SM2_laws.

#[local] Existing Instance F11.curve.
#[local] Existing Instance SM3_model.SM3_hash.
#[local] Existing Instance F11.params.

(** A private key d = 5, a random k = 3, an identity hash and a message. *)
Definition d : list Z := replicate 31 0 ++ [5].
Definition rand : list Z := replicate 31 0 ++ [3].
Definition ZA : list Z := replicate 32 0.
Definition message : list Z := [1; 2; 3].
Definition blank : list Z := replicate 32 0.

Lemma SM2_Sign_steps_witness :
  exists inv : Z,
    (6 * inv) mod 13 = 1
    /\ SM2_sv.SM2_Sign message 3 ZA rand d blank blank
       = (0, big_to_bytes 32 6, big_to_bytes 32 ((inv * (3 - 6 * 5)) mod 13)).
Proof.
  destruct (SM2_signature.SM2_Sign_steps F11.G0 message 3 ZA rand d blank blank
              F11.laws eq_refl eq_refl eq_refl)
    as (inv & Hr & Hinv & Hsign & _).
  exists inv. split; [exact Hinv|].
  rewrite Hsign.
  change (bytes_to_big SM2_NUMWORD d) with 5 in *.
  change (@n_ F11.params) with 13 in *.
  assert (E : inv = 11) by (clear - Hr Hinv; Z.div_mod_to_equations; lia).
  rewrite E. vm_compute. reflexivity.
Defined.

(** The public key [5]G = (3, 6) and the signature (r, s) = (6, 2). *)
Definition Px : list Z := replicate 31 0 ++ [3].
Definition Py : list Z := replicate 31 0 ++ [6].
Definition R : list Z := replicate 31 0 ++ [6].
Definition S : list Z := replicate 31 0 ++ [2].

Lemma SM2_Verify_steps_witness :
  SM2_sv.SM2_Verify message 3 ZA Px Py R S = 0
  /\ SM2_sv.SM2_Verify message 3 ZA Px Py S R = SM2_sv.ERR_DATA_MEMCMP
  /\ SM2_sv.SM2_Verify message 3 ZA Px Px R S = SM2_sv.ERR_PUBKEY_INIT.
Proof.
  pose proof (SM2_signature.SM2_Verify_steps F11.G0 message 3 ZA Px Py R S
                F11.laws eq_refl eq_refl) as H1.
  pose proof (SM2_signature.SM2_Verify_steps F11.G0 message 3 ZA Px Py S R
                F11.laws eq_refl eq_refl) as H2.
  pose proof (SM2_signature.SM2_Verify_steps F11.G0 message 3 ZA Px Px R S
                F11.laws eq_refl eq_refl) as H3.
  cbv zeta in H1, H2, H3.
  split; [|split].
  - rewrite H1. vm_compute. reflexivity.
  - rewrite H2. vm_compute. reflexivity.
  - rewrite H3. vm_compute. reflexivity.
Defined.

Lemma SM2_Sign_then_Verify_witness :
  SM2_sv.SM2_KeyGeneration d = (0, Px, Py)
  /\ SM2_sv.SM2_Sign message 3 ZA rand d blank blank = (0, R, S)
  /\ SM2_sv.SM2_Verify message 3 ZA Px Py R S = 0.
Proof.
  destruct (SM2_signature.SM2_Sign_then_Verify F11.G0 message 3 ZA rand d
              blank blank F11.laws eq_refl eq_refl)
    as (Px' & Py' & Hkey & Hverify).
  - vm_compute. split; discriminate.
  - vm_compute. split; discriminate.
  - reflexivity.
  - assert (Hk : SM2_sv.SM2_KeyGeneration d = (0, Px, Py))
      by (vm_compute; reflexivity).
    assert (Hs : SM2_sv.SM2_Sign message 3 ZA rand d blank blank = (0, R, S))
      by (vm_compute; reflexivity).
    rewrite Hk in Hkey. injection Hkey as <- <-.
    split; [exact Hk|]. split; [exact Hs|].
    exact (Hverify R S Hs).
Defined.

(** ** Encryption on the small curve *)

Definition g : SM2_ENC.globals := SM2_encryption.initialised F11.G0.

(** The public key [5]G. *)
Definition pubKey : @epoint F11.curve := ecurve_mult 5 F11.G0.

(** [3]G = (8, 3) and [3][5]G = [2]G = (5, 2). *)
Definition x1 : list Z := replicate 31 0 ++ [8].
Definition y1 : list Z := replicate 31 0 ++ [3].
Definition x2 : list Z := replicate 31 0 ++ [5].
Definition y2 : list Z := replicate 31 0 ++ [2].

Definition cipher : list Z :=
  x1 ++ y1 ++ SM3 (x2 ++ message ++ y2)
     ++ zip_with Z.lxor message (KDF_spec.KDF_stream (x2 ++ y2) 3).

Lemma SM2_Encrypt_example :
  SM2_ENC.SM2_Encrypt g rand pubKey message 3 (replicate 99 0) = Some (0, cipher).
Proof. vm_compute. reflexivity. Qed.

Lemma SM2_Encrypt_layout_witness :
  SM2_ENC.SM2_Encrypt g rand pubKey message 3 (replicate 99 0 ++ [7; 7])
    = Some (0, cipher ++ [7; 7])
  /\ cipher ++ [7; 7]
     = x1 ++ y1 ++ SM3 (x2 ++ message ++ y2)
          ++ zip_with Z.lxor message (KDF_spec.KDF_stream (x2 ++ y2) 3)
          ++ [7; 7].
Proof.
  assert (H : SM2_ENC.SM2_Encrypt g rand pubKey message 3 (replicate 99 0 ++ [7; 7])
              = Some (0, cipher ++ [7; 7])) by (vm_compute; reflexivity).
  split; [exact H|].
  pose proof (SM2_encryption.SM2_Encrypt_layout g rand pubKey message
                (replicate 99 0 ++ [7; 7]) (cipher ++ [7; 7]) 3
                SM3_model.SM3_hash_laws eq_refl ltac:(lia)
                ltac:(vm_compute; discriminate) H) as L.
  cbv zeta in L. destruct L as (_ & _ & _ & L). exact L.
Defined.

Lemma SM2_Decrypt_Encrypt_witness :
  SM2_ENC.SM2_Encrypt (snd SM2_ENC.SM2_Init) rand
    (ecurve_mult 5 (SM2_ENC.G (snd SM2_ENC.SM2_Init))) message 3 (replicate 99 0)
    = Some (0, cipher)
  /\ SM2_ENC.SM2_Decrypt (snd SM2_ENC.SM2_Init) 5 cipher 99 [9; 9; 9; 9]
     = Some (0, message ++ [9]).
Proof.
  assert (H : SM2_ENC.SM2_Encrypt (snd SM2_ENC.SM2_Init) rand
                (ecurve_mult 5 (SM2_ENC.G (snd SM2_ENC.SM2_Init))) message 3
                (replicate 99 0) = Some (0, cipher))
    by (vm_compute; reflexivity).
  split; [exact H|].
  apply (SM2_encryption.SM2_Decrypt_Encrypt F11.G0 rand message (replicate 99 0)
           cipher [9; 9; 9; 9] 5 3 F11.laws SM3_model.SM3_hash_laws).
  - vm_compute. split; discriminate.
  - vm_compute. split; discriminate.
  - reflexivity.
  - lia.
  - vm_compute. discriminate.
  - vm_compute. discriminate.
  - exact H.
Defined.

(** The cipher text with the first byte of C3 replaced. *)
Definition tampered : list Z := <[64%nat := 0]> cipher.

Lemma SM2_Decrypt_mismatch_leaves_candidate_witness :
  SM2_ENC.SM2_Decrypt g 5 tampered 99 [9; 9; 9; 9]
    = Some (SM2_ENC.ERR_C3_MATCH, message ++ [9])
  /\ message ++ [9]
     = zip_with Z.lxor (KDF_spec.KDF_stream (x2 ++ y2) 3)
                       (take 3 (drop 96 tampered)) ++ [9].
Proof.
  assert (H : SM2_ENC.SM2_Decrypt g 5 tampered 99 [9; 9; 9; 9]
              = Some (SM2_ENC.ERR_C3_MATCH, message ++ [9]))
    by (vm_compute; reflexivity).
  split; [exact H|].
  pose proof (SM2_encryption.SM2_Decrypt_mismatch_leaves_candidate g 5 tampered
                [9; 9; 9; 9] (message ++ [9]) 99 SM3_model.SM3_hash_laws
                ltac:(vm_compute; discriminate) ltac:(lia)
                ltac:(vm_compute; discriminate) H) as L.
  cbv zeta in L. destruct L as (L & _). exact L.
Defined.

(** ** A message of 65537 bytes *)

Definition long_message : list Z := replicate (Z.to_nat 65537) 0.

Lemma long_message_length : Z.of_nat (length long_message) = 65537.
Proof. unfold long_message. rewrite length_replicate. lia. Qed.

Lemma SM2_Encrypt_long_message_witness :
  exists C' : list Z,
    SM2_ENC.SM2_Encrypt g rand pubKey long_message 65537
      (replicate (Z.to_nat (65537 + 96)) 255) = Some (0, C')
    /\ drop (Z.to_nat (96 + u16 65537)) C'
       = (fun m => Z.lxor m 255) <$> drop (Z.to_nat (u16 65537)) long_message.
Proof.
  apply (SM2_encryption.SM2_Encrypt_long_message g rand pubKey long_message
           65537 255 SM3_model.SM3_hash_laws long_message_length).
  - lia.
  - vm_compute. discriminate.
  - lia.
  - reflexivity.
Defined.


(** A cipher text with C1 = [3]G and 65537 bytes of C2. *)
Definition long_cipher : list Z :=
  x1 ++ y1 ++ replicate (Z.to_nat (32 + 65537)) 0.

Lemma SM2_Decrypt_long_cipher_witness :
  exists (rc : Z) (M' : list Z),
    SM2_ENC.SM2_Decrypt g 5 long_cipher (65537 + 96)
      (replicate (Z.to_nat (65537 + 96 - 96)) 1) = Some (rc, M')
    /\ (rc = 0 \/ rc = SM2_ENC.ERR_C3_MATCH)
    /\ drop (Z.to_nat (u16 (65537 + 96 - 96))) M'
       = Z.lxor 1 <$> drop (Z.to_nat (96 + u16 (65537 + 96 - 96))) long_cipher.
Proof.
  apply (SM2_encryption.SM2_Decrypt_long_cipher g 5 long_cipher (65537 + 96) 1
           SM3_model.SM3_hash_laws).
  - unfold long_cipher. rewrite !length_app, length_replicate.
    change (length x1) with 32%nat. change (length y1) with 32%nat. lia.
  - lia.
  - vm_compute. discriminate.
  - lia.
  - reflexivity.
  - reflexivity.
Defined.

End SM2_examples.

(** * KDF.h: what SM3_KDF writes *)

Module KDF_properties.
Import MIRACL KDF KDF_spec SM2_laws.

Section WithHash.
Context {hash : Hash}.

(** For 1 <= klen <= 65535 and K[klen] inside the array, SM3_KDF writes the
    key stream of the spec, SM3 (Z || ct) for ct = 1, 2, ... cut to klen
    bytes, over K[0 .. klen-1], and no other byte of the array changes. *)
Theorem SM3_KDF_writes_stream (Z_ : list Z) (zlen klen : Z) (buf : list Z)
    (K : Z) :
  hash_laws ->
  1 <= klen <= 65535 -> 0 <= K -> K + klen <= Z.of_nat (length buf) ->
  SM3_KDF Z_ zlen klen buf K
    = Some (take (Z.to_nat K) buf
            ++ KDF_stream (take (Z.to_nat zlen) Z_) klen
            ++ drop (Z.to_nat (K + klen)) buf).
Proof.
  intros HH Hk HK Hlen.
  pose proof (SM3_KDF_stream Z_ zlen klen (take (Z.to_nat K) buf)
                (drop (Z.to_nat K) buf) HH Hk) as E.
  rewrite take_drop, length_take, length_drop in E.
  replace (Z.of_nat (Z.to_nat K `min` length buf)) with K in E by lia.
  rewrite E by lia. rewrite drop_drop.
  replace (Z.to_nat (K + klen)) with (Z.to_nat K + Z.to_nat klen)%nat by lia.
  reflexivity.
Qed.

Lemma SM3_KDF_zero_copy (Z_ : list Z) (zlen : Z) (buf : list Z) (K : Z) :
  hash_laws ->
  SM3_KDF Z_ zlen 0 buf K
    = memcpy buf (K - 32) (SM3 (take (Z.to_nat zlen) Z_ ++ [0; 0; 0; 1])) 32.
Proof.
  intros HH. unfold SM3_KDF. cbv zeta.
  change (u32 (0 * 8)) with 0. change (Z.rem 0 256 =? 0) with true.
  cbv iota. change (u16 (Z.quot 0 256)) with 0.
  change (Z.to_nat (0 - 1)) with 0%nat. cbn [KDF_loop mbind option_bind].
  change [0; 0; 0; 1] with (be32 1). rewrite Ha_of_SM3 by exact HH.
  f_equal.
Qed.

(** With klen = 0 the function still hashes once and copies the whole
    32-byte block to K + 32 * (t - 1) for t = 0: the 32 bytes before K are
    overwritten, and for K < 32 the copy starts before the array. *)
Theorem SM3_KDF_zero_length (Z_ : list Z) (zlen : Z) (buf : list Z) (K : Z) :
  hash_laws ->
  let Ha := SM3 (take (Z.to_nat zlen) Z_ ++ [0; 0; 0; 1]) in
  (K < 32 -> SM3_KDF Z_ zlen 0 buf K = None)
  /\ (32 <= K <= Z.of_nat (length buf) ->
      SM3_KDF Z_ zlen 0 buf K
        = Some (take (Z.to_nat (K - 32)) buf ++ Ha ++ drop (Z.to_nat K) buf)).
Proof.
  intros HH Ha.
  assert (E : SM3_KDF Z_ zlen 0 buf K = memcpy buf (K - 32) Ha 32)
    by (apply SM3_KDF_zero_copy, HH).
  assert (HHa : length Ha = 32%nat) by (unfold Ha, SM3; apply (done_length HH)).
  rewrite E. clearbody Ha. unfold memcpy. split.
  - intros HK. destruct (Z.leb_spec 0 (K - 32)); [lia|]. reflexivity.
  - intros HK.
    destruct (Z.leb_spec 0 (K - 32)); [|lia].
    destruct (Z.leb_spec (K - 32 + 32) (Z.of_nat (length buf))); [|lia].
    destruct (Z.leb_spec 32 (Z.of_nat (length Ha))); [|lia].
    cbn [andb Z.leb Z.compare]. rewrite (take_ge Ha) by lia.
    replace (K - 32 + 32) with K by lia. reflexivity.
Qed.

End WithHash.

(** The counter of the KDF is a 32-bit big-endian number: the nested tests
    add one to it, and 0xFFFFFFFF wraps to 0. *)
Theorem ct_incr_counts (c : Z) :
  0 <= c < 2 ^ 32 -> ct_incr (be32 c) = be32 ((c + 1) mod 2 ^ 32).
Proof.
  intros Hc. destruct (Z.eq_dec c (2 ^ 32 - 1)) as [-> | Hne].
  - reflexivity.
  - rewrite Z.mod_small by lia. apply ct_incr_be32; lia.
Qed.

Lemma ct_incr_counts_witness :
  ct_incr [1; 255; 255; 255] = [2; 0; 0; 0]
  /\ ct_incr [255; 255; 255; 255] = [0; 0; 0; 0].
Proof.
  split.
  - apply (ct_incr_counts 0x01FFFFFF). lia.
  - apply (ct_incr_counts 0xFFFFFFFF). lia.
Defined.

#[local] Existing Instance SM3_model.SM3_hash.

(** Forty bytes of key stream, a block and a quarter, into the middle of an
    array of fifty. *)
Lemma SM3_KDF_writes_stream_witness :
  SM3_KDF [1; 2; 3] 3 40 (replicate 50 7) 5
    = Some (replicate 5 7
            ++ take 40 (SM3 ([1; 2; 3] ++ [0; 0; 0; 1])
                        ++ SM3 ([1; 2; 3] ++ [0; 0; 0; 2]))
            ++ replicate 5 7).
Proof.
  pose proof (SM3_KDF_writes_stream [1; 2; 3] 3 40 (replicate 50 7) 5
                SM3_model.SM3_hash_laws ltac:(lia) ltac:(lia)
                ltac:(cbn [length replicate]; lia)) as H.
  rewrite H. vm_compute. reflexivity.
Defined.

Lemma SM3_KDF_zero_length_witness :
  SM3_KDF [1; 2; 3] 3 0 (replicate 40 7) 0 = None
  /\ SM3_KDF [1; 2; 3] 3 0 (replicate 40 7) 32
     = Some (SM3 ([1; 2; 3] ++ [0; 0; 0; 1]) ++ replicate 8 7).
Proof.
  pose proof (SM3_KDF_zero_length [1; 2; 3] 3 (replicate 40 7) 0
                SM3_model.SM3_hash_laws) as H0.
  pose proof (SM3_KDF_zero_length [1; 2; 3] 3 (replicate 40 7) 32
                SM3_model.SM3_hash_laws) as H32.
  cbv zeta in H0, H32. split.
  - apply H0. lia.
  - pose proof (proj2 H32 ltac:(cbn [length replicate]; lia)) as E.
    rewrite E. vm_compute. reflexivity.
Defined.

End KDF_properties.

(** * Key generation *)

(** The key-generation half of SM2_ENC.c, which the encryption claims do
    not reach. *)
Module SM2_ENC_keys.
Import MIRACL SM2_laws SM2_ENC.

(** "2: X or Y coordinate is beyond Fq", from the header of Test_PubKey. *)
Definition ERR_NOT_VALID_ELEMENT : Z := 2.

Section WithBackend.
Context {curve : Curve} {hash : Hash} {params : Params}.

(** test if the given point is valid *)
Definition Test_PubKey (g : globals) (pubKey : epoint) : Z :=
  (* test if the pubKey is the point at infinity *)
  if point_at_infinity pubKey then ERR_INFINITY_POINT
  else
    (* test if x < p and y < p both hold *)
    let '(x, y) := epoint_get pubKey in
    if negb (x <? para_p g) || negb (y <? para_p g) then ERR_NOT_VALID_ELEMENT
    else if negb (Test_Point g pubKey =? 0) then ERR_NOT_VALID_POINT
    else
      (* test if the order of pubKey is equal to n *)
      let nP := ecurve_mult (para_n g) pubKey in
      if negb (point_at_infinity nP) then ERR_ORDER else 0.

(** calculate a pubKey out of a given priKey: the return value and the
    point pubKey on return *)
Definition SM2_KeyGeneration (g : globals) (priKey : Z) : Z * epoint :=
  let pubKey := ecurve_mult priKey (G g) in
  if negb (Test_PubKey g pubKey =? 0) then (1, pubKey) else (0, pubKey).

(** After SM2_Init the function accepts every private key that is not a
    multiple of n and rejects (with 1) the multiples of n: the interval
    [[1, n-2]] of its header is not tested, n - 1 and keys above n pass. The
    public key is [priKey]G in both cases. *)
Theorem SM2_KeyGeneration_accepts (G0 : epoint) (priKey : Z) :
  curve_laws G0 ->
  SM2_KeyGeneration (snd SM2_Init) priKey
    = (if priKey mod n_ =? 0 then 1 else 0, ecurve_mult priKey G0).
Proof.
  intros HL. rewrite (SM2_encryption.SM2_Init_globals G0 HL). cbn [snd].
  pose proof (n_range G0 HL) as [Hn _].
  unfold SM2_KeyGeneration, Test_PubKey.
  change (G (SM2_encryption.initialised G0)) with G0.
  change (para_p (SM2_encryption.initialised G0)) with p_.
  change (para_n (SM2_encryption.initialised G0)) with n_.
  rewrite (mult_infinity G0 HL priKey).
  destruct (Z.eqb_spec (priKey mod n_) 0) as [E | E]; [reflexivity|].
  rewrite (SM2_encryption.Test_Point_multiple G0 priKey HL E).
  pose proof (get_range G0 HL priKey E) as [Hx Hy].
  destruct (epoint_get (ecurve_mult priKey G0)) as [x y]. cbn [fst snd] in *.
  destruct (Z.ltb_spec x p_); [|lia]. destruct (Z.ltb_spec y p_); [|lia].
  cbn [negb orb Z.eqb].
  rewrite (mult_mult G0 HL), (mult_infinity G0 HL).
  replace (n_ * priKey) with (priKey * n_) by lia.
  rewrite Z.mod_mul by lia. reflexivity.
Qed.

End WithBackend.

End SM2_ENC_keys.

Module SM2_sv_keys.
Import MIRACL SM2_laws SM2_sv.

Section WithBackend.
Context {curve : Curve} {hash : Hash} {params : Params}.

(** SM2_KeyGeneration of SM2_sv.c returns 0 for every private key that is
    not a multiple of n and ERR_INFINITY_POINT for the multiples of n, zero
    among them; Px and Py receive the coordinates of [d]G as 32 big-endian
    bytes in both cases. *)
Theorem SM2_KeyGeneration_codes (G0 : epoint) (PriKey : list Z) :
  curve_laws G0 ->
  let d := bytes_to_big SM2_NUMWORD PriKey in
  SM2_KeyGeneration PriKey
    = (if d mod n_ =? 0 then ERR_INFINITY_POINT else 0,
       big_to_bytes 32 (fst (epoint_get (ecurve_mult d G0))),
       big_to_bytes 32 (snd (epoint_get (ecurve_mult d G0)))).
Proof.
  intros HL d. pose proof (n_range G0 HL) as [Hn _].
  unfold SM2_KeyGeneration. rewrite (SM2_signature.SM2_Init_ok G0 HL).
  cbn [G]. fold d. unfold Test_PubKey.
  rewrite (mult_infinity G0 HL d).
  destruct (Z.eqb_spec (d mod n_) 0) as [E | E].
  { destruct (epoint_get (ecurve_mult d G0)) as [x y]. reflexivity. }
  pose proof (get_range G0 HL d E) as [Hx Hy].
  pose proof (SM2_signature.Test_Point_on_curve G0 (ecurve_mult d G0) HL
                (get_on_curve G0 HL d E)) as HTP.
  rewrite HTP. cbn [n p].
  destruct (epoint_get (ecurve_mult d G0)) as [x y]. cbn [fst snd] in *.
  destruct (Z.ltb_spec x p_); [|lia]. destruct (Z.ltb_spec y p_); [|lia].
  cbn [negb orb Z.eqb].
  rewrite (mult_mult G0 HL), (mult_infinity G0 HL).
  replace (n_ * d) with (d * n_) by lia.
  rewrite Z.mod_mul by lia. reflexivity.
Qed.

End WithBackend.

End SM2_sv_keys.

(** * SM2_ENC.c without a byte to encrypt *)

Module SM2_empty.
Import MIRACL MIRACL_facts KDF KDF_spec SM2_laws SM2_ENC SM2_encryption.

Section WithBackend.
Context {curve : Curve} {hash : Hash} {params : Params}.

(** For klen = 0 SM2_Encrypt (with [h]P not the point at infinity) returns
    ERR_ARRAY_NULL, the empty key stream passing Test_Null as all zero. By
    then it has written C1, and the KDF call has put one whole hash block,
    SM3 (x2 || y2 || 00000001), into the 32 bytes before C + 96, the place
    of C3. *)
Theorem SM2_Encrypt_empty_message (g : globals) (randK : list Z)
    (pubKey : epoint) (M C : list Z) :
  hash_laws ->
  (96 <= length C)%nat ->
  point_at_infinity (ecurve_mult (para_h g) pubKey) = false ->
  let k := bytes_to_big SM2_NUMWORD randK in
  let x1 := big_to_bytes SM2_NUMWORD (fst (epoint_get (ecurve_mult k (G g)))) in
  let y1 := big_to_bytes SM2_NUMWORD (snd (epoint_get (ecurve_mult k (G g)))) in
  let x2 := big_to_bytes SM2_NUMWORD (fst (epoint_get (ecurve_mult k pubKey))) in
  let y2 := big_to_bytes SM2_NUMWORD (snd (epoint_get (ecurve_mult k pubKey))) in
  SM2_Encrypt g randK pubKey M 0 C
    = Some (ERR_ARRAY_NULL,
            x1 ++ y1 ++ SM3 (x2 ++ y2 ++ [0; 0; 0; 1]) ++ drop 96 C).
Proof.
  intros HH HC Hinf k x1 y1 x2 y2.
  assert (Hx1 : length x1 = 32%nat) by apply big_to_bytes_length.
  assert (Hy1 : length y1 = 32%nat) by apply big_to_bytes_length.
  assert (Hx2 : length x2 = 32%nat) by apply big_to_bytes_length.
  assert (Hy2 : length y2 = 32%nat) by apply big_to_bytes_length.
  assert (HC' : C = take 32 C ++ take 32 (drop 32 C) ++ take 32 (drop 64 C)
                     ++ drop 96 C).
  { change 96%nat with (64 + 32)%nat. rewrite <- drop_drop, take_drop.
    change 64%nat with (32 + 32)%nat. rewrite <- drop_drop, take_drop.
    rewrite take_drop. reflexivity. }
  set (c0 := take 32 C) in *. set (c1 := take 32 (drop 32 C)) in *.
  set (c2 := take 32 (drop 64 C)) in *.
  assert (H0 : length c0 = 32%nat) by (unfold c0; rewrite length_take; lia).
  assert (H1 : length c1 = 32%nat)
    by (unfold c1; rewrite length_take, length_drop; lia).
  assert (H2 : length c2 = 32%nat)
    by (unfold c2; rewrite length_take, length_drop; lia).
  rewrite HC' at 1. clearbody c0 c1 c2.
  unfold SM2_Encrypt. fold k.
  destruct (epoint_get (ecurve_mult k (G g))) as [X1 Y1].
  destruct (epoint_get (ecurve_mult k pubKey)) as [X2 Y2].
  cbn [fst snd] in *. fold x1 y1 x2 y2. clearbody x1 y1 x2 y2 k.
  unfold SM2_NUMWORD. change (Z.of_nat 32) with 32.
  pose proof (memcpy_over [] c0 (c1 ++ c2 ++ drop 96 C) x1 0 32) as E.
  cbn [app] in E. rewrite E by (cbn [length]; lia). clear E.
  cbn [mbind option_bind].
  rewrite (memcpy_over x1 c1) by lia. cbn [mbind option_bind].
  rewrite Hinf.
  change (u16 (32 * 2)) with 64. change (32 * 3) with 96.
  change (u16 0) with 0.
  rewrite (KDF_properties.SM3_KDF_zero_copy (x2 ++ y2) 64 _ 96 HH).
  rewrite (take_ge (x2 ++ y2)) by (rewrite length_app; lia).
  change (96 - 32) with 64.
  rewrite (app_assoc x1 y1).
  rewrite (memcpy_over (x1 ++ y1) c2)
    by (rewrite ?length_app; unfold SM3; rewrite ?(done_length HH); lia).
  cbn [mbind option_bind].
  rewrite Test_Null_empty by lia. cbn [Z.eqb negb].
  rewrite <- !app_assoc. reflexivity.
Qed.


End WithBackend.

End SM2_empty.

Module SM2_key_examples.
Import MIRACL SM2_laws SM2_examples.

#[local] Existing Instance F11.curve.
#[local] Existing Instance SM3_model.SM3_hash.
#[local] Existing Instance F11.params.

(** On the small curve n - 1 = 12 and 18 = n + 5 pass for private keys, and
    n = 13 is rejected. *)
Lemma SM2_KeyGeneration_accepts_witness :
  SM2_ENC_keys.SM2_KeyGeneration (snd SM2_ENC.SM2_Init) 12 = (0, Some (2, 4))
  /\ SM2_ENC_keys.SM2_KeyGeneration (snd SM2_ENC.SM2_Init) 18 = (0, Some (3, 6))
  /\ SM2_ENC_keys.SM2_KeyGeneration (snd SM2_ENC.SM2_Init) 13 = (1, None).
Proof.
  pose proof (SM2_ENC_keys.SM2_KeyGeneration_accepts F11.G0 12 F11.laws) as H12.
  pose proof (SM2_ENC_keys.SM2_KeyGeneration_accepts F11.G0 18 F11.laws) as H18.
  pose proof (SM2_ENC_keys.SM2_KeyGeneration_accepts F11.G0 13 F11.laws) as H13.
  split; [|split].
  - rewrite H12. reflexivity.
  - rewrite H18. reflexivity.
  - rewrite H13. reflexivity.
Defined.

Lemma SM2_KeyGeneration_codes_witness :
  SM2_sv.SM2_KeyGeneration d = (0, Px, Py)
  /\ fst (fst (SM2_sv.SM2_KeyGeneration (replicate 32 0)))
     = SM2_sv.ERR_INFINITY_POINT.
Proof.
  pose proof (SM2_sv_keys.SM2_KeyGeneration_codes F11.G0 d F11.laws) as H5.
  pose proof (SM2_sv_keys.SM2_KeyGeneration_codes F11.G0 (replicate 32 0)
                F11.laws) as H0.
  cbv zeta in H5, H0. split.
  - rewrite H5. vm_compute. reflexivity.
  - rewrite H0. reflexivity.
Defined.

Lemma SM2_Encrypt_empty_message_witness :
  SM2_ENC.SM2_Encrypt g rand pubKey [] 0 (replicate 96 0)
    = Some (SM2_ENC.ERR_ARRAY_NULL,
            x1 ++ y1 ++ SM3 (x2 ++ y2 ++ [0; 0; 0; 1])).
Proof.
  pose proof (SM2_empty.SM2_Encrypt_empty_message g rand pubKey []
                (replicate 96 0) SM3_model.SM3_hash_laws
                ltac:(cbn [length replicate]; lia) eq_refl) as H.
  cbv zeta in H. rewrite H. vm_compute. reflexivity.
Defined.


End SM2_key_examples.

(** * ZUC.c: the arithmetic of the LFSR, the initialisation and the key stream *)

Module ZUC_properties.
Import ZUC ZUC_LFSR.

(** AddMod on two 31-bit values is addition modulo 2^31 - 1 with a result
    of 31 bits. The result is not reduced: a sum of exactly 2^31 - 1 comes
    back as 2^31 - 1, and 0 comes back only for 0 + 0. *)
Theorem AddMod_adds_modulo (a b : Z) :
  0 <= a < 2 ^ 31 -> 0 <= b < 2 ^ 31 ->
  0 <= AddMod a b < 2 ^ 31
  /\ AddMod a b mod (2 ^ 31 - 1) = (a + b) mod (2 ^ 31 - 1)
  /\ (a + b = 2 ^ 31 - 1 -> AddMod a b = 2 ^ 31 - 1)
  /\ (AddMod a b = 0 <-> a = 0 /\ b = 0).
Proof.
  intros Ha Hb.
  split; [apply AddMod_range; assumption|].
  split; [apply AddMod_mod; assumption|].
  rewrite (AddMod_cases a b Ha Hb).
  destruct (Z.ltb_spec (a + b) (2 ^ 31)); split; lia.
Qed.

Lemma AddMod_adds_modulo_witness :
  AddMod 0x7FFFFFFF 0x7FFFFFFF mod (2 ^ 31 - 1)
    = (0x7FFFFFFF + 0x7FFFFFFF) mod (2 ^ 31 - 1)
  /\ AddMod 0x40000000 0x3FFFFFFF = 0x7FFFFFFF.
Proof.
  split.
  - apply (AddMod_adds_modulo 0x7FFFFFFF 0x7FFFFFFF); lia.
  - apply (AddMod_adds_modulo 0x40000000 0x3FFFFFFF); lia.
Defined.

(** PowMod on a 31-bit value is the multiplication by 2^k modulo 2^31 - 1,
    a rotation of the 31 bits, for 0 < k < 31. *)
Theorem PowMod_multiplies_modulo (x k : Z) :
  0 <= x < 2 ^ 31 -> 0 < k < 31 ->
  0 <= PowMod x k < 2 ^ 31
  /\ PowMod x k mod (2 ^ 31 - 1) = (x * 2 ^ k) mod (2 ^ 31 - 1)
  /\ (x = 2 ^ 31 - 1 -> PowMod x k = 2 ^ 31 - 1).
Proof.
  intros Hx Hk. split; [apply PowMod_range|].
  split; [apply PowMod_mod; assumption|].
  intros ->. pose proof (PowMod_range (2 ^ 31 - 1) k) as Hr.
  pose proof (PowMod_mod (2 ^ 31 - 1) k ltac:(lia) Hk) as Hm.
  replace ((2 ^ 31 - 1) * 2 ^ k) with (0 + 2 ^ k * (2 ^ 31 - 1)) in Hm by lia.
  rewrite Z.mod_add in Hm by lia. change (0 mod (2 ^ 31 - 1)) with 0 in Hm.
  assert (Hcases : PowMod (2 ^ 31 - 1) k = 0 \/ PowMod (2 ^ 31 - 1) k = 2 ^ 31 - 1).
  { revert Hr Hm. generalize (PowMod (2 ^ 31 - 1) k). intros v Hr Hm.
    change (2 ^ 31) with 2147483648 in *. Z.div_mod_to_equations. lia. }
  destruct Hcases as [E | E]; [|exact E].
  exfalso. revert E. unfold PowMod.
  change (2 ^ 31 - 1) with (Z.ones 31). change 0x7fffffff with (Z.ones 31).
  intros E.
  assert (Hbit : Z.testbit
            (Z.land (Z.lor (u32 (Z.shiftl (Z.ones 31) k))
                           (Z.shiftr (Z.ones 31) (31 - k))) (Z.ones 31)) 0 = true).
  { rewrite Z.land_spec, Z.lor_spec, Z.shiftr_spec by lia.
    rewrite !Z.testbit_ones_nonneg by lia.
    destruct (Z.ltb_spec (0 + (31 - k)) 31); [|lia].
    rewrite orb_true_r. reflexivity. }
  rewrite E in Hbit. discriminate Hbit.
Qed.

Lemma PowMod_multiplies_modulo_witness :
  PowMod 0x40000001 8 mod (2 ^ 31 - 1) = (0x40000001 * 2 ^ 8) mod (2 ^ 31 - 1)
  /\ PowMod 0x40000001 8 = 0x00000180.
Proof.
  split.
  - apply (PowMod_multiplies_modulo 0x40000001 8); lia.
  - reflexivity.
Defined.

(** ** The LFSR state after ZUC_Init *)

Lemma lor_bound (a b n : Z) :
  0 <= a < 2 ^ n -> 0 <= b < 2 ^ n -> 0 <= Z.lor a b < 2 ^ n.
Proof.
  intros Ha Hb. split; [apply Z.lor_nonneg; lia|].
  assert (Hn : 0 <= n).
  { destruct (Z.le_gt_cases 0 n); [assumption|].
    rewrite Z.pow_neg_r in Ha by lia. lia. }
  destruct (Z.eq_dec (Z.lor a b) 0) as [-> | Hne]; [lia|].
  assert (Hpos : 0 < Z.lor a b) by (pose proof (Z.lor_nonneg a b); lia).
  apply Z.log2_lt_pow2; [exact Hpos|].
  rewrite Z.log2_lor by lia.
  assert (Hlog : forall c, 0 <= c < 2 ^ n -> 0 < n -> Z.log2 c < n).
  { intros c Hc Hn0. destruct (Z.eq_dec c 0) as [-> | Hc0]; [simpl; lia|].
    apply Z.log2_lt_pow2; lia. }
  assert (0 < n).
  { destruct (Z.eq_dec n 0) as [-> | ?]; [|lia].
    change (2 ^ 0) with 1 in *. assert (a = 0) by lia. assert (b = 0) by lia.
    subst. contradiction. }
  apply Z.max_lub_lt; apply Hlog; assumption.
Qed.

(** A cell k_i || d_i || iv_i of 8 + 15 + 8 bits with a non-zero constant. *)
Lemma LinkToS_cell (a b c : Z) :
  0 <= a < 2 ^ 8 -> 0 < b < 2 ^ 15 -> 0 <= c < 2 ^ 8 ->
  cell_ok (ZUC_LinkToS a b c).
Proof.
  intros Ha Hb Hc. unfold ZUC_LinkToS, u32, cell_ok.
  rewrite !Z.shiftl_mul_pow2 by lia.
  rewrite (Z.mod_small (a * 2 ^ 23)), (Z.mod_small (b * 2 ^ 8)) by lia.
  pose proof (lor_bound (a * 2 ^ 23) (b * 2 ^ 8) 31 ltac:(lia) ltac:(lia)) as H1.
  pose proof (lor_bound (Z.lor (a * 2 ^ 23) (b * 2 ^ 8)) c 31 H1 ltac:(lia)) as H2.
  assert (Hne : Z.lor (Z.lor (a * 2 ^ 23) (b * 2 ^ 8)) c <> 0).
  { intros E. apply Z.lor_eq_0_iff in E as [E _].
    apply Z.lor_eq_0_iff in E as [_ E]. lia. }
  lia.
Qed.

Lemma InitMode_inv (LFSR_S : list Z) (u : Z) :
  LFSR_inv LFSR_S -> 0 <= u < 2 ^ 31 -> LFSR_inv (LFSRWithInitMode LFSR_S u).
Proof.
  intros [Hlen Hall] Hu.
  destruct (LFSR_v_mod LFSR_S Hlen Hall) as [Hv _].
  pose proof (AddMod_range (LFSR_v LFSR_S) u ltac:(lia) Hu) as Hr.
  unfold LFSRWithInitMode. cbv zeta.
  rewrite shift_then_store by exact Hlen.
  rewrite fix15_snoc by (rewrite length_drop; lia).
  split; [rewrite length_app, length_drop, Hlen; reflexivity|].
  apply Forall_app. split; [apply Forall_drop, Hall|].
  constructor; [|constructor].
  destruct (Z.eqb_spec (AddMod (LFSR_v LFSR_S) u) 0); unfold cell_ok; lia.
Qed.

Lemma WorkMode_inv (LFSR_S : list Z) :
  LFSR_inv LFSR_S -> LFSR_inv (LFSRWithWorkMode LFSR_S).
Proof.
  intros [Hlen Hall].
  destruct (LFSR_v_mod LFSR_S Hlen Hall) as [Hv _].
  unfold LFSRWithWorkMode. cbv zeta.
  rewrite shift_then_store by exact Hlen.
  rewrite fix15_snoc by (rewrite length_drop; lia).
  split; [rewrite length_app, length_drop, Hlen; reflexivity|].
  apply Forall_app. split; [apply Forall_drop, Hall|].
  constructor; [|constructor].
  destruct (Z.eqb_spec (LFSR_v LFSR_S) 0); unfold cell_ok; lia.
Qed.

Lemma lookup_total_u8 (l : list Z) (i : nat) :
  Forall is_u8 l -> 0 <= l !!! i < 2 ^ 8.
Proof.
  intros Hl. destruct (l !! i) as [x|] eqn:E.
  - rewrite (list_lookup_total_correct _ _ _ E).
    exact (Forall_lookup_1 _ _ _ _ Hl E).
  - rewrite list_lookup_total_alt, E. simpl. lia.
Qed.

Section Tables.
Variables ZUC_S0 ZUC_S1 ZUC_d : list Z.

Lemma Init_rounds_inv (n : nat) (st : list Z * list Z * list Z) :
  LFSR_inv (fst (fst st)) ->
  LFSR_inv (fst (fst (Nat.iter n (ZUC_Init_round ZUC_S0 ZUC_S1) st))).
Proof.
  intros Hst. induction n as [|n IH]; [exact Hst|].
  rewrite Nat.iter_succ.
  destruct (Nat.iter n (ZUC_Init_round ZUC_S0 ZUC_S1) st) as [[S X] R].
  unfold ZUC_Init_round, F. cbn [fst snd] in *.
  apply InitMode_inv; [exact IH|].
  apply init_injection_word_range, u32_is_u32.
Qed.

(** For a key and an iv of bytes and constants d_0 .. d_15 of 15 bits, none
    of them zero, ZUC_Init leaves sixteen LFSR cells in [[1, 2^31 - 1]], and
    every later step in working mode keeps them there. *)
Theorem ZUC_Init_cells_in_range (k iv BR_X0 : list Z) :
  Forall is_u8 k -> Forall is_u8 iv ->
  (forall i : nat, (i < 16)%nat -> 0 < ZUC_d !!! i < 2 ^ 15) ->
  let LFSR_S := fst (fst (ZUC_Init ZUC_S0 ZUC_S1 ZUC_d k iv BR_X0)) in
  LFSR_inv LFSR_S
  /\ forall n : nat, LFSR_inv (Nat.iter n LFSRWithWorkMode LFSR_S).
Proof.
  intros Hk Hiv Hd LFSR_S.
  assert (Hinit : LFSR_inv LFSR_S).
  { unfold LFSR_S, ZUC_Init. apply Init_rounds_inv. cbn [fst].
    split; [rewrite List.length_map, length_seq; reflexivity|].
    apply List.Forall_map, List.Forall_forall. intros i Hi.
    apply in_seq in Hi.
    apply LinkToS_cell; [apply lookup_total_u8, Hk | apply Hd; lia
                        | apply lookup_total_u8, Hiv]. }
  split; [exact Hinit|].
  intros n. induction n as [|n IH]; [exact Hinit|].
  rewrite Nat.iter_succ. apply WorkMode_inv, IH.
Qed.

End Tables.

Lemma ZUC_Init_cells_in_range_witness :
  LFSR_inv (fst (fst (ZUC_Init ZUC_h.ZUC_S0 ZUC_h.ZUC_S1 ZUC_h.ZUC_d
                        (replicate 16 0) (replicate 16 255) [0; 0; 0; 0]))).
Proof.
  assert (Hk : Forall is_u8 (replicate 16 0))
    by (apply Forall_replicate; unfold is_u8; lia).
  assert (Hiv : Forall is_u8 (replicate 16 255))
    by (apply Forall_replicate; unfold is_u8; lia).
  assert (Hd : forall i : nat, (i < 16)%nat -> 0 < ZUC_h.ZUC_d !!! i < 2 ^ 15).
  { intros i Hi.
    do 16 (destruct i as [|i]; [vm_compute; split; reflexivity|]). lia. }
  pose proof (ZUC_Init_cells_in_range ZUC_h.ZUC_S0 ZUC_h.ZUC_S1 ZUC_h.ZUC_d
                (replicate 16 0) (replicate 16 255) [0; 0; 0; 0] Hk Hiv Hd) as H.
  cbv zeta in H. exact (proj1 H).
Defined.

(** ** The key stream *)

Section Stream.
Variables ZUC_S0 ZUC_S1 ZUC_d : list Z.

Lemma Work_loop_prefix (n m : nat) (LFSR_S F_R : list Z) :
  take n (ZUC_Work_loop ZUC_S0 ZUC_S1 (n + m) LFSR_S F_R)
    = ZUC_Work_loop ZUC_S0 ZUC_S1 n LFSR_S F_R.
Proof.
  revert LFSR_S F_R. induction n as [|n IH]; intros LFSR_S F_R.
  - apply take_0.
  - cbn [Nat.add ZUC_Work_loop]. unfold F. cbn [take]. f_equal. apply IH.
Qed.

(** ZUC_GenKeyStream writes exactly KeyStreamLen words of 32 bits (none for
    KeyStreamLen <= 0), and the words do not depend on how many are asked
    for: a shorter key stream is the beginning of a longer one for the same
    key and iv. *)
Theorem ZUC_GenKeyStream_words (k iv : list Z) (KeyStreamLen Longer : Z) :
  KeyStreamLen <= Longer ->
  length (ZUC_GenKeyStream ZUC_S0 ZUC_S1 ZUC_d k iv KeyStreamLen)
    = Z.to_nat KeyStreamLen
  /\ Forall is_u32 (ZUC_GenKeyStream ZUC_S0 ZUC_S1 ZUC_d k iv KeyStreamLen)
  /\ take (Z.to_nat KeyStreamLen)
          (ZUC_GenKeyStream ZUC_S0 ZUC_S1 ZUC_d k iv Longer)
     = ZUC_GenKeyStream ZUC_S0 ZUC_S1 ZUC_d k iv KeyStreamLen.
Proof.
  intros Hle.
  split; [apply ZUC_EEA3.GenKeyStream_length|].
  split; [apply ZUC_EIA3.GenKeyStream_u32|].
  unfold ZUC_GenKeyStream.
  destruct (ZUC_Init ZUC_S0 ZUC_S1 ZUC_d k iv [0; 0; 0; 0]) as [[LFSR_S BR_X] F_R].
  unfold ZUC_Work, F. cbn [snd].
  replace (Z.to_nat Longer)
    with (Z.to_nat KeyStreamLen + (Z.to_nat Longer - Z.to_nat KeyStreamLen))%nat
    by lia.
  apply Work_loop_prefix.
Qed.

(** ZUC_Confidentiality writes the first L = ceil (LENGTH / 32) words of OBS
    and no other: the array keeps its length and every word from index L on
    is as it was on entry. For LENGTH = 0 the array is unchanged. *)
Theorem ZUC_Confidentiality_writes_L_words (CK : list Z)
    (COUNT BEARER DIRECTION : Z) (IBS : list Z) (LENGTH : Z) (OBS : list Z) :
  0 <= LENGTH ->
  let L := (LENGTH + 31) / 32 in
  (Z.to_nat L <= length OBS)%nat ->
  let R := ZUC_Confidentiality ZUC_S0 ZUC_S1 ZUC_d CK COUNT BEARER DIRECTION
             IBS LENGTH OBS in
  length R = length OBS
  /\ (forall j : nat, (Z.to_nat L <= j)%nat -> R !!! j = OBS !!! j)
  /\ (LENGTH = 0 -> R = OBS).
Proof.
  intros HLEN L HOBS R.
  destruct (ZUC_EEA3.ceil_words LENGTH HLEN) as (Ht & Hsplit & Ht0 & Htn).
  cbv zeta in Ht, Hsplit, Ht0, Htn. fold L in Ht0, Htn.
  assert (HL : 0 <= L) by (unfold L; apply Z.div_pos; lia).
  unfold R, ZUC_Confidentiality. cbv zeta.
  rewrite Z.quot_div_nonneg, Z.rem_mod_nonneg by lia. fold L.
  set (k := ZUC_GenKeyStream ZUC_S0 ZUC_S1 ZUC_d CK
              (Confidentiality_iv COUNT BEARER DIRECTION) L).
  unfold xor_words.
  destruct (ZUC_EEA3.xor_loop_spec IBS k (Z.to_nat L) OBS HOBS) as [Hlen Hlk].
  cbv zeta in Hlen, Hlk.
  set (X := foldl _ OBS (seq 0 (Z.to_nat L))) in *.
  assert (Htail : forall j : nat, (Z.to_nat L <= j)%nat -> X !!! j = OBS !!! j).
  { intros j Hj. rewrite Hlk. destruct (decide (j < Z.to_nat L)%nat); [lia|].
    reflexivity. }
  destruct (Z.eqb_spec (LENGTH mod 32) 0) as [E | E].
  - split; [exact Hlen|]. split; [exact Htail|].
    intros ->. unfold X. change (Z.to_nat L) with 0%nat. reflexivity.
  - split; [rewrite length_insert; exact Hlen|]. split.
    + intros j Hj. rewrite list_lookup_total_insert_ne by lia. apply Htail, Hj.
    + intros ->. exfalso. apply E. reflexivity.
Qed.

End Stream.

Lemma ZUC_GenKeyStream_words_witness :
  take 1 (ZUC_GenKeyStream ZUC_h.ZUC_S0 ZUC_h.ZUC_S1 ZUC_h.ZUC_d
            (replicate 16 0) (replicate 16 0) 2)
    = ZUC_GenKeyStream ZUC_h.ZUC_S0 ZUC_h.ZUC_S1 ZUC_h.ZUC_d
        (replicate 16 0) (replicate 16 0) 1.
Proof.
  pose proof (ZUC_GenKeyStream_words ZUC_h.ZUC_S0 ZUC_h.ZUC_S1 ZUC_h.ZUC_d
                (replicate 16 0) (replicate 16 0) 1 2 ltac:(lia)) as H.
  exact (proj2 (proj2 H)).
Defined.

(** Forty bits into an array of four words: the last two stay. *)
Lemma ZUC_Confidentiality_writes_L_words_witness :
  drop 2 (ZUC_Confidentiality ZUC_h.ZUC_S0 ZUC_h.ZUC_S1 ZUC_h.ZUC_d
            (replicate 16 0) 0 0 0 [1; 2] 40 [7; 7; 7; 7]) = [7; 7].
Proof.
  pose proof (ZUC_Confidentiality_writes_L_words ZUC_h.ZUC_S0 ZUC_h.ZUC_S1
                ZUC_h.ZUC_d (replicate 16 0) 0 0 0 [1; 2] 40 [7; 7; 7; 7]
                ltac:(lia) ltac:(vm_compute; lia)) as H.
  cbv zeta in H. destruct H as (Hlen & Htail & _).
  remember (ZUC_Confidentiality ZUC_h.ZUC_S0 ZUC_h.ZUC_S1 ZUC_h.ZUC_d
              (replicate 16 0) 0 0 0 [1; 2] 40 [7; 7; 7; 7]) as R eqn:ER.
  clear ER.
  change (Z.to_nat ((40 + 31) / 32)) with 2%nat in Htail.
  pose proof (Htail 2%nat ltac:(lia)) as H2.
  pose proof (Htail 3%nat ltac:(lia)) as H3.
  do 5 (destruct R as [|? R]; try discriminate Hlen).
  cbn in H2, H3. subst. reflexivity.
Defined.

(** ** The linear transforms L1 and L2 *)

(** The bits of a rotated word. *)
Lemma rotl32_testbit (x k i : Z) :
  is_u32 x -> 0 < k < 32 -> 0 <= i ->
  Z.testbit (rotl32 x k) i
    = if i <? k then Z.testbit x (i + 32 - k)
      else if i <? 32 then Z.testbit x (i - k) else false.
Proof.
  intros Hx Hk Hi. unfold rotl32, u32.
  rewrite Z.lor_spec, Z.shiftr_spec by lia.
  replace (i + (32 - k)) with (i + 32 - k) by lia.
  destruct (Z.ltb_spec i k).
  - rewrite Z.mod_pow2_bits_low, Z.shiftl_spec by lia.
    rewrite (Z.testbit_neg_r x (i - k)) by lia. reflexivity.
  - rewrite (u32_high_bits x (i + 32 - k) Hx) by lia. rewrite orb_false_r.
    destruct (Z.ltb_spec i 32).
    + rewrite Z.mod_pow2_bits_low, Z.shiftl_spec by lia. reflexivity.
    + apply Z.mod_pow2_bits_high. lia.
Qed.

Lemma rotl32_lxor (x y k : Z) :
  is_u32 x -> is_u32 y -> 0 < k < 32 ->
  rotl32 (Z.lxor x y) k = Z.lxor (rotl32 x k) (rotl32 y k).
Proof.
  intros Hx Hy Hk. apply Z.bits_inj'. intros i Hi.
  rewrite Z.lxor_spec, !rotl32_testbit by (try apply lxor_u32; assumption).
  destruct (i <? k); [apply Z.lxor_spec|].
  destruct (i <? 32); [apply Z.lxor_spec | reflexivity].
Qed.

Lemma lxor_pairs (a b c d : Z) :
  Z.lxor (Z.lxor a b) (Z.lxor c d) = Z.lxor (Z.lxor a c) (Z.lxor b d).
Proof.
  apply Z.bits_inj'. intros i _. rewrite !Z.lxor_spec.
  destruct (Z.testbit a i), (Z.testbit b i), (Z.testbit c i), (Z.testbit d i);
    reflexivity.
Qed.

(** L1 and L2 map 32-bit words to 32-bit words and are linear over xor. *)
Theorem L1_L2_linear (x y : Z) :
  is_u32 x -> is_u32 y ->
  is_u32 (L1 x) /\ is_u32 (L2 x)
  /\ L1 (Z.lxor x y) = Z.lxor (L1 x) (L1 y)
  /\ L2 (Z.lxor x y) = Z.lxor (L2 x) (L2 y).
Proof.
  intros Hx Hy.
  split; [unfold L1; repeat apply lxor_u32; try apply rotl32_u32; try assumption; lia|].
  split; [unfold L2; repeat apply lxor_u32; try apply rotl32_u32; try assumption; lia|].
  unfold L1, L2. rewrite !rotl32_lxor by (assumption || lia).
  split.
  - rewrite (lxor_pairs x y). rewrite (lxor_pairs (Z.lxor x (rotl32 x 2))).
    rewrite (lxor_pairs (Z.lxor (Z.lxor x (rotl32 x 2)) (rotl32 x 10))).
    apply lxor_pairs.
  - rewrite (lxor_pairs x y). rewrite (lxor_pairs (Z.lxor x (rotl32 x 8))).
    rewrite (lxor_pairs (Z.lxor (Z.lxor x (rotl32 x 8)) (rotl32 x 14))).
    apply lxor_pairs.
Qed.

Lemma L1_L2_linear_witness :
  L1 (Z.lxor 0x80000001 0x00010000) = Z.lxor (L1 0x80000001) (L1 0x00010000)
  /\ L2 (Z.lxor 0x80000001 0x00010000) = Z.lxor (L2 0x80000001) (L2 0x00010000).
Proof.
  destruct (L1_L2_linear 0x80000001 0x00010000) as (_ & _ & H1 & H2);
    [unfold is_u32; lia | unfold is_u32; lia |].
  split; [exact H1 | exact H2].
Defined.

End ZUC_properties.

(** * SM4.c: encryption after decryption *)

Module SM4_properties.
Import SM4 SM4_inverse.

Section Tables.
Variables SM4_Sbox SM4_FK SM4_CK : list Z.

(** The 32 rounds under any round keys are undone by the 32 rounds under
    the same keys in reverse order, on a block of sixteen bytes. *)
Lemma rounds_reverse_keys (key : nat -> Z) (B : list Z) :
  length B = 16%nat -> Forall is_u8 B ->
  store_block
    (rounds SM4_Sbox (fun i => key (31 - i)%nat)
       (load_block (store_block (rounds SM4_Sbox key (load_block B))))) = B.
Proof.
  intros Hlen HB.
  pose proof (rounds_run SM4_Sbox key (load_block B) eq_refl)
    as (HlenE & HE4 & HErun).
  remember (rounds SM4_Sbox key (load_block B)) as E eqn:HeqE. clear HeqE.
  assert (HEu : forall j : nat, (j < 36)%nat -> is_u32 (E !!! j)).
  { apply (run_u32 SM4_Sbox key); [exact HErun|].
    intros j Hj. rewrite HE4 by exact Hj. rewrite load_block_words.
    do 4 (destruct j as [|j]; [apply load_be32_u32|]). lia. }
  pose proof (store_block_words E) as HC.
  remember (store_block E) as C eqn:HeqC. clear HeqC.
  pose proof (rounds_run SM4_Sbox (fun i => key (31 - i)%nat) (load_block C)
                eq_refl) as (HlenD & HD4 & HDrun).
  remember (rounds SM4_Sbox (fun i => key (31 - i)%nat) (load_block C))
    as D eqn:HeqD.
  clear HeqD.
  assert (HD0 : forall j : nat, (j < 4)%nat -> D !!! j = E !!! (35 - j)%nat).
  { intros j Hj. rewrite HD4 by exact Hj. rewrite load_block_words, HC.
    unfold store_be32.
    do 4 (destruct j as [|j];
          [cbn [lookup_total list_lookup_total app Nat.sub];
           apply load_store, HEu; lia|]).
    lia. }
  pose proof (run_reversed SM4_Sbox key E D HErun HDrun HD0) as Hrev.
  rewrite store_block_words.
  rewrite (Hrev 35%nat), (Hrev 34%nat), (Hrev 33%nat), (Hrev 32%nat) by lia.
  cbn [Nat.sub].
  rewrite (HE4 0%nat), (HE4 1%nat), (HE4 2%nat), (HE4 3%nat) by lia.
  rewrite load_block_words.
  do 17 (destruct B as [|? B]; try discriminate Hlen).
  repeat match goal with H : Forall is_u8 (_ :: _) |- _ =>
    apply Forall_cons in H; destruct H as [? H] end.
  cbn [lookup_total list_lookup_total app].
  rewrite !store_load by assumption. reflexivity.
Qed.

(** Encryption undoes decryption: for every key and every block C of
    sixteen bytes, SM4_Encrypt (key, SM4_Decrypt (key, C)) = C. With the
    other order, the two functions are inverse bijections of the blocks. *)
Theorem SM4_Encrypt_Decrypt (MK C : list Z) :
  length C = 16%nat -> Forall is_u8 C ->
  SM4_Encrypt SM4_Sbox SM4_FK SM4_CK MK
    (SM4_Decrypt SM4_Sbox SM4_FK SM4_CK MK C) = C.
Proof.
  intros Hlen HC. unfold SM4_Encrypt, SM4_Decrypt.
  set (rk := SM4_KeySchedule SM4_Sbox SM4_FK SM4_CK MK).
  pose proof (KeySchedule_length SM4_Sbox SM4_FK SM4_CK MK) as Hrk.
  fold rk in Hrk. clearbody rk.
  set (key := fun i : nat => rk !!! (31 - i)%nat).
  rewrite (rounds_ext SM4_Sbox (fun i => rk !!! i) (fun i => key (31 - i)%nat)).
  - apply (rounds_reverse_keys key C Hlen HC).
  - intros i Hi. unfold key. f_equal. lia.
Qed.

End Tables.

Lemma SM4_Encrypt_Decrypt_witness :
  SM4_Encrypt SM4_h.SM4_Sbox SM4_h.SM4_FK SM4_h.SM4_CK SM4_SelfCheck.key
    (SM4_Decrypt SM4_h.SM4_Sbox SM4_h.SM4_FK SM4_h.SM4_CK SM4_SelfCheck.key
       SM4_SelfCheck.plain) = SM4_SelfCheck.plain.
Proof.
  assert (Hu : Forall is_u8 SM4_SelfCheck.plain).
  { repeat constructor; unfold is_u8; lia. }
  pose proof (SM4_Encrypt_Decrypt SM4_h.SM4_Sbox SM4_h.SM4_FK SM4_h.SM4_CK
                SM4_SelfCheck.key SM4_SelfCheck.plain eq_refl Hu) as H.
  exact H.
Defined.

End SM4_properties.

(** * SM2_ENC.c: every return of the two functions *)

Module SM2_ENC_codes.
Import MIRACL MIRACL_facts KDF KDF_spec SM2_laws SM2_ENC SM2_encryption.

Section WithBackend.
Context {curve : Curve} {hash : Hash} {params : Params}.

(** SM2_Encrypt on a message of 1 to 65535 bytes and an array C that holds
    the cipher text always returns, with one of three codes, and C is
    written on each of them: ERR_INFINITY_POINT leaves C1 in C[0 .. 63],
    ERR_ARRAY_NULL leaves C1 and the (all-zero) key stream in the place of
    C2, and 0 leaves the cipher text. *)
Theorem SM2_Encrypt_codes (g : globals) (randK : list Z) (pubKey : epoint)
    (M C : list Z) (klen : Z) :
  hash_laws ->
  Z.of_nat (length M) = klen -> 1 <= klen <= 65535 ->
  klen + 96 <= Z.of_nat (length C) ->
  let k := bytes_to_big SM2_NUMWORD randK in
  let x1 := big_to_bytes SM2_NUMWORD (fst (epoint_get (ecurve_mult k (G g)))) in
  let y1 := big_to_bytes SM2_NUMWORD (snd (epoint_get (ecurve_mult k (G g)))) in
  let x2 := big_to_bytes SM2_NUMWORD (fst (epoint_get (ecurve_mult k pubKey))) in
  let y2 := big_to_bytes SM2_NUMWORD (snd (epoint_get (ecurve_mult k pubKey))) in
  let t := KDF_stream (x2 ++ y2) klen in
  SM2_Encrypt g randK pubKey M klen C
    = Some (if point_at_infinity (ecurve_mult (para_h g) pubKey)
            then (ERR_INFINITY_POINT, x1 ++ y1 ++ drop 64 C)
            else if forallb (fun x => x =? 0) t
            then (ERR_ARRAY_NULL,
                  x1 ++ y1 ++ take 32 (drop 64 C) ++ t
                     ++ drop (Z.to_nat (klen + 96)) C)
            else (0, x1 ++ y1 ++ SM3 (x2 ++ M ++ y2) ++ zip_with Z.lxor M t
                        ++ drop (Z.to_nat (klen + 96)) C)).
Proof.
  intros HH HM Hk HC k x1 y1 x2 y2 t.
  destruct (split_fields C klen ltac:(lia) HC)
    as (c0 & c1 & c2 & c3 & crest & -> & H0 & H1 & H2 & H3).
  rewrite (SM2_Encrypt_fields g randK pubKey M c0 c1 c2 c3 crest klen HH
             H0 H1 H2 H3 HM ltac:(lia))
    by (unfold u16; rewrite Z.mod_small; lia).
  fold k x1 y1 x2 y2. rewrite KDF_effect_short by lia. fold t.
  replace (Z.to_nat (klen + 96)) with (96 + Z.to_nat klen)%nat by lia.
  rewrite <- (drop_drop _ (Z.to_nat klen) 96), drop_fields by assumption.
  rewrite (drop_app_length' c3) by lia.
  replace (drop 64 (c0 ++ c1 ++ c2 ++ c3 ++ crest)) with (c2 ++ c3 ++ crest)
    by (rewrite (app_assoc c0 c1), drop_app_length';
        [reflexivity | rewrite length_app; lia]).
  rewrite (take_app_length' c2) by lia.
  reflexivity.
Qed.

(** SM2_Decrypt on a cipher text with 1 to 65535 bytes of C2 always
    returns, with one of five codes. The array M is as on entry for
    ERR_NOT_VALID_POINT and ERR_INFINITY_POINT, holds the key stream for
    ERR_ARRAY_NULL, and holds the candidate plain text KDF (x2 || y2) xor C2
    both for 0 and for ERR_C3_MATCH. The return value of epoint_set is not
    looked at: a C1 it rejects is tested as the point epoint_init built. *)
Theorem SM2_Decrypt_codes (g : globals) (dB : Z) (C M0 : list Z) (Clen : Z) :
  hash_laws ->
  Clen <= Z.of_nat (length C) -> 1 <= Clen - 96 <= 65535 ->
  Clen - 96 <= Z.of_nat (length M0) ->
  let klen := Clen - 96 in
  let C1 := default epoint_init
              (epoint_set (bytes_to_big SM2_NUMWORD C)
                          (bytes_to_big SM2_NUMWORD (drop 32 C))) in
  let x2 := big_to_bytes SM2_NUMWORD (fst (epoint_get (ecurve_mult dB C1))) in
  let y2 := big_to_bytes SM2_NUMWORD (snd (epoint_get (ecurve_mult dB C1))) in
  let t := KDF_stream (x2 ++ y2) klen in
  let candidate := zip_with Z.lxor t (take (Z.to_nat klen) (drop 96 C)) in
  let rest := drop (Z.to_nat klen) M0 in
  SM2_Decrypt g dB C Clen M0
    = Some (if negb (Test_Point g C1 =? 0) then (ERR_NOT_VALID_POINT, M0)
            else if point_at_infinity (ecurve_mult (para_h g) C1)
            then (ERR_INFINITY_POINT, M0)
            else if forallb (fun x => x =? 0) t then (ERR_ARRAY_NULL, t ++ rest)
            else if bool_decide (SM3 (x2 ++ candidate ++ y2)
                                 = take 32 (drop 64 C))
            then (0, candidate ++ rest)
            else (ERR_C3_MATCH, candidate ++ rest)).
Proof.
  intros HH HC Hk HM0 klen.
  destruct (split_fields C klen ltac:(lia) ltac:(unfold klen; lia))
    as (c0 & c1 & c2 & c3 & crest & -> & H0 & H1 & H2 & H3).
  intros C1 x2 y2 t candidate rest.
  replace (SM2_Decrypt g dB (c0 ++ c1 ++ c2 ++ c3 ++ crest) Clen M0)
    with (SM2_Decrypt g dB (c0 ++ c1 ++ c2 ++ c3 ++ crest) (klen + 96)
            (take (Z.to_nat klen) M0 ++ drop (Z.to_nat klen) M0))
    by (rewrite take_drop; f_equal; unfold klen; lia).
  subst C1 x2 y2 t candidate rest.
  rewrite (SM2_Decrypt_fields g dB c0 c1 c2 c3 crest (take (Z.to_nat klen) M0)
             (drop (Z.to_nat klen) M0) klen HH H0 H1 H2 H3)
    by (rewrite ?length_take; unfold u16; rewrite ?Z.mod_small;
        unfold klen in *; lia).
  rewrite KDF_effect_short by (rewrite ?length_take; unfold klen in *; lia).
  rewrite (bytes_to_big_field c0) by exact H0.
  rewrite (drop_app_length' c0) by (symmetry; exact H0).
  rewrite (bytes_to_big_field c1) by exact H1.
  rewrite drop_fields, take_app_length' by lia.
  replace (take 32 (drop 64 (c0 ++ c1 ++ c2 ++ c3 ++ crest))) with c2
    by (rewrite (app_assoc c0 c1), drop_app_length' by (rewrite length_app; lia);
        rewrite take_app_length' by lia; reflexivity).
  rewrite take_drop. cbv zeta.
  set (C1 := default epoint_init _).
  assert (HTP : Test_Point g C1 = 0 \/ Test_Point g C1 = ERR_NOT_VALID_POINT).
  { unfold Test_Point. destruct (epoint_get C1) as [x y].
    destruct (negb _); [right | left]; reflexivity. }
  destruct HTP as [-> | ->]; reflexivity.
Qed.

End WithBackend.

End SM2_ENC_codes.

Module SM2_ENC_codes_examples.
Import MIRACL SM2_laws SM2_examples.

#[local] Existing Instance F11.curve.
#[local] Existing Instance SM3_model.SM3_hash.
#[local] Existing Instance F11.params.

(** A public key that is the point at infinity: C1 is written all the
    same. *)
Lemma SM2_Encrypt_codes_witness :
  SM2_ENC.SM2_Encrypt g rand None message 3 (replicate 99 7)
    = Some (SM2_ENC.ERR_INFINITY_POINT, x1 ++ y1 ++ replicate 35 7).
Proof.
  pose proof (SM2_ENC_codes.SM2_Encrypt_codes g rand None message
                (replicate 99 7) 3 SM3_model.SM3_hash_laws eq_refl
                ltac:(lia) ltac:(vm_compute; discriminate)) as H.
  cbv zeta in H. rewrite H. vm_compute. reflexivity.
Defined.

(** A cipher text whose C1 = (1, 1) is not on the curve: M is untouched. *)
Lemma SM2_Decrypt_codes_witness :
  SM2_ENC.SM2_Decrypt g 5
    (replicate 31 0 ++ [1] ++ replicate 31 0 ++ [1] ++ replicate 35 0) 99
    [9; 9; 9; 9]
    = Some (SM2_ENC.ERR_NOT_VALID_POINT, [9; 9; 9; 9]).
Proof.
  pose proof (SM2_ENC_codes.SM2_Decrypt_codes g 5
                (replicate 31 0 ++ [1] ++ replicate 31 0 ++ [1] ++ replicate 35 0)
                [9; 9; 9; 9] 99 SM3_model.SM3_hash_laws
                ltac:(vm_compute; discriminate) ltac:(lia)
                ltac:(vm_compute; discriminate)) as H.
  cbv zeta in H. rewrite H. vm_compute. reflexivity.
Defined.

End SM2_ENC_codes_examples.

(** * SM2_ENC.c: the data of the self test *)

Module SM2_ENC_vectors.
Import MIRACL KDF KDF_spec SM2_laws.

#[local] Instance params : Params := GMT_params.
#[local] Instance curve : Curve := Affine.backend p_ a_ b_.
#[local] Existing Instance SM3_model.SM3_hash.

(** The data of SM2_ENC_SelfTest. *)
Definition std_pubKey : list Z :=
  [0x09; 0xF9; 0xDF; 0x31; 0x1E; 0x54; 0x21; 0xA1; 0x50; 0xDD; 0x7D; 0x16; 0x1E; 0x4B; 0xC5; 0xC6;
   0x72; 0x17; 0x9F; 0xAD; 0x18; 0x33; 0xFC; 0x07; 0x6B; 0xB0; 0x8F; 0xF3; 0x56; 0xF3; 0x50; 0x20;
   0xCC; 0xEA; 0x49; 0x0C; 0xE2; 0x67; 0x75; 0xA5; 0x2D; 0xC6; 0xEA; 0x71; 0x8C; 0xC1; 0xAA; 0x60;
   0x0A; 0xED; 0x05; 0xFB; 0xF3; 0x5E; 0x08; 0x4A; 0x66; 0x32; 0xF6; 0x07; 0x2D; 0xA9; 0xAD; 0x13].

Definition std_Message : list Z :=
  [0x65; 0x6E; 0x63; 0x72; 0x79; 0x70; 0x74; 0x69; 0x6F; 0x6E; 0x20; 0x73; 0x74; 0x61; 0x6E;
   0x64; 0x61; 0x72; 0x64].

Definition std_Cipher : list Z :=
  [0x04; 0xEB; 0xFC; 0x71; 0x8E; 0x8D; 0x17; 0x98; 0x62; 0x04; 0x32; 0x26; 0x8E; 0x77; 0xFE; 0xB6;
   0x41; 0x5E; 0x2E; 0xDE; 0x0E; 0x07; 0x3C; 0x0F; 0x4F; 0x64; 0x0E; 0xCD; 0x2E; 0x14; 0x9A; 0x73;
   0xE8; 0x58; 0xF9; 0xD8; 0x1E; 0x54; 0x30; 0xA5; 0x7B; 0x36; 0xDA; 0xAB; 0x8F; 0x95; 0x0A; 0x3C;
   0x64; 0xE6; 0xEE; 0x6A; 0x63; 0x09; 0x4D; 0x99; 0x28; 0x3A; 0xFF; 0x76; 0x7E; 0x12; 0x4D; 0xF0;
   0x59; 0x98; 0x3C; 0x18; 0xF8; 0x09; 0xE2; 0x62; 0x92; 0x3C; 0x53; 0xAE; 0xC2; 0x95; 0xD3; 0x03;
   0x83; 0xB5; 0x4E; 0x39; 0xD6; 0x09; 0xD1; 0x60; 0xAF; 0xCB; 0x19; 0x08; 0xD0; 0xBD; 0x87; 0x66;
   0x21; 0x88; 0x6C; 0xA9; 0x89; 0xCA; 0x9C; 0x7D; 0x58; 0x08; 0x73; 0x07; 0xCA; 0x93; 0x09; 0x2D;
   0x65; 0x1E; 0xFA].

(** The globals for the header's parameters. *)
Definition g : SM2_ENC.globals :=
  SM2_encryption.initialised (default epoint_init (epoint_set Gx_ Gy_)).

(** The point whose coordinates are the first 64 bytes of an array. *)
Definition point_of (bytes : list Z) : epoint :=
  default epoint_init
    (epoint_set (bytes_to_big 32 bytes) (bytes_to_big 32 (drop 32 bytes))).

(** The coordinates of [k]P for std_rand and std_pubKey, as the standard's
    example lists them; the scalar multiplication is not run here. *)
Definition x2 : list Z :=
  big_to_bytes 32 0x335E18D751E51F040E27D468138B7AB1DC86AD7F981D7D416222FD6AB3ED230D.
Definition y2 : list Z :=
  big_to_bytes 32 0xAB743EBCFB22D64F7B6AB791F70658F25B48FA93E54064FDBFBED3F0BD847AC9.

(** Test_Point accepts the base point of the header, std_pubKey, the C1 of
    std_Cipher and (x2, y2), and rejects a point off the curve. *)
Example std_points_on_curve :
  SM2_ENC.Test_Point g (SM2_ENC.G g) = 0
  /\ SM2_ENC.Test_Point g (point_of std_pubKey) = 0
  /\ SM2_ENC.Test_Point g (point_of std_Cipher) = 0
  /\ SM2_ENC.Test_Point g (point_of (x2 ++ y2)) = 0
  /\ SM2_ENC.Test_Point g (point_of (replicate 64 1)) = SM2_ENC.ERR_NOT_VALID_POINT.
Proof. vm_compute. repeat split; reflexivity. Qed.

(** From (x2, y2) and std_Message, the hash and SM3_KDF as embedded give
    the C3 and the C2 of std_Cipher. *)
Example std_Cipher_C3_C2 :
  SM3 (x2 ++ std_Message ++ y2) = take 32 (drop 64 std_Cipher)
  /\ (t ← SM3_KDF (x2 ++ y2) 64 19 (replicate 19 0) 0;
      Some (zip_with Z.lxor std_Message t)) = Some (drop 96 std_Cipher).
Proof. vm_compute. split; reflexivity. Qed.

End SM2_ENC_vectors.
